(** * The content-generation workflow: generation client and orchestrator

    A shallow embedding of [types.ts], [geminiService.ts] and [App.tsx]:
    the handlers ([updateState], [startWorkflow], [retryImage], the
    downloads), the step navigation and the view of the current step.

    - JavaScript values that come out of [JSON.parse] are dynamically typed;
      they are modelled by [Value], with the property reads and writes, the
      spreads and the string conversion the handlers perform on them.
    - The generative service is an opaque collaborator: a [Service] answers
      the n-th [generateContent] request of a session either by rejecting or
      by resolving with a response.
    - Handlers are computations in a small monad [M] that threads the React
      state and the call counter, records what happened as a list of events,
      and propagates JavaScript exceptions.
    - A view is the element tree of a render up to its fixed markup: the
      values the tree takes from the state. *)

From Stdlib Require Import String Ascii List Bool Arith Lia NArith DecimalString.
From Stdlib Require DecimalNat DecimalFacts.
From Stdlib Require Import Sorted.
Import ListNotations.
Local Open Scope list_scope.
Local Open Scope string_scope.

(** ** Exceptions and results *)

(** What an [await] or a statement of the handlers can throw: the rejection
    of a service call, the [SyntaxError] of [JSON.parse], or a [TypeError]
    (reading a property of [undefined]/[null], calling a missing method,
    iterating a non-iterable, writing a property of a primitive in a module,
    which is strict code). *)
Inductive Exn : Type :=
| Rejected (reason : string)
| SyntaxError
| TypeError.

Inductive Result (A : Type) : Type :=
| Ok (a : A)
| Throw (e : Exn).
Arguments Ok {A} a.
Arguments Throw {A} e.

(** ** JavaScript values *)

(** The values [JSON.parse] builds and the handlers then read and write.
    Objects are taken by value: see [image_turn] for why this agrees with
    the sharing of the paragraph objects.  A number keeps the lexeme it was
    read from: no handler computes with numbers, they are only tested for
    truthiness and printed back (an engine prints the shortest form of the
    number the lexeme denotes, which is the lexeme for the usual integers).
    An array carries its elements and the named properties assigned to it
    later.  A character of a string stands for one unit of the text. *)
#[warnings="-register-all"]
Inductive Value : Type :=
| VUndef
| VNull
| VBool (b : bool)
| VNum (lexeme : string)
| VStr (s : string)
| VArr (elems : list Value) (props : list (string * Value))
| VObj (fields : list (string * Value)).

Definition Fields := list (string * Value).

Fixpoint lookup (k : string) (fs : Fields) : option Value :=
  match fs with
  | [] => None
  | (k', v) :: rest => if String.eqb k k' then Some v else lookup k rest
  end.

(** [o[k] = v] on own properties: an existing key keeps its place. *)
Fixpoint assign (k : string) (v : Value) (fs : Fields) : Fields :=
  match fs with
  | [] => [(k, v)]
  | (k', v') :: rest =>
      if String.eqb k k' then (k, v) :: rest else (k', v') :: assign k v rest
  end.

Definition or_undefined (o : option Value) : Value :=
  match o with Some v => v | None => VUndef end.

(** [v.k], for the property names the handlers and the views read
    ([ttsScript], [paragraphs], [imagePrompt], [copySuggestions], [imageUrl],
    [isGenerating], [content] and the like): none of them is found on a
    prototype, so only own properties count. *)
Definition get_prop (v : Value) (k : string) : Result Value :=
  match v with
  | VUndef | VNull => Throw TypeError
  | VObj fs => Ok (or_undefined (lookup k fs))
  | VArr _ ps => Ok (or_undefined (lookup k ps))
  | VBool _ | VNum _ | VStr _ => Ok VUndef
  end.

(** [v.k = x] in strict code; yields the updated object. *)
Definition set_prop (v : Value) (k : string) (x : Value) : Result Value :=
  match v with
  | VObj fs => Ok (VObj (assign k x fs))
  | VArr es ps => Ok (VArr es (assign k x ps))
  | _ => Throw TypeError
  end.

(** [a[i]]: [undefined] past the end. *)
Definition element (a : list Value) (i : nat) : Value := nth i a VUndef.

(** The array after [a[i] = x] for an [i] in range. *)
Fixpoint store (a : list Value) (i : nat) (x : Value) : list Value :=
  match a, i with
  | [], _ => []
  | _ :: rest, O => x :: rest
  | y :: rest, S i' => y :: store rest i' x
  end.

Fixpoint chars (s : string) : list Value :=
  match s with
  | EmptyString => []
  | String c rest => VStr (String c EmptyString) :: chars rest
  end.

(** [[...v]]: arrays and strings are the iterables among these values. *)
Definition spread_array (v : Value) : Result (list Value) :=
  match v with
  | VArr es _ => Ok es
  | VStr s => Ok (chars s)
  | _ => Throw TypeError
  end.

Definition decimal (n : nat) : string := NilZero.string_of_uint (Nat.to_uint n).

Fixpoint indexed (i : nat) (vs : list Value) : Fields :=
  match vs with
  | [] => []
  | v :: rest => (decimal i, v) :: indexed (S i) rest
  end.

(** The own enumerable properties an object spread copies. *)
Definition own_properties (v : Value) : Fields :=
  match v with
  | VObj fs => fs
  | VArr es ps => (indexed 0 es ++ ps)%list
  | VStr s => indexed 0 (chars s)
  | _ => []
  end.

(** [{ ...v, k: x }]. *)
Definition spread_with (v : Value) (k : string) (x : Value) : Value :=
  VObj (assign k x (own_properties v)).

Definition all_zero_digits (s : string) : bool :=
  (fix go (s : string) : bool :=
     match s with
     | EmptyString => true
     | String c rest =>
         if (c =? "e")%char || (c =? "E")%char then true
         else if (c =? "-")%char || (c =? ".")%char || (c =? "0")%char then go rest
         else false
     end) s.

Definition truthy (v : Value) : bool :=
  match v with
  | VUndef | VNull => false
  | VBool b => b
  | VNum lexeme => negb (all_zero_digits lexeme)
  | VStr s => negb (String.eqb s "")
  | VArr _ _ | VObj _ => true
  end.

(** String conversion inside a template literal.  A plain object prints as
    [[object Object]] unless an own [toString] entry (never callable in parsed
    data) hides the inherited method; an array joins its elements with commas,
    [null] and [undefined] elements printing as nothing. *)
Fixpoint ToString (v : Value) : Result string :=
  match v with
  | VUndef => Ok "undefined"
  | VNull => Ok "null"
  | VBool true => Ok "true"
  | VBool false => Ok "false"
  | VNum lexeme => Ok lexeme
  | VStr s => Ok s
  | VObj fs =>
      match lookup "toString" fs with
      | Some _ => Throw TypeError
      | None => Ok "[object Object]"
      end
  | VArr es _ =>
      (fix join (es : list Value) (first : bool) : Result string :=
         match es with
         | [] => Ok ""
         | e :: rest =>
             let item :=
               match e with
               | VUndef | VNull => Ok ""
               | _ => ToString e
               end in
             match item, join rest false with
             | Ok s, Ok t => Ok ((if first then "" else ",") ++ s ++ t)
             | Throw x, _ => Throw x
             | _, Throw x => Throw x
             end
         end) es true
  end.

(** ** [JSON.parse] *)

(** The grammar of JSON texts: white space, the three literals, numbers,
    strings with their escapes, arrays and objects; in an object the last of
    several members with the same key wins.  An escape [\uXXXX] is kept as
    the UTF-8 bytes of its code unit. *)
Module Json.

Definition quote : ascii := "034"%char.
Definition backslash : ascii := "\"%char.

Definition is_ws (c : ascii) : bool :=
  (c =? " ")%char || (c =? "009")%char || (c =? "010")%char || (c =? "013")%char.

Fixpoint skip_ws (s : string) : string :=
  match s with
  | String c rest => if is_ws c then skip_ws rest else s
  | EmptyString => s
  end.

Definition is_digit (c : ascii) : bool :=
  ((48 <=? nat_of_ascii c) && (nat_of_ascii c <=? 57))%nat.

(** The longest prefix of digits, and what follows it. *)
Fixpoint digits (s : string) : string * string :=
  match s with
  | String c rest =>
      if is_digit c then let (d, r) := digits rest in (String c d, r)
      else (EmptyString, s)
  | EmptyString => (EmptyString, s)
  end.

Definition strip_prefix (p s : string) : option string :=
  if String.prefix p s
  then Some (substring (String.length p) (String.length s - String.length p) s)
  else None.

(** A number lexeme: an optional minus sign; a single zero or a digit
    string without leading zero; an optional fraction (a dot and at least
    one digit); an optional exponent (e or E, an optional sign, at least
    one digit). *)
Definition scan_sign (s : string) : string * string :=
  match s with
  | String c rest => if (c =? "-")%char then ("-", rest) else ("", s)
  | EmptyString => ("", s)
  end.

Definition scan_int (s : string) : option (string * string) :=
  match s with
  | String c rest =>
      if (c =? "0")%char then Some ("0", rest)
      else if is_digit c then Some (digits s)
      else None
  | EmptyString => None
  end.

Definition scan_frac (s : string) : option (string * string) :=
  match s with
  | String c rest =>
      if (c =? ".")%char then
        match digits rest with
        | (EmptyString, _) => None
        | (d, r) => Some (String c d, r)
        end
      else Some ("", s)
  | EmptyString => Some ("", s)
  end.

Definition scan_exp (s : string) : option (string * string) :=
  match s with
  | String c rest =>
      if (c =? "e")%char || (c =? "E")%char then
        let (sign, s1) :=
          match rest with
          | String c' rest' =>
              if (c' =? "+")%char || (c' =? "-")%char
              then (String c' EmptyString, rest') else ("", rest)
          | EmptyString => ("", rest)
          end in
        match digits s1 with
        | (EmptyString, _) => None
        | (d, r) => Some (String c sign ++ d, r)
        end
      else Some ("", s)
  | EmptyString => Some ("", s)
  end.

Definition scan_number (s : string) : option (string * string) :=
  let (sign, s1) := scan_sign s in
  match scan_int s1 with
  | None => None
  | Some (i, s2) =>
      match scan_frac s2 with
      | None => None
      | Some (f, s3) =>
          match scan_exp s3 with
          | None => None
          | Some (e, s4) => Some (sign ++ i ++ f ++ e, s4)
          end
      end
  end.

Definition hex_digit (c : ascii) : option N :=
  let n := N_of_ascii c in
  if (48 <=? n)%N && (n <=? 57)%N then Some (n - 48)%N
  else if (65 <=? n)%N && (n <=? 70)%N then Some (n - 55)%N
  else if (97 <=? n)%N && (n <=? 102)%N then Some (n - 87)%N
  else None.

(** The bytes that stand for the code unit of a [\uXXXX] escape. *)
Definition utf8 (n : N) : string :=
  if (n <? 128)%N then String (ascii_of_N n) EmptyString
  else if (n <? 2048)%N then
    String (ascii_of_N (192 + n / 64)) (String (ascii_of_N (128 + n mod 64)) EmptyString)
  else
    String (ascii_of_N (224 + n / 4096))
      (String (ascii_of_N (128 + (n / 64) mod 64))
         (String (ascii_of_N (128 + n mod 64)) EmptyString)).

Definition simple_escape (c : ascii) : option ascii :=
  if (c =? quote)%char then Some quote
  else if (c =? backslash)%char then Some backslash
  else if (c =? "/")%char then Some "/"%char
  else if (c =? "b")%char then Some "008"%char
  else if (c =? "f")%char then Some "012"%char
  else if (c =? "n")%char then Some "010"%char
  else if (c =? "r")%char then Some "013"%char
  else if (c =? "t")%char then Some "009"%char
  else None.

Definition prepend (p : string) (r : option (string * string)) : option (string * string) :=
  match r with
  | Some (s, rest) => Some (p ++ s, rest)
  | None => None
  end.

(** The body of a string literal, after its opening quote. *)
Fixpoint scan_string (s : string) : option (string * string) :=
  match s with
  | EmptyString => None
  | String c rest =>
      if (c =? quote)%char then Some (EmptyString, rest)
      else if (c =? backslash)%char then
        match rest with
        | EmptyString => None
        | String e rest1 =>
            match simple_escape e with
            | Some x => prepend (String x EmptyString) (scan_string rest1)
            | None =>
                if (e =? "u")%char then
                  match rest1 with
                  | String h1 (String h2 (String h3 (String h4 rest2))) =>
                      match hex_digit h1, hex_digit h2, hex_digit h3, hex_digit h4 with
                      | Some a, Some b, Some c', Some d =>
                          prepend (utf8 (((a * 16 + b) * 16 + c') * 16 + d)%N)
                                  (scan_string rest2)
                      | _, _, _, _ => None
                      end
                  | _ => None
                  end
                else None
            end
        end
      else if (nat_of_ascii c <? 32)%nat then None
      else prepend (String c EmptyString) (scan_string rest)
  end.

(** Recursive descent; [fuel] bounds the number of nested calls. *)
Fixpoint parse_value (fuel : nat) (s : string) {struct fuel} : option (Value * string) :=
  match fuel with
  | O => None
  | S fuel' =>
      match s with
      | EmptyString => None
      | String c rest =>
          if (c =? "{")%char then
            match skip_ws rest with
            | String c' rest' =>
                if (c' =? "}")%char then Some (VObj [], rest')
                else parse_members fuel' (String c' rest') []
            | EmptyString => None
            end
          else if (c =? "[")%char then
            match skip_ws rest with
            | String c' rest' =>
                if (c' =? "]")%char then Some (VArr [] [], rest')
                else parse_elements fuel' (String c' rest') []
            | EmptyString => None
            end
          else if (c =? quote)%char then
            match scan_string rest with
            | Some (str, r) => Some (VStr str, r)
            | None => None
            end
          else if (c =? "t")%char then
            option_map (fun r => (VBool true, r)) (strip_prefix "true" s)
          else if (c =? "f")%char then
            option_map (fun r => (VBool false, r)) (strip_prefix "false" s)
          else if (c =? "n")%char then
            option_map (fun r => (VNull, r)) (strip_prefix "null" s)
          else
            match scan_number s with
            | Some (lexeme, r) => Some (VNum lexeme, r)
            | None => None
            end
      end
  end

with parse_elements (fuel : nat) (s : string) (acc : list Value) {struct fuel}
  : option (Value * string) :=
  match fuel with
  | O => None
  | S fuel' =>
      match parse_value fuel' s with
      | None => None
      | Some (v, r) =>
          match skip_ws r with
          | String c rest =>
              if (c =? ",")%char then parse_elements fuel' (skip_ws rest) (acc ++ [v])%list
              else if (c =? "]")%char then Some (VArr (acc ++ [v])%list [], rest)
              else None
          | EmptyString => None
          end
      end
  end

with parse_members (fuel : nat) (s : string) (acc : Fields) {struct fuel}
  : option (Value * string) :=
  match fuel with
  | O => None
  | S fuel' =>
      match s with
      | String q rest =>
          if (q =? quote)%char then
            match scan_string rest with
            | None => None
            | Some (key, r) =>
                match skip_ws r with
                | String colon r1 =>
                    if (colon =? ":")%char then
                      match parse_value fuel' (skip_ws r1) with
                      | None => None
                      | Some (v, r2) =>
                          match skip_ws r2 with
                          | String c r3 =>
                              if (c =? ",")%char
                              then parse_members fuel' (skip_ws r3) (assign key v acc)
                              else if (c =? "}")%char
                              then Some (VObj (assign key v acc), r3)
                              else None
                          | EmptyString => None
                          end
                      end
                    else None
                | EmptyString => None
                end
            end
          else None
      | EmptyString => None
      end
  end.

(** [JSON.parse(text)]: one value, surrounded by optional white space;
    [None] stands for the [SyntaxError]. *)
Definition parse (text : string) : option Value :=
  match parse_value (2 * String.length text + 2) (skip_ws text) with
  | Some (v, rest) =>
      match skip_ws rest with
      | EmptyString => Some v
      | String _ _ => None
      end
  | None => None
  end.

End Json.

Definition JSON_parse (text : string) : Result Value :=
  match Json.parse text with
  | Some v => Ok v
  | None => Throw SyntaxError
  end.

(** ** [types.ts] *)

Inductive AppStep : Type :=
| INPUT | RESEARCH | SCRIPT | IMAGES | METADATA | THUMBNAIL.

Inductive ScriptLength : Type :=
| SHORT | MEDIUM | LONG.

Record Source : Type := { title : string; uri : string }.

Record ResearchData : Type := { report : string; sources : list Source }.

(** [ScriptData], [ParagraphItem] and [MetadataResults] only describe what
    [JSON.parse] is hoped to return: at run time these are plain [Value]s.
    [ThumbnailData] is built by an object literal of the client. *)
Record ThumbnailData : Type := {
  pureImageUrl : option string;
  mockupImageUrl : option string;
  copySuggestions : Value
}.

Record AppState : Type := {
  currentStep : AppStep;
  topic : string;
  length : ScriptLength;
  research : option ResearchData;
  script : option Value;
  metadata : option Value;
  thumbnail : option ThumbnailData;
  isProcessing : bool
}.

(** [Partial<AppState>]: the keys an update carries. *)
Record Partial : Type := {
  new_currentStep : option AppStep;
  new_topic : option string;
  new_length : option ScriptLength;
  new_research : option ResearchData;
  new_script : option Value;
  new_metadata : option Value;
  new_thumbnail : option ThumbnailData;
  new_isProcessing : option bool
}.

Definition nothing : Partial :=
  {| new_currentStep := None; new_topic := None; new_length := None;
     new_research := None; new_script := None; new_metadata := None;
     new_thumbnail := None; new_isProcessing := None |}.

Definition override {A : Type} (prev : A) (new : option A) : A :=
  match new with Some x => x | None => prev end.

Definition override_opt {A : Type} (prev : option A) (new : option A) : option A :=
  match new with Some x => Some x | None => prev end.

(** [{ ...prev, ...updates }] *)
Definition merge (prev : AppState) (updates : Partial) : AppState :=
  {| currentStep := override (currentStep prev) (new_currentStep updates);
     topic := override (topic prev) (new_topic updates);
     length := override (length prev) (new_length updates);
     research := override_opt (research prev) (new_research updates);
     script := override_opt (script prev) (new_script updates);
     metadata := override_opt (metadata prev) (new_metadata updates);
     thumbnail := override_opt (thumbnail prev) (new_thumbnail updates);
     isProcessing := override (isProcessing prev) (new_isProcessing updates) |}.

(** The object literals passed to [updateState] by the workflow. *)
Definition step_update (s : AppStep) : Partial :=
  {| new_currentStep := Some s; new_topic := None; new_length := None;
     new_research := None; new_script := None; new_metadata := None;
     new_thumbnail := None; new_isProcessing := None |}.

Definition start_update : Partial :=
  {| new_currentStep := Some RESEARCH; new_topic := None; new_length := None;
     new_research := None; new_script := None; new_metadata := None;
     new_thumbnail := None; new_isProcessing := Some true |}.

Definition research_update (r : ResearchData) : Partial :=
  {| new_currentStep := None; new_topic := None; new_length := None;
     new_research := Some r; new_script := None; new_metadata := None;
     new_thumbnail := None; new_isProcessing := None |}.

Definition script_update (v : Value) : Partial :=
  {| new_currentStep := None; new_topic := None; new_length := None;
     new_research := None; new_script := Some v; new_metadata := None;
     new_thumbnail := None; new_isProcessing := None |}.

Definition metadata_update (v : Value) : Partial :=
  {| new_currentStep := None; new_topic := None; new_length := None;
     new_research := None; new_script := None; new_metadata := Some v;
     new_thumbnail := None; new_isProcessing := None |}.

Definition thumbnail_update (t : ThumbnailData) : Partial :=
  {| new_currentStep := None; new_topic := None; new_length := None;
     new_research := None; new_script := None; new_metadata := None;
     new_thumbnail := Some t; new_isProcessing := None |}.

(** [{ topic: e.target.value }], published by the input field. *)
Definition topic_update (t : string) : Partial :=
  {| new_currentStep := None; new_topic := Some t; new_length := None;
     new_research := None; new_script := None; new_metadata := None;
     new_thumbnail := None; new_isProcessing := None |}.

Definition processing_update (b : bool) : Partial :=
  {| new_currentStep := None; new_topic := None; new_length := None;
     new_research := None; new_script := None; new_metadata := None;
     new_thumbnail := None; new_isProcessing := Some b |}.

(** The state of the first render. *)
Definition initialState : AppState :=
  {| currentStep := INPUT; topic := ""; length := MEDIUM;
     research := None; script := None; metadata := None; thumbnail := None;
     isProcessing := false |}.

(** ** The generative service *)

(** The parts of a [generateContent] response the client reads. *)
Record Blob : Type := { data : option string }.
Record Part : Type := { inlineData : option Blob }.
Record Content : Type := { parts : option (list Part) }.
Record WebChunk : Type := { web_title : option string; web_uri : option string }.
Record GroundingChunk : Type := { web : option WebChunk }.
Record GroundingMetadata : Type := { groundingChunks : option (list GroundingChunk) }.
Record Candidate : Type := {
  content : option Content;
  groundingMetadata : option GroundingMetadata
}.
Record Response : Type := {
  text : option string;
  candidates : option (list Candidate)
}.

(** Response schemas, as the requests declare them. *)
#[warnings="-register-all"]
Inductive Schema : Type :=
| TString
| TInteger
| TArray (items : Schema)
| TObject (properties : list (string * Schema)) (required : list string).

(** The five requests of [geminiService.ts], with what each interpolates. *)
Inductive Request : Type :=
| ResearchCall (topic : string)
| ScriptCall (research : string) (targetChars : nat)
| ImageCall (prompt : string)
| MetadataCall (script : string)
| ThumbnailCopyCall (script : string).

Definition model (r : Request) : string :=
  match r with
  | ResearchCall _ | ScriptCall _ _ => "gemini-3-pro-preview"
  | ImageCall _ => "gemini-2.5-flash-image"
  | MetadataCall _ | ThumbnailCopyCall _ => "gemini-3-flash-preview"
  end.

Definition contents (r : Request) : string :=
  match r with
  | ResearchCall topic =>
      "주제: " ++ topic ++ ". 이 주제에 대해 최신 정보를 바탕으로 팩트 체크를 포함한 상세한 보고서를 작성해줘. 한국어로 작성하며, 허위 내용 없이 사실 위주로 구성해."
  | ScriptCall research targetChars =>
      "
    다음 조사 보고서를 바탕으로 유튜브 내레이션 대본을 작성해줘.
    조사 보고서: " ++ research ++ "
    
    [작성 가이드라인]
    1. 분량: 공백 포함 약 " ++ decimal targetChars ++ "자 내외 (매우 중요, 풍부하게 작성할 것)
    2. 시점: 1인칭 시점, 자연스러운 혼잣말 내레이션 형식
    3. 구조: 도입부(30초 후킹)-전개-위기-전환-결말
    4. 특징: 구체적인 사례 포함, 시청자의 상상력을 자극하는 묘사, 자연스러운 CTA 포함
    5. 스타일: 팩트 기반이지만 공감을 이끌어내는 스토리텔링
    
    [출력 형식]
    - 전체 대본을 작성한 뒤, 이를 정확히 12개의 의미 있는 문단으로 나누어줘.
    - 각 문단별로 Vrew TTS 프로그램에 최적화된 구어체(##, ** 같은 특수문자 절대 제외)로 변환한 내레이션 텍스트도 함께 생성해줘.
    - 각 문단에 어울리는 '실사/초현실적 한국 배경/한국인' 이미지 생성 프롬프트(영문)도 작성해줘.
  "
  | ImageCall prompt =>
      "Photorealistic, surreal high-quality image, set in Korea with Korean people, high resolution, cinematic lighting, no text: " ++ prompt
  | MetadataCall script =>
      "다음 대본을 분석하여 유튜브 메타데이터를 작성해줘. 
    대본: " ++ script ++ "
    
    요구사항:
    1. 유튜브 설명란용 전체 요약
    2. 핵심 요약 4줄
    3. 대표 해시태그 7개 (한 줄에 표시)
    4. SEO 키워드 20개 (쉼표로 구분)
    5. 영상 고정 댓글용 인사말 및 설명"
  | ThumbnailCopyCall script =>
      "다음 대본에 어울리는 유튜브 썸네일 문구를 생성해줘.
    대본: " ++ script ++ "
    
    [형태1: 주제, 궁금증/후킹, 가치] 3가지
    [형태2: 주제, 후킹, 가치] 3가지
    각각의 썸네일 이미지를 위한 묘사 프롬프트(영문)도 하나 추천해줘."
  end.

Definition paragraphSchema : Schema :=
  TObject [("id", TInteger); ("content", TString); ("imagePrompt", TString)]
          ["id"; "content"; "imagePrompt"].

Definition scriptSchema : Schema :=
  TObject [("rawScript", TString); ("ttsScript", TString);
           ("paragraphs", TArray paragraphSchema)]
          ["rawScript"; "ttsScript"; "paragraphs"].

Definition metadataSchema : Schema :=
  TObject [("youtubeDescription", TString); ("summary4Lines", TString);
           ("hashtags", TArray TString); ("seoKeywords", TArray TString);
           ("pinnedComment", TString)] [].

Definition thumbnailSchema : Schema :=
  TObject [("copySuggestions",
            TObject [("type1", TArray TString); ("type2", TArray TString)] []);
           ("imagePrompt", TString)] [].

Definition responseSchema (r : Request) : option Schema :=
  match r with
  | ScriptCall _ _ => Some scriptSchema
  | MetadataCall _ => Some metadataSchema
  | ThumbnailCopyCall _ => Some thumbnailSchema
  | ResearchCall _ | ImageCall _ => None
  end.

Definition is_integer_lexeme (s : string) : bool :=
  match s with
  | String c rest =>
      let ds := if (c =? "-")%char then rest else s in
      match Json.digits ds with
      | (String _ _, EmptyString) => true
      | _ => false
      end
  | EmptyString => false
  end.

Definition declared (k : string) (properties : list (string * Schema)) : bool :=
  existsb (fun p => String.eqb k (fst p)) properties.

Definition present (fs : Fields) (k : string) : bool :=
  match lookup k fs with Some _ => true | None => false end.

(** What a response constrained by a schema looks like: objects hold the
    required properties, only declared ones, each of its declared type. *)
Fixpoint conforms (sc : Schema) (v : Value) {struct sc} : bool :=
  match sc, v with
  | TString, VStr _ => true
  | TInteger, VNum lexeme => is_integer_lexeme lexeme
  | TArray items, VArr es [] => forallb (conforms items) es
  | TObject properties required, VObj fs =>
      forallb (present fs) required
      && forallb (fun f => declared (fst f) properties) fs
      && (fix each (ps : list (string * Schema)) : bool :=
            match ps with
            | [] => true
            | (k, s) :: rest =>
                match lookup k fs with
                | Some x => conforms s x
                | None => true
                end && each rest
            end) properties
  | _, _ => false
  end.

(** How a call settles. *)
Inductive Reply : Type :=
| Rejects (reason : string)
| Resolves (response : Response).

(** The service as the client sees it during one session: the reply to a
    request may depend on how many requests came before it. *)
Definition Service : Type := nat -> Request -> Reply.

(** ** The monad of the handlers *)

Inductive Event : Type :=
| Called (request : Request) (reply : Reply)
| Published (updates : Partial)
| ConsoleError (message : string) (error : Exn)
| Alert (message : string).

(** [app] is the React state, [clock] the number of service calls made. *)
Record World : Type := { app : AppState; clock : nat }.

(** What running a computation gives: how it completed, the world it leaves,
    and the events it produced, oldest first. *)
Record Run (A : Type) : Type := {
  outcome : Result A;
  final : World;
  events : list Event
}.
Arguments outcome {A} r.
Arguments final {A} r.
Arguments events {A} r.

Definition M (A : Type) : Type := World -> Run A.

Definition ret {A : Type} (a : A) : M A :=
  fun w => {| outcome := Ok a; final := w; events := [] |}.

Definition throw {A : Type} (e : Exn) : M A :=
  fun w => {| outcome := Throw e; final := w; events := [] |}.

(** [later] after [first]: its events follow those of [first]. *)
Definition after {B : Type} (first : list Event) (later : Run B) : Run B :=
  match later with
  | {| outcome := o; final := w; events := es |} =>
      {| outcome := o; final := w; events := (first ++ es)%list |}
  end.

Definition bind {A B : Type} (m : M A) (k : A -> M B) : M B :=
  fun w =>
    match m w with
    | {| outcome := Ok a; final := w1; events := es |} => after es (k a w1)
    | {| outcome := Throw e; final := w1; events := es |} =>
        {| outcome := Throw e; final := w1; events := es |}
    end.

Definition lift {A : Type} (r : Result A) : M A :=
  match r with Ok a => ret a | Throw e => throw e end.

(** [try { body } catch (e) { handler e }] *)
Definition try_catch {A : Type} (body : M A) (handler : Exn -> M A) : M A :=
  fun w =>
    match body w with
    | {| outcome := Ok a; final := w1; events := es |} =>
        {| outcome := Ok a; final := w1; events := es |}
    | {| outcome := Throw e; final := w1; events := es |} =>
        after es (handler e w1)
    end.

(** [try { body } finally { cleanup }] *)
Definition try_finally {A : Type} (body : M A) (cleanup : M unit) : M A :=
  fun w =>
    match body w with
    | {| outcome := o; final := w1; events := es |} =>
        match cleanup w1 with
        | {| outcome := Ok _; final := w2; events := es' |} =>
            {| outcome := o; final := w2; events := (es ++ es')%list |}
        | {| outcome := Throw e; final := w2; events := es' |} =>
            {| outcome := Throw e; final := w2; events := (es ++ es')%list |}
        end
    end.

Declare Scope monad_scope.
Delimit Scope monad_scope with monad.
Notation "x <- m ;; k" := (bind m (fun x => k))
  (at level 100, m at next level, right associativity) : monad_scope.
Notation "m ;; k" := (bind m (fun _ => k))
  (at level 100, right associativity) : monad_scope.
Local Open Scope monad_scope.

Definition emit (e : Event) : M unit :=
  fun w => {| outcome := Ok tt; final := w; events := [e] |}.

Definition console_error (message : string) (error : Exn) : M unit :=
  emit (ConsoleError message error).
Definition alert (message : string) : M unit := emit (Alert message).

(** The closure of a handler sees the state of the render it was created
    by; a handler is run from that render. *)
Definition getState : M AppState :=
  fun w => {| outcome := Ok (app w); final := w; events := [] |}.

(** [setState(prev => ({ ...prev, ...updates }))] *)
Definition updateState (updates : Partial) : M unit :=
  fun w =>
    {| outcome := Ok tt;
       final := {| app := merge (app w) updates; clock := clock w |};
       events := [Published updates] |}.

(** [a || b] on an optional string: the empty string is falsy too. *)
Definition or_else (a : option string) (b : string) : string :=
  match a with
  | Some s => if String.eqb s "" then b else s
  | None => b
  end.

(** [response.candidates?.[0]] *)
Definition first_candidate (response : Response) : option Candidate :=
  match candidates response with
  | Some (c :: _) => Some c
  | _ => None
  end.

(** [response.candidates?.[0]?.groundingMetadata?.groundingChunks] *)
Definition grounding_chunks (response : Response) : option (list GroundingChunk) :=
  match first_candidate response with
  | Some c =>
      match groundingMetadata c with
      | Some g => groundingChunks g
      | None => None
      end
  | None => None
  end.

(** [response.candidates?.[0]?.content?.parts || []] *)
Definition content_parts (response : Response) : list Part :=
  match first_candidate response with
  | Some c =>
      match content c with
      | Some ct => match parts ct with Some ps => ps | None => [] end
      | None => []
      end
  | None => []
  end.

Definition source_of_chunk (chunk : GroundingChunk) : Source :=
  {| title := or_else (match web chunk with Some w => web_title w | None => None end) "출처";
     uri := or_else (match web chunk with Some w => web_uri w | None => None end) "#" |}.

(** The [for ... of] loop of [generateImage]: the data URL of the first part
    that carries inline data, the empty string when there is none. *)
Fixpoint first_image (ps : list Part) : string :=
  match ps with
  | [] => ""
  | part :: rest =>
      match inlineData part with
      | Some blob =>
          "data:image/png;base64,"
          ++ match data blob with Some d => d | None => "undefined" end
      | None => first_image rest
      end
  end.

(** [script.substring(0, n)]: only a string has the method. *)
Definition substring_method (v : Value) (n : nat) : Result string :=
  match v with
  | VStr s => Ok (substring 0 n s)
  | _ => Throw TypeError
  end.

#[warnings="-abstract-large-number"]
Definition targetChars_of (length : ScriptLength) : nat :=
  match length with
  | SHORT => 4000
  | MEDIUM => 8000
  | LONG => 12000
  end.

(** The fixed part of the template literal passed to [generateImage] by
    [generateThumbnailContent]. *)
Definition thumbnailFraming : string :=
  "Hyper-realistic cinematic YouTube thumbnail background, Korean context, emotionally grabbing, no text: ".

(** The text of the [alert] of [startWorkflow]. *)
Definition failureNotice : string :=
  "처리 중 오류가 발생했습니다. 다시 시도해 주세요.".

Section Client.

Variable svc : Service.

(** [await getAI().models.generateContent(...)]: the request is settled
    before the caller goes on; a failure to build the client counts as a
    rejection. *)
Definition generateContent (request : Request) : M Response :=
  fun w =>
    let reply := svc (clock w) request in
    {| outcome := match reply with
                  | Resolves response => Ok response
                  | Rejects reason => Throw (Rejected reason)
                  end;
       final := {| app := app w; clock := S (clock w) |};
       events := [Called request reply] |}.

(** *** [geminiService.ts] *)

Definition performResearch (topic : string) : M ResearchData :=
  response <- generateContent (ResearchCall topic) ;;
  let sources :=
    match grounding_chunks response with
    | Some chunks => map source_of_chunk chunks
    | None => []
    end in
  ret {| report := or_else (text response) ""; sources := sources |}.

Definition generateScript (research : string) (length : ScriptLength) : M Value :=
  let targetChars := targetChars_of length in
  response <- generateContent (ScriptCall research targetChars) ;;
  data <- lift (JSON_parse (or_else (text response) "{}")) ;;
  ret data.

Definition generateImage (prompt : Value) : M string :=
  shown <- lift (ToString prompt) ;;
  response <- generateContent (ImageCall shown) ;;
  ret (first_image (content_parts response)).

#[warnings="-abstract-large-number"]
Definition generateMetadata (script : Value) : M Value :=
  prefix <- lift (substring_method script 5000) ;;
  response <- generateContent (MetadataCall prefix) ;;
  lift (JSON_parse (or_else (text response) "{}")).

#[warnings="-abstract-large-number"]
Definition generateThumbnailContent (script : Value) : M ThumbnailData :=
  prefix <- lift (substring_method script 2000) ;;
  textResponse <- generateContent (ThumbnailCopyCall prefix) ;;
  textData <- lift (JSON_parse (or_else (text textResponse) "{}")) ;;
  imagePrompt <- lift (get_prop textData "imagePrompt") ;;
  shown <- lift (ToString imagePrompt) ;;
  pureImage <- generateImage (VStr (thumbnailFraming ++ shown)) ;;
  suggestions <- lift (get_prop textData "copySuggestions") ;;
  ret {| pureImageUrl := Some pureImage;
         mockupImageUrl := None;
         copySuggestions := suggestions |}.

(** *** [App.tsx] *)

(** [{ script: { ...scriptData, paragraphs: [...] } }] *)
Definition paragraphs_update (scriptData : Value) (paragraphs : list Value) : Partial :=
  script_update (spread_with scriptData "paragraphs" (VArr paragraphs [])).

(** [a[i].k = x], on the array [a]. *)
Definition set_at (a : list Value) (i : nat) (k : string) (x : Value)
  : Result (list Value) :=
  match set_prop (element a i) k x with
  | Ok element => Ok (store a i element)
  | Throw e => Throw e
  end.

(** One turn of the [for] loop of [startWorkflow] (lines 73 to 84).  The
    paragraph objects are shared with the arrays already published; every
    write to one of them is followed, before the next [await], by the
    publication of an array that holds it, so what a reader of the state
    sees at each [await] is the array threaded here. *)
Definition image_turn (scriptData : Value) (i : nat) (updatedParagraphs : list Value)
  : M (list Value) :=
  generating <- lift (set_at updatedParagraphs i "isGenerating" (VBool true)) ;;
  updateState (paragraphs_update scriptData generating) ;;
  attempted <-
    try_catch
      (prompt <- lift (get_prop (element generating i) "imagePrompt") ;;
       url <- generateImage prompt ;;
       lift (set_at generating i "imageUrl" (VStr url)))
      (fun err =>
         console_error ("Failed to generate image for paragraph " ++ decimal i) err ;;
         ret generating) ;;
  settled <- lift (set_at attempted i "isGenerating" (VBool false)) ;;
  updateState (paragraphs_update scriptData settled) ;;
  ret settled.

(** [for (let i = 0; i < updatedParagraphs.length; i++)]: the array keeps
    its length, [todo] counts the turns left. *)
Fixpoint image_loop (scriptData : Value) (todo : nat) (i : nat)
         (updatedParagraphs : list Value) : M (list Value) :=
  match todo with
  | O => ret updatedParagraphs
  | S todo' =>
      next <- image_turn scriptData i updatedParagraphs ;;
      image_loop scriptData todo' (S i) next
  end.

(** Lines 50 to 67: the four awaited stages; yields [scriptData]. *)
Definition stages (state : AppState) : M Value :=
  research <- performResearch (topic state) ;;
  updateState (research_update research) ;;
  updateState (step_update SCRIPT) ;;
  scriptData <- generateScript (report research) (length state) ;;
  updateState (script_update scriptData) ;;
  updateState (step_update METADATA) ;;
  ttsScript <- lift (get_prop scriptData "ttsScript") ;;
  metadata <- generateMetadata ttsScript ;;
  updateState (metadata_update metadata) ;;
  updateState (step_update THUMBNAIL) ;;
  ttsScript' <- lift (get_prop scriptData "ttsScript") ;;
  thumbnail <- generateThumbnailContent ttsScript' ;;
  updateState (thumbnail_update thumbnail) ;;
  ret scriptData.

(** Lines 69 to 85: the image generation for the paragraphs. *)
Definition images (scriptData : Value) : M unit :=
  updateState (step_update IMAGES) ;;
  paragraphs <- lift (get_prop scriptData "paragraphs") ;;
  updatedParagraphs <- lift (spread_array paragraphs) ;;
  image_loop scriptData (List.length updatedParagraphs) 0 updatedParagraphs ;;
  ret tt.

(** The [try] block of [startWorkflow]. *)
Definition attempt (state : AppState) : M unit :=
  scriptData <- stages state ;;
  images scriptData.

(** Lines 45 to 93. *)
Definition startWorkflow : M unit :=
  state <- getState ;;
  if String.eqb (topic state) "" then ret tt
  else
    updateState start_update ;;
    try_finally
      (try_catch
         (attempt state)
         (fun error =>
            console_error "Workflow failed" error ;;
            alert failureNotice))
      (updateState (processing_update false)).

(** Lines 115 to 130.  An exception outside the [try] (no paragraph at
    [index], [paragraphs] not iterable) rejects the promise of the handler.
    The paragraph objects are shared with the state, as in [image_turn]. *)
Definition retryImage (index : nat) : M unit :=
  state <- getState ;;
  match script state with
  | None => ret tt
  | Some script =>
      if negb (truthy script) then ret tt
      else
        paragraphs <- lift (get_prop script "paragraphs") ;;
        newParagraphs <- lift (spread_array paragraphs) ;;
        generating <- lift (set_at newParagraphs index "isGenerating" (VBool true)) ;;
        updateState (paragraphs_update script generating) ;;
        attempted <-
          try_catch
            (prompt <- lift (get_prop (element generating index) "imagePrompt") ;;
             url <- generateImage prompt ;;
             lift (set_at generating index "imageUrl" (VStr url)))
            (fun err =>
               console_error "" err ;;
               ret generating) ;;
        settled <- lift (set_at attempted index "isGenerating" (VBool false)) ;;
        updateState (paragraphs_update script settled) ;;
        ret tt
  end.

End Client.

(** ** The rest of [App.tsx]: navigation, downloads and the views *)

(** [a === b] on steps and on lengths. *)
Definition AppStep_eqb (a b : AppStep) : bool :=
  match a, b with
  | INPUT, INPUT | RESEARCH, RESEARCH | SCRIPT, SCRIPT
  | IMAGES, IMAGES | METADATA, METADATA | THUMBNAIL, THUMBNAIL => true
  | _, _ => false
  end.

Definition ScriptLength_eqb (a b : ScriptLength) : bool :=
  match a, b with
  | SHORT, SHORT | MEDIUM, MEDIUM | LONG, LONG => true
  | _, _ => false
  end.

(** [{ length: ScriptLength[len] }], published by a length button. *)
Definition length_update (l : ScriptLength) : Partial :=
  {| new_currentStep := None; new_topic := None; new_length := Some l;
     new_research := None; new_script := None; new_metadata := None;
     new_thumbnail := None; new_isProcessing := None |}.

(** *** The step navigation (lines 132 to 157) *)

Definition stepNavItems : list (AppStep * string) :=
  [(INPUT, "입력"); (RESEARCH, "조사보고서"); (SCRIPT, "대본/TTS");
   (IMAGES, "이미지 구성"); (METADATA, "메타데이터"); (THUMBNAIL, "썸네일")].

(** A button of the navigation: where its click leads, its label, whether
    it is disabled and whether it is drawn as the current step. *)
Record NavButton : Type := {
  leads_to : AppStep;
  label : string;
  disabled : bool;
  current : bool
}.

Definition renderStepNav (state : AppState) : list NavButton :=
  map (fun step =>
         {| leads_to := fst step;
            label := snd step;
            disabled := isProcessing state
                        && negb (AppStep_eqb (currentStep state) (fst step));
            current := AppStep_eqb (currentStep state) (fst step) |})
      stepNavItems.

(** [onClick={() => updateState({ currentStep: step.id })}] *)
Definition selectStep (id : AppStep) : M unit := updateState (step_update id).

(** *** Downloads (lines 100 to 113) *)

(** What a handler does to the document. *)
Inductive DomEffect : Type :=
| CreateElement (tag : string)
| SetHref (url : Value)
| SetDownload (filename : string)
| AppendChild
| Click
| RemoveChild.

(** [downloadImage(url, filename)]: a link is made, put in the body,
    clicked and taken out again. *)
Definition downloadImage (url : Value) (filename : string) : list DomEffect :=
  [CreateElement "a"; SetHref url; SetDownload filename; AppendChild; Click; RemoveChild].

(** What a handler that works on the document did, and the exception that
    stopped it, if one did. *)
Record Effects : Type := { dom : list DomEffect; thrown : option Exn }.

(** The receiver of [v.forEach(...)], [v.map(...)] or [v.join(...)]: of the
    values here only an array has these methods, and an own property of the
    same name (never callable in parsed data) hides the method. *)
Definition array_receiver (v : Value) (method : string) : Result (list Value) :=
  match v with
  | VArr es props =>
      match lookup method props with
      | Some _ => Throw TypeError
      | None => Ok es
      end
  | _ => Throw TypeError
  end.

(** [`scene_${idx + 1}.png`] *)
Definition sceneFile (idx : nat) : string := "scene_" ++ decimal (idx + 1) ++ ".png".

(** The [forEach] of [downloadAllImages], from index [idx] on. *)
Fixpoint download_each (idx : nat) (ps : list Value) : Effects :=
  match ps with
  | [] => {| dom := []; thrown := None |}
  | p :: rest =>
      match get_prop p "imageUrl" with
      | Throw e => {| dom := []; thrown := Some e |}
      | Ok imageUrl =>
          let later := download_each (S idx) rest in
          {| dom := ((if truthy imageUrl then downloadImage imageUrl (sceneFile idx) else [])
                     ++ dom later)%list;
             thrown := thrown later |}
      end
  end.

(** [state.script?.paragraphs.forEach(...)]: the chain stops at a script
    that is unset or null. *)
Definition downloadAllImages (state : AppState) : Effects :=
  match script state with
  | None | Some VUndef | Some VNull => {| dom := []; thrown := None |}
  | Some script =>
      match get_prop script "paragraphs" with
      | Throw e => {| dom := []; thrown := Some e |}
      | Ok paragraphs =>
          match array_receiver paragraphs "forEach" with
          | Throw e => {| dom := []; thrown := Some e |}
          | Ok ps => download_each 0 ps
          end
      end
  end.

(** *** The view of the current step (lines 159 to 469) *)

(** The element tree of [renderCurrentStep] is kept up to its fixed markup:
    a view holds what the tree takes from the state.  Building the tree
    throws when one of its expressions does. *)

Definition and_then {A B : Type} (r : Result A) (k : A -> Result B) : Result B :=
  match r with
  | Ok a => k a
  | Throw e => Throw e
  end.

(** [a || b] *)
Definition js_or (a b : Value) : Value := if truthy a then a else b.

(** [o?.k] on a field of the state. *)
Definition optional_prop (o : option Value) (k : string) : Result Value :=
  match o with
  | None | Some VUndef | Some VNull => Ok VUndef
  | Some v => get_prop v k
  end.

(** [es.join(sep)]: [null] and [undefined] print as nothing. *)
Fixpoint join_items (sep : string) (es : list Value) (first : bool) : Result string :=
  match es with
  | [] => Ok ""
  | e :: rest =>
      match match e with
            | VUndef | VNull => Ok ""
            | _ => ToString e
            end, join_items sep rest false with
      | Ok s, Ok t => Ok ((if first then "" else sep) ++ s ++ t)
      | Throw x, _ => Throw x
      | _, Throw x => Throw x
      end
  end.

(** [o?.k.join(sep)]: [undefined] when [o] is unset or null. *)
Definition optional_joined (o : option Value) (k sep : string) : Result Value :=
  match o with
  | None | Some VUndef | Some VNull => Ok VUndef
  | Some v =>
      and_then (get_prop v k) (fun list =>
      and_then (array_receiver list "join") (fun es =>
      and_then (join_items sep es true) (fun line => Ok (VStr line))))
  end.

(** [es.map((e, idx) => f e idx)], from index [idx] on. *)
Fixpoint map_from {A : Type} (f : Value -> nat -> Result A) (idx : nat) (es : list Value)
  : Result (list A) :=
  match es with
  | [] => Ok []
  | e :: rest =>
      match f e idx with
      | Throw x => Throw x
      | Ok a =>
          match map_from f (S idx) rest with
          | Ok l => Ok (a :: l)
          | Throw x => Throw x
          end
      end
  end.

(** The input step (lines 161 to 216). *)
Record LengthButton : Type := {
  choice : ScriptLength;
  caption : string;
  chosen : bool
}.

Record InputView : Type := {
  topicField : string;
  lengthButtons : list LengthButton;
  submitDisabled : bool
}.

(** [Object.keys(ScriptLength)], with the caption of each key. *)
Definition lengthChoices : list (ScriptLength * string) :=
  [(SHORT, "단문 (4천자)"); (MEDIUM, "중문 (8천자)"); (LONG, "장문 (1.2만자)")].

Definition renderInput (state : AppState) : InputView :=
  {| topicField := topic state;
     lengthButtons :=
       map (fun len =>
              {| choice := fst len; caption := snd len;
                 chosen := ScriptLength_eqb (length state) (fst len) |})
           lengthChoices;
     submitDisabled := isProcessing state |}.

(** The research step (lines 218 to 248): the report or its placeholder,
    and the list of sources when there are some. *)
Record ResearchView : Type := {
  reportBody : string;
  sourceLinks : option (list Source)
}.

Definition renderResearch (state : AppState) : ResearchView :=
  {| reportBody := or_else (option_map report (research state)) "조사 중입니다...";
     sourceLinks :=
       match research state with
       | Some r => if (0 <? List.length (sources r))%nat then Some (sources r) else None
       | None => None
       end |}.

(** The script step (lines 250 to 283). *)
Record ScriptView : Type := {
  rawBody : Value;
  ttsBody : Value
}.

Definition renderScript (state : AppState) : Result ScriptView :=
  and_then (optional_prop (script state) "rawScript") (fun rawScript =>
  and_then (optional_prop (script state) "ttsScript") (fun ttsScript =>
  Ok {| rawBody := js_or rawScript (VStr "대본 생성 중...");
        ttsBody := js_or ttsScript (VStr "변환 중...") |})).

(** The images step (lines 285 to 339).  A card shows the image of its
    paragraph with the retry and download buttons, or a placeholder. *)
Inductive SceneFace : Type :=
| Picture (src : Value) (alt : string) (retrySpins : bool)
| Waiting (spinner : bool) (notice : string).

Record SceneCard : Type := {
  face : SceneFace;
  badge : string;
  excerpt : Value
}.

Definition renderScene (p : Value) (idx : nat) : Result SceneCard :=
  and_then (get_prop p "imageUrl") (fun imageUrl =>
  and_then (get_prop p "isGenerating") (fun isGenerating =>
  and_then (get_prop p "content") (fun content =>
  Ok {| face :=
          if truthy imageUrl
          then Picture imageUrl ("Scene " ++ decimal (idx + 1)) (truthy isGenerating)
          else Waiting (truthy isGenerating)
                       (if truthy isGenerating then "이미지 생성 중..." else "이미지 준비 중");
        badge := "Scene " ++ decimal (idx + 1);
        excerpt := content |}))).

(** [state.script?.paragraphs.map(...)]: no card at all when the script is
    unset or null. *)
Definition renderImages (state : AppState) : Result (option (list SceneCard)) :=
  match script state with
  | None | Some VUndef | Some VNull => Ok None
  | Some script =>
      and_then (get_prop script "paragraphs") (fun paragraphs =>
      and_then (array_receiver paragraphs "map") (fun ps =>
      and_then (map_from renderScene 0 ps) (fun cards => Ok (Some cards))))
  end.

(** The metadata step (lines 341 to 386). *)
Record MetadataView : Type := {
  descriptionBody : Value;
  summaryBody : Value;
  hashtagLine : Value;
  keywordLine : Value;
  pinnedBody : Value
}.

Definition renderMetadata (state : AppState) : Result MetadataView :=
  and_then (optional_prop (metadata state) "youtubeDescription") (fun youtubeDescription =>
  and_then (optional_prop (metadata state) "summary4Lines") (fun summary4Lines =>
  and_then (optional_joined (metadata state) "hashtags" " ") (fun hashtags =>
  and_then (optional_joined (metadata state) "seoKeywords" ", ") (fun seoKeywords =>
  and_then (optional_prop (metadata state) "pinnedComment") (fun pinnedComment =>
  Ok {| descriptionBody := youtubeDescription;
        summaryBody := summary4Lines;
        hashtagLine := hashtags;
        keywordLine := seoKeywords;
        pinnedBody := pinnedComment |}))))).

(** The thumbnail step (lines 388 to 464): the background image with its
    download button, or the loader; and the two lists of suggestions. *)
Record ThumbnailView : Type := {
  backdrop : option string;
  suggestions1 : option (list Value);
  suggestions2 : option (list Value)
}.

(** [state.thumbnail?.copySuggestions.type1.map(...)] *)
Definition renderSuggestions (state : AppState) (k : string) : Result (option (list Value)) :=
  match thumbnail state with
  | None => Ok None
  | Some t =>
      and_then (get_prop (copySuggestions t) k) (fun list =>
      and_then (array_receiver list "map") (fun es => Ok (Some es)))
  end.

Definition renderThumbnail (state : AppState) : Result ThumbnailView :=
  and_then (renderSuggestions state "type1") (fun type1 =>
  and_then (renderSuggestions state "type2") (fun type2 =>
  Ok {| backdrop :=
          match thumbnail state with
          | Some t =>
              match pureImageUrl t with
              | Some url => if String.eqb url "" then None else Some url
              | None => None
              end
          | None => None
          end;
        suggestions1 := type1;
        suggestions2 := type2 |})).

Inductive View : Type :=
| InputStep (view : InputView)
| ResearchStep (view : ResearchView)
| ScriptStep (view : ScriptView)
| ImagesStep (cards : option (list SceneCard))
| MetadataStep (view : MetadataView)
| ThumbnailStep (view : ThumbnailView).

Definition renderCurrentStep (state : AppState) : Result View :=
  match currentStep state with
  | INPUT => Ok (InputStep (renderInput state))
  | RESEARCH => Ok (ResearchStep (renderResearch state))
  | SCRIPT => and_then (renderScript state) (fun view => Ok (ScriptStep view))
  | IMAGES => and_then (renderImages state) (fun cards => Ok (ImagesStep cards))
  | METADATA => and_then (renderMetadata state) (fun view => Ok (MetadataStep view))
  | THUMBNAIL => and_then (renderThumbnail state) (fun view => Ok (ThumbnailStep view))
  end.

(** ** Sample data: a serializer for response texts, and services *)

Module Sample.

Definition hex (n : nat) : ascii :=
  ascii_of_nat (if (n <? 10)%nat then 48 + n else 87 + n).

Definition escape_char (c : ascii) : string :=
  if (c =? Json.quote)%char then String Json.backslash (String Json.quote EmptyString)
  else if (c =? Json.backslash)%char then String Json.backslash (String Json.backslash EmptyString)
  else if (nat_of_ascii c <? 32)%nat then
    String Json.backslash
      (String "u" (String "0" (String "0"
         (String (hex (nat_of_ascii c / 16)) (String (hex (nat_of_ascii c mod 16)) EmptyString)))))
  else String c EmptyString.

Fixpoint escape (s : string) : string :=
  match s with
  | EmptyString => EmptyString
  | String c rest => escape_char c ++ escape rest
  end.

Definition quoted (s : string) : string :=
  String Json.quote (escape s) ++ String Json.quote EmptyString.

(** The text of a value without white space, as [JSON.stringify] writes it
    ([undefined] entries are left out of objects and print as [null] in
    arrays). *)
Fixpoint stringify (v : Value) : string :=
  match v with
  | VUndef | VNull => "null"
  | VBool true => "true"
  | VBool false => "false"
  | VNum lexeme => lexeme
  | VStr s => quoted s
  | VArr es _ =>
      "[" ++ (fix items (es : list Value) (first : bool) : string :=
                match es with
                | [] => ""
                | e :: rest => (if first then "" else ",") ++ stringify e ++ items rest false
                end) es true ++ "]"
  | VObj fs =>
      "{" ++ (fix members (fs : list (string * Value)) (first : bool) : string :=
                match fs with
                | [] => ""
                | (_, VUndef) :: rest => members rest first
                | (k, x) :: rest =>
                    (if first then "" else ",") ++ quoted k ++ ":" ++ stringify x
                    ++ members rest false
                end) fs true ++ "}"
  end.

Definition paragraph (id : nat) : Value :=
  VObj [("id", VNum (decimal id));
        ("content", VStr ("content " ++ decimal id));
        ("imagePrompt", VStr ("prompt " ++ decimal id))].

(** A script of [n] paragraphs, as the schema of the request describes it. *)
Definition scriptOf (n : nat) : Value :=
  VObj [("rawScript", VStr "raw"); ("ttsScript", VStr "tts");
        ("paragraphs", VArr (map paragraph (seq 1 n)) [])].

Definition metadataValue : Value :=
  VObj [("youtubeDescription", VStr "d"); ("summary4Lines", VStr "s");
        ("hashtags", VArr [VStr "#a"] []); ("seoKeywords", VArr [VStr "k"] []);
        ("pinnedComment", VStr "hello")].

Definition copyValue : Value :=
  VObj [("copySuggestions",
         VObj [("type1", VArr [VStr "a"; VStr "b"; VStr "c"] []);
               ("type2", VArr [VStr "d"; VStr "e"; VStr "f"] [])]);
        ("imagePrompt", VStr "a street in Seoul")].

Definition textResponse (t : string) : Response :=
  {| text := Some t; candidates := None |}.

Definition emptyResponse : Response :=
  {| text := None; candidates := None |}.

Definition groundedResponse : Response :=
  {| text := Some "report";
     candidates :=
       Some [{| content := None;
                groundingMetadata :=
                  Some {| groundingChunks :=
                            Some [{| web := Some {| web_title := Some "News"; web_uri := None |} |};
                                  {| web := None |}] |} |}] |}.

Definition imageResponse (payload : string) : Response :=
  {| text := None;
     candidates :=
       Some [{| content := Some {| parts := Some [{| inlineData := None |};
                                                  {| inlineData := Some {| data := Some payload |} |}] |};
                groundingMetadata := None |}] |}.

(** A service that answers every request as hoped, with scripts of [n]
    paragraphs. *)
Definition helpful (n : nat) : Service :=
  fun _ request =>
    match request with
    | ResearchCall _ => Resolves groundedResponse
    | ScriptCall _ _ => Resolves (textResponse (stringify (scriptOf n)))
    | ImageCall _ => Resolves (imageResponse "AAAA")
    | MetadataCall _ => Resolves (textResponse (stringify metadataValue))
    | ThumbnailCopyCall _ => Resolves (textResponse (stringify copyValue))
    end.

(** The same, except that the [k]-th call of the session is rejected. *)
Definition failing_at (k : nat) (n : nat) : Service :=
  fun count request =>
    if (count =? k)%nat then Rejects "503" else helpful n count request.


(** A service whose every reply carries neither text nor candidates. *)
Definition mute : Service := fun _ _ => Resolves emptyResponse.

(** The first render, once the topic is typed in. *)
Definition world (topic : string) : World :=
  {| app := merge initialState (topic_update topic); clock := 0 |}.

(** A paragraph whose image was generated before. *)
Definition illustrated (id : nat) : Value :=
  VObj [("id", VNum (decimal id));
        ("content", VStr ("content " ++ decimal id));
        ("imagePrompt", VStr ("prompt " ++ decimal id));
        ("isGenerating", VBool false);
        ("imageUrl", VStr "data:image/png;base64,OLD")].

(** The state after a run that went through, with two paragraphs. *)
Definition finished : World :=
  {| app := {| currentStep := IMAGES; topic := "cats"; length := MEDIUM;
               research := Some {| report := "report"; sources := [] |};
               script := Some (VObj [("rawScript", VStr "raw"); ("ttsScript", VStr "tts");
                                     ("paragraphs", VArr [illustrated 1; illustrated 2] [])]);
               metadata := Some metadataValue;
               thumbnail := None;
               isProcessing := false |};
     clock := 7 |}.

(** The same as [helpful], except that the script has a narration and no
    [paragraphs]. *)
Definition without_paragraphs : Service :=
  fun count request =>
    match request with
    | ScriptCall _ _ => Resolves (textResponse (stringify (VObj [("ttsScript", VStr "tts")])))
    | _ => helpful 0 count request
    end.

(** A state on the metadata step whose metadata is the empty object, as a
    metadata response without text leaves it. *)
Definition emptyMetadata : AppState :=
  {| currentStep := METADATA; topic := "cats"; length := MEDIUM;
     research := None; script := None; metadata := Some (VObj []); thumbnail := None;
     isProcessing := false |}.

(** A state on the thumbnail step whose thumbnail was made from a copy
    response without text. *)
Definition emptyThumbnail : AppState :=
  {| currentStep := THUMBNAIL; topic := "cats"; length := MEDIUM;
     research := None; script := None; metadata := None;
     thumbnail := Some {| pureImageUrl := Some ""; mockupImageUrl := None;
                          copySuggestions := VUndef |};
     isProcessing := false |}.

(** A state in which a run is processing on the script step. *)
Definition processing : AppState :=
  {| currentStep := SCRIPT; topic := "cats"; length := MEDIUM;
     research := Some {| report := "report"; sources := [] |};
     script := None; metadata := None; thumbnail := None;
     isProcessing := true |}.

End Sample.

(** ** Vocabulary of the statements *)

(** A successful parse uses up some of its input; twice the number of
    characters it uses is fuel enough for it. *)
Definition fuel_bound {A : Type} (run : nat -> option (A * string)) (s : string)
           (result : A * string) : Prop :=
  String.length (snd result) < String.length s
  /\ forall fuel, 2 * (String.length s - String.length (snd result)) <= fuel ->
                  run fuel = Some result.

(** An image attempt made when [c] calls came before: a prompt that cannot
    be printed fails it before any call; otherwise the reply decides. *)
Definition image_attempt (svc : Service) (c : nat) (prompt : Value) : Result string :=
  match ToString prompt with
  | Throw e => Throw e
  | Ok shown =>
      match svc c (ImageCall shown) with
      | Resolves response => Ok (first_image (content_parts response))
      | Rejects reason => Throw (Rejected reason)
      end
  end.

(** The own property [k] of an object, if it has one. *)
Definition own (v : Value) (k : string) : option Value :=
  match v with
  | VObj fs => lookup k fs
  | VArr _ ps => lookup k ps
  | _ => None
  end.

(** The paragraphs of the script of a state. *)
Definition paragraphs_of (a : AppState) : list Value :=
  match script a with
  | Some sc =>
      match own sc "paragraphs" with
      | Some (VArr ps _) => ps
      | _ => []
      end
  | None => []
  end.

(** The requests made, in order. *)
Fixpoint calls (es : list Event) : list Request :=
  match es with
  | [] => []
  | Called request _ :: rest => request :: calls rest
  | _ :: rest => calls rest
  end.

(** The values of [currentStep] published, in order. *)
Fixpoint steps (es : list Event) : list AppStep :=
  match es with
  | [] => []
  | Published updates :: rest =>
      match new_currentStep updates with
      | Some s => s :: steps rest
      | None => steps rest
      end
  | _ :: rest => steps rest
  end.

(** The position of a step in the declaration of [AppStep], which is also
    the order of the navigation bar. *)
Definition rank (s : AppStep) : nat :=
  match s with
  | INPUT => 0 | RESEARCH => 1 | SCRIPT => 2 | IMAGES => 3 | METADATA => 4 | THUMBNAIL => 5
  end.

(** Each step is strictly further than the one before it. *)
Fixpoint ascending (l : list AppStep) : bool :=
  match l with
  | a :: (b :: _) as rest => (rank a <? rank b)%nat && ascending rest
  | _ => true
  end.

(** What a run shows of its progress: the steps it enters and the kind of
    each request it makes. *)
Inductive Kind : Type :=
| Research | Script | Image | Metadata | ThumbnailCopy.

Definition kind (r : Request) : Kind :=
  match r with
  | ResearchCall _ => Research
  | ScriptCall _ _ => Script
  | ImageCall _ => Image
  | MetadataCall _ => Metadata
  | ThumbnailCopyCall _ => ThumbnailCopy
  end.

Inductive Mark : Type :=
| Enters (s : AppStep)
| Asks (k : Kind).

Fixpoint marks (es : list Event) : list Mark :=
  match es with
  | [] => []
  | Called request _ :: rest => Asks (kind request) :: marks rest
  | Published updates :: rest =>
      match new_currentStep updates with
      | Some s => Enters s :: marks rest
      | None => marks rest
      end
  | _ :: rest => marks rest
  end.

(** The progress of a run that is not cut short, with [k] paragraph images. *)
Definition itinerary (k : nat) : list Mark :=
  [Enters RESEARCH; Asks Research;
   Enters SCRIPT; Asks Script;
   Enters METADATA; Asks Metadata;
   Enters THUMBNAIL; Asks ThumbnailCopy; Asks Image;
   Enters IMAGES] ++ repeat (Asks Image) k.

(** [l] is the beginning of [full]. *)
Definition initial_segment {A : Type} (l full : list A) : Prop :=
  exists rest, full = (l ++ rest)%list.

(** The run was aborted: the failure notice was raised. *)
Definition aborted (es : list Event) : Prop :=
  exists message, In (Alert message) es.

(** The marks of the four awaited stages, after [RESEARCH] is entered. *)
Definition prelude : list Mark :=
  [Asks Research; Enters SCRIPT; Asks Script; Enters METADATA; Asks Metadata;
   Enters THUMBNAIL; Asks ThumbnailCopy; Asks Image].

(** The steps among some marks. *)
Fixpoint entered (ms : list Mark) : list AppStep :=
  match ms with
  | [] => []
  | Enters s :: rest => s :: entered rest
  | Asks _ :: rest => entered rest
  end.

(** Two states that differ at most in their [script]. *)
Definition frame (a b : AppState) : Prop :=
  currentStep a = currentStep b /\ topic a = topic b /\ length a = length b
  /\ research a = research b /\ metadata a = metadata b
  /\ thumbnail a = thumbnail b /\ isProcessing a = isProcessing b.

(** What a stretch of the image loop leaves behind: the state changes in
    its [script] only, nothing but image requests are made, one per tick of
    the clock, no step is entered and no alert is raised. *)
Definition quiet {A : Type} (w : World) (r : Run A) : Prop :=
  frame (app w) (app (final r))
  /\ exists k, clock (final r) = clock w + k
               /\ marks (events r) = repeat (Asks Image) k
               /\ ~ aborted (events r).


(** A thumbnail that has no mock-up image. *)
Definition without_mockup (t : option ThumbnailData) : Prop :=
  match t with
  | Some data => mockupImageUrl data = None
  | None => True
  end.

(** The properties of a paragraph while its image is awaited, and after
    the attempt: the url is stored only when the attempt returned one. *)
Definition generating (fs : Fields) : Fields :=
  assign "isGenerating" (VBool true) fs.

Definition settled (attempt : Result string) (fs : Fields) : Fields :=
  assign "isGenerating" (VBool false)
    match attempt with
    | Ok url => assign "imageUrl" (VStr url) (generating fs)
    | Throw _ => generating fs
    end.

Definition settle_scene (attempt : Result string) (p : Value) : Value :=
  match p with
  | VObj fs => VObj (settled attempt fs)
  | _ => p
  end.

(** The prompt of a paragraph, as a value and as the text of a request. *)
Definition prompt_of (p : Value) : Value := or_undefined (own p "imagePrompt").

Definition request_of (p : Value) : Request :=
  ImageCall match own p "imagePrompt" with Some (VStr s) => s | _ => "" end.

(** A paragraph object whose prompt is a string. *)
Definition scene (p : Value) : Prop :=
  exists fs shown, p = VObj fs /\ lookup "imagePrompt" fs = Some (VStr shown).

(** A paragraph as the script request describes it: it has a prompt and
    carries neither [imageUrl] nor [isGenerating] yet. *)
Definition fresh_scene (p : Value) : Prop :=
  exists fs shown,
    p = VObj fs /\ lookup "imagePrompt" fs = Some (VStr shown)
    /\ lookup "imageUrl" fs = None /\ lookup "isGenerating" fs = None.

(** The paragraphs after the loop went over them, the first attempt being
    made when [c] calls came before. *)
Fixpoint settle_from (svc : Service) (c : nat) (ps : list Value) : list Value :=
  match ps with
  | [] => []
  | p :: rest =>
      settle_scene (image_attempt svc c (prompt_of p)) p :: settle_from svc (S c) rest
  end.

(** The number of requests among some marks. *)
Fixpoint asks (ms : list Mark) : nat :=
  match ms with
  | [] => 0
  | Asks _ :: rest => S (asks rest)
  | Enters _ :: rest => asks rest
  end.

(** The thumbnail of [b] is that of [a], or a new one without mock-up. *)
Definition plain_thumbnail (a b : AppState) : Prop :=
  thumbnail b = thumbnail a
  \/ exists data, thumbnail b = Some data /\ mockupImageUrl data = None.

(** What a stretch of the awaited stages leaves behind when [full] are the
    marks it makes if nothing fails: no alert is raised and no mock-up is
    stored; if it returns, all the marks were made, one call per request; if
    it throws, the marks made are an initial segment of [full]. *)
Definition progress {A : Type} (full : list Mark) (w : World) (r : Run A) : Prop :=
  ~ aborted (events r)
  /\ plain_thumbnail (app w) (app (final r))
  /\ match outcome r with
     | Ok _ => marks (events r) = full /\ clock (final r) = clock w + asks full
     | Throw _ => initial_segment (marks (events r)) full
     end.


(** A stretch that leaves [topic] and [length] alone and whose last step
    entered, if it entered one, is the current step it leaves. *)
Definition steady {A : Type} (w : World) (r : Run A) : Prop :=
  topic (app (final r)) = topic (app w)
  /\ length (app (final r)) = length (app w)
  /\ currentStep (app (final r)) = last (steps (events r)) (currentStep (app w)).

(** The messages alerted, in order. *)
Fixpoint alerts (es : list Event) : list string :=
  match es with
  | [] => []
  | Alert message :: rest => message :: alerts rest
  | _ :: rest => alerts rest
  end.

(** The downloads of the paragraph images [picks], each given by the index
    of its paragraph and its url, one after the other. *)
Definition downloads_of (picks : list (nat * Value)) : list DomEffect :=
  flat_map (fun pick => downloadImage (snd pick) (sceneFile (fst pick))) picks.

(** The images a run generated: for each paragraph in turn, the first
    attempt being made when [c] calls came before and numbered [idx], the
    url its attempt returned, when it returned one that is not empty. *)
Fixpoint generated (svc : Service) (c : nat) (idx : nat) (ps : list Value)
  : list (nat * Value) :=
  match ps with
  | [] => []
  | p :: rest =>
      match image_attempt svc c (prompt_of p) with
      | Ok url => if String.eqb url "" then [] else [(idx, VStr url)]
      | Throw _ => []
      end ++ generated svc (S c) (S idx) rest
  end.

(** The card of a paragraph, numbered [idx], once its attempt is over: the
    image when the attempt returned a url that is not empty, the idle
    placeholder otherwise; nothing spins. *)
Definition settled_card (attempt : Result string) (p : Value) (idx : nat) : SceneCard :=
  {| face :=
       match attempt with
       | Ok url =>
           if String.eqb url "" then Waiting false "이미지 준비 중"
           else Picture (VStr url) ("Scene " ++ decimal (idx + 1)) false
       | Throw _ => Waiting false "이미지 준비 중"
       end;
     badge := "Scene " ++ decimal (idx + 1);
     excerpt := or_undefined (own p "content") |}.

Fixpoint settled_cards (svc : Service) (c : nat) (idx : nat) (ps : list Value)
  : list SceneCard :=
  match ps with
  | [] => []
  | p :: rest =>
      settled_card (image_attempt svc c (prompt_of p)) p idx
      :: settled_cards svc (S c) (S idx) rest
  end.

(** Whether a paragraph is shown as generating. *)
Definition spinning (p : Value) : bool :=
  truthy (or_undefined (own p "isGenerating")).

(** For each script published, in order, which of its paragraphs are shown
    as generating. *)
Fixpoint spinners (es : list Event) : list (list bool) :=
  match es with
  | [] => []
  | Published updates :: rest =>
      match new_script updates with
      | Some sc =>
          map spinning match own sc "paragraphs" with
                       | Some (VArr ps _) => ps
                       | _ => []
                       end
          :: spinners rest
      | None => spinners rest
      end
  | _ :: rest => spinners rest
  end.

(** Of [n] paragraphs, the one at [j] alone. *)
Definition alone (j n : nat) : list bool :=
  (repeat false j ++ true :: repeat false (n - S j))%list.

(** What [todo] turns of the image loop show, from paragraph [j] on: the
    paragraph of the turn alone, then nothing. *)
Fixpoint turns (j todo n : nat) : list (list bool) :=
  match todo with
  | O => []
  | S todo' => alone j n :: repeat false n :: turns (S j) todo' n
  end.

(** The updates published, in order. *)
Fixpoint published (es : list Event) : list Partial :=
  match es with
  | [] => []
  | Published updates :: rest => updates :: published rest
  | _ :: rest => published rest
  end.

(** The state once the updates [us] are applied, in turn, to [a]. *)
Definition replay (a : AppState) (us : list Partial) : AppState :=
  fold_left merge us a.

(** The step in which a request of each kind is made; an image is asked
    for in the thumbnail step and in the images step. *)
Definition stage_of (k : Kind) (s : AppStep) : Prop :=
  match k with
  | Research => s = RESEARCH
  | Script => s = SCRIPT
  | Metadata => s = METADATA
  | ThumbnailCopy => s = THUMBNAIL
  | Image => s = THUMBNAIL \/ s = IMAGES
  end.

(** Every request among the marks [ms] is made in its step, [cur] being the
    current step before them. *)
Fixpoint in_step (cur : AppStep) (ms : list Mark) : Prop :=
  match ms with
  | [] => True
  | Enters s :: rest => in_step s rest
  | Asks k :: rest => stage_of k cur /\ in_step cur rest
  end.

(** A stretch that publishes nothing about [isProcessing]. *)
Definition busy {A : Type} (r : Run A) : Prop :=
  Forall (fun updates => new_isProcessing updates = None) (published (events r)).

(** A stretch whose only changes to the state are the updates it
    publishes. *)
Definition replayed {A : Type} (w : World) (r : Run A) : Prop :=
  app (final r) = replay (app w) (published (events r)).

(** ** Reasoning support *)

Arguments JSON_parse : simpl never.
Arguments ToString : simpl never.
Arguments substring_method : simpl never.
Arguments targetChars_of : simpl never.
Arguments decimal : simpl never.

(** Case analysis on the innermost scrutinee that blocks evaluation. *)
Ltac case_step :=
  match goal with
  | |- context [match ?x with _ => _ end] =>
      lazymatch x with
      | context [match _ with _ => _ end] => fail
      | _ => destruct x eqn:?
      end
  end.

Ltac run := repeat (cbn; try case_step).

Ltac unfold_monad :=
  unfold bind, try_catch, try_finally, lift, ret, throw, updateState, getState,
    console_error, alert, emit in *.

Lemma outcome_after {B : Type} (es : list Event) (r : Run B) :
  outcome (after es r) = outcome r.
Proof. now destruct r. Qed.

Lemma final_after {B : Type} (es : list Event) (r : Run B) :
  final (after es r) = final r.
Proof. now destruct r. Qed.

Lemma events_after {B : Type} (es : list Event) (r : Run B) :
  events (after es r) = (es ++ events r)%list.
Proof. now destruct r. Qed.

Lemma lookup_assign_same (k : string) (v : Value) (fs : Fields) :
  lookup k (assign k v fs) = Some v.
Proof.
  induction fs as [|[k' v'] fs IH]; cbn.
  - now rewrite String.eqb_refl.
  - destruct (String.eqb k k') eqn:E; cbn; rewrite ?String.eqb_refl, ?E; auto.
Qed.

Lemma lookup_assign_other (k k' : string) (v : Value) (fs : Fields) :
  k <> k' -> lookup k (assign k' v fs) = lookup k fs.
Proof.
  intros Hne. induction fs as [|[k0 v0] fs IH]; cbn.
  - destruct (String.eqb k k') eqn:E; auto.
    apply String.eqb_eq in E. contradiction.
  - destruct (String.eqb k' k0) eqn:E0; cbn.
    + apply String.eqb_eq in E0. subst k0.
      destruct (String.eqb k k') eqn:E; auto.
      apply String.eqb_eq in E. contradiction.
    + now rewrite IH.
Qed.

(** ** The fuel of the parser *)

Module JsonFuel.
Import Json.

Lemma skip_ws_length (s : string) : String.length (skip_ws s) <= String.length s.
Proof.
  induction s as [|c s IH]; cbn; [lia|].
  destruct (is_ws c); cbn; lia.
Qed.

Lemma digits_length (s d r : string) :
  digits s = (d, r) -> String.length s = String.length d + String.length r.
Proof.
  revert d r. induction s as [|c s IH]; cbn; intros d r H.
  - inversion H; subst. reflexivity.
  - destruct (is_digit c).
    + destruct (digits s) as [d' r'] eqn:E. inversion H; subst. cbn.
      now rewrite (IH d' r eq_refl).
    + inversion H; subst. reflexivity.
Qed.

Lemma scan_string_bounded (n : nat) :
  forall s str r,
    String.length s <= n ->
    scan_string s = Some (str, r) -> String.length r < String.length s.
Proof.
  induction n as [|n IH]; intros s str r Hn; destruct s as [|c s];
    cbn [scan_string String.length] in *; try discriminate; try lia.
  destruct (c =? quote)%char.
  { intros H. inversion H; subst. lia. }
  destruct (c =? backslash)%char.
  { destruct s as [|e s1]; [discriminate|].
    destruct (simple_escape e).
    - destruct (scan_string s1) as [[str' r']|] eqn:E; cbn; [|discriminate].
      intros H. inversion H; subst.
      apply IH in E; cbn in *; lia.
    - destruct (e =? "u")%char; [|discriminate].
      destruct s1 as [|h1 [|h2 [|h3 [|h4 s2]]]]; try discriminate.
      destruct (hex_digit h1), (hex_digit h2), (hex_digit h3), (hex_digit h4);
        try discriminate.
      destruct (scan_string s2) as [[str' r']|] eqn:E; cbn; [|discriminate].
      intros H. inversion H; subst.
      apply IH in E; cbn in *; lia. }
  destruct (nat_of_ascii c <? 32)%nat; [discriminate|].
  destruct (scan_string s) as [[str' r']|] eqn:E; cbn; [|discriminate].
  intros H. inversion H; subst.
  apply IH in E; cbn in *; lia.
Qed.

Lemma scan_string_length (s str r : string) :
  scan_string s = Some (str, r) -> String.length r < String.length s.
Proof. apply (scan_string_bounded (String.length s)). lia. Qed.

Lemma length_substring (n m : nat) (s : string) :
  n + m <= String.length s -> String.length (substring n m s) = m.
Proof.
  revert n m. induction s as [|c s IH]; intros [|n] [|m] H; cbn in *; try lia.
  - now rewrite IH by lia.
  - now rewrite IH by lia.
  - now rewrite IH by lia.
Qed.

Lemma prefix_length (p s : string) :
  String.prefix p s = true -> String.length p <= String.length s.
Proof.
  revert s. induction p as [|a p IH]; intros s H; cbn; [lia|].
  destruct s as [|c s]; cbn in *; [discriminate|].
  destruct (Ascii.ascii_dec a c); [|discriminate].
  apply IH in H. lia.
Qed.

Lemma strip_prefix_length (p s r : string) :
  strip_prefix p s = Some r -> String.length s = String.length p + String.length r.
Proof.
  unfold strip_prefix.
  destruct (String.prefix p s) eqn:E; [|discriminate].
  intros H. inversion H; subst. clear H.
  apply prefix_length in E.
  rewrite length_substring; lia.
Qed.

Lemma scan_sign_length (s sign r : string) :
  scan_sign s = (sign, r) -> String.length r <= String.length s.
Proof.
  unfold scan_sign. destruct s as [|c s].
  - intros H. inversion H; subst. lia.
  - destruct (c =? "-")%char; intros H; inversion H; subst; cbn; lia.
Qed.

Lemma scan_int_length (s i r : string) :
  scan_int s = Some (i, r) -> String.length r < String.length s.
Proof.
  unfold scan_int. destruct s as [|c s]; [discriminate|].
  destruct (c =? "0")%char.
  { intros H. inversion H; subst. cbn. lia. }
  destruct (is_digit c) eqn:Ed; [|discriminate].
  intros H. inversion H as [E]. cbn [digits] in E. rewrite Ed in E.
  destruct (digits s) as [d r'] eqn:E'. inversion E; subst.
  apply digits_length in E'. cbn. lia.
Qed.

Lemma scan_frac_length (s f r : string) :
  scan_frac s = Some (f, r) -> String.length r <= String.length s.
Proof.
  unfold scan_frac. destruct s as [|c s].
  { intros H. inversion H; subst. lia. }
  destruct (c =? ".")%char.
  - destruct (digits s) as [d r'] eqn:E. apply digits_length in E.
    destruct d; [discriminate|].
    intros H. inversion H; subst. cbn in *. lia.
  - intros H. inversion H; subst. lia.
Qed.

Lemma scan_exp_length (s e r : string) :
  scan_exp s = Some (e, r) -> String.length r <= String.length s.
Proof.
  unfold scan_exp. destruct s as [|c s].
  { intros H. inversion H; subst. lia. }
  destruct ((c =? "e")%char || (c =? "E")%char).
  - destruct s as [|c' s'].
    + cbn. discriminate.
    + destruct ((c' =? "+")%char || (c' =? "-")%char).
      * destruct (digits s') as [d r'] eqn:E. apply digits_length in E.
        destruct d; [discriminate|].
        intros H. inversion H; subst. cbn in *. lia.
      * destruct (digits (String c' s')) as [d r'] eqn:E. apply digits_length in E.
        destruct d; [discriminate|].
        intros H. inversion H; subst. cbn in *. lia.
  - intros H. inversion H; subst. lia.
Qed.

Lemma scan_number_length (s lexeme r : string) :
  scan_number s = Some (lexeme, r) -> String.length r < String.length s.
Proof.
  unfold scan_number.
  destruct (scan_sign s) as [sign s1] eqn:E1. apply scan_sign_length in E1.
  destruct (scan_int s1) as [[i s2]|] eqn:E2; [|discriminate].
  apply scan_int_length in E2.
  destruct (scan_frac s2) as [[f s3]|] eqn:E3; [|discriminate].
  apply scan_frac_length in E3.
  destruct (scan_exp s3) as [[e s4]|] eqn:E4; [|discriminate].
  apply scan_exp_length in E4.
  intros H. inversion H; subst. lia.
Qed.


Ltac refuel :=
  let f := fresh "f" in
  let Hf := fresh "Hf" in
  intros f Hf; destruct f as [|f];
  [ cbn [String.length snd] in *; lia
  | cbn [parse_value parse_elements parse_members] ].

Ltac literal E :=
  let H := fresh "H" in
  let L := fresh "L" in
  pose proof E as L; apply strip_prefix_length in L;
  intros H; inversion H; subst; clear H;
  split; [cbn [String.length snd] in *; lia|]; refuel.

Lemma parsers_fuel (fuel : nat) :
  (forall s result,
      parse_value fuel s = Some result ->
      fuel_bound (fun f => parse_value f s) s result)
  /\ (forall s acc result,
        parse_elements fuel s acc = Some result ->
        fuel_bound (fun f => parse_elements f s acc) s result)
  /\ (forall s acc result,
        parse_members fuel s acc = Some result ->
        fuel_bound (fun f => parse_members f s acc) s result).
Proof.
  unfold fuel_bound.
  induction fuel as [|fuel (IHv & IHe & IHm)]; [repeat split; discriminate|].
  split; [|split].
  - intros s [v r]. cbn [parse_value]. destruct s as [|c s]; [discriminate|].
    destruct (c =? "{")%char eqn:E1.
    { pose proof (skip_ws_length s) as Hws.
      destruct (skip_ws s) as [|c' rest'] eqn:Es; [discriminate|].
      destruct (c' =? "}")%char eqn:E2.
      - intros H; inversion H; subst; clear H.
        split; [cbn [String.length snd] in *; lia|].
        refuel. now rewrite E1, Es, E2.
      - intros H. apply IHm in H. destruct H as [Hl Hre].
        split; [cbn [String.length snd] in *; lia|].
        refuel. rewrite E1, Es, E2. apply Hre.
        cbn [String.length snd] in *. lia. }
    destruct (c =? "[")%char eqn:E2.
    { pose proof (skip_ws_length s) as Hws.
      destruct (skip_ws s) as [|c' rest'] eqn:Es; [discriminate|].
      destruct (c' =? "]")%char eqn:E3.
      - intros H; inversion H; subst; clear H.
        split; [cbn [String.length snd] in *; lia|].
        refuel. now rewrite E1, E2, Es, E3.
      - intros H. apply IHe in H. destruct H as [Hl Hre].
        split; [cbn [String.length snd] in *; lia|].
        refuel. rewrite E1, E2, Es, E3. apply Hre.
        cbn [String.length snd] in *. lia. }
    destruct (c =? quote)%char eqn:E3.
    { destruct (scan_string s) as [[str r0]|] eqn:Es; [|discriminate].
      pose proof (scan_string_length _ _ _ Es).
      intros H'; inversion H'; subst; clear H'.
      split; [cbn [String.length snd] in *; lia|].
      refuel. now rewrite E1, E2, E3, Es. }
    destruct (c =? "t")%char eqn:E4.
    { destruct (strip_prefix "true" (String c s)) as [r0|] eqn:Es; [|discriminate].
      cbn [option_map]. literal Es. now rewrite E1, E2, E3, E4, Es. }
    destruct (c =? "f")%char eqn:E5.
    { destruct (strip_prefix "false" (String c s)) as [r0|] eqn:Es; [|discriminate].
      cbn [option_map]. literal Es. now rewrite E1, E2, E3, E4, E5, Es. }
    destruct (c =? "n")%char eqn:E6.
    { destruct (strip_prefix "null" (String c s)) as [r0|] eqn:Es; [|discriminate].
      cbn [option_map]. literal Es. now rewrite E1, E2, E3, E4, E5, E6, Es. }
    destruct (scan_number (String c s)) as [[lexeme r0]|] eqn:Es; [|discriminate].
    pose proof (scan_number_length _ _ _ Es).
    intros H'; inversion H'; subst; clear H'.
    split; [cbn [String.length snd] in *; lia|].
    refuel. now rewrite E1, E2, E3, E4, E5, E6, Es.
  - intros s acc [v r]. cbn [parse_elements].
    destruct (parse_value fuel s) as [[x r0]|] eqn:Ev; [|discriminate].
    apply IHv in Ev. destruct Ev as [Hl Hre]. cbn [snd] in *.
    pose proof (skip_ws_length r0) as Hws.
    destruct (skip_ws r0) as [|c rest] eqn:Es; [discriminate|].
    destruct (c =? ",")%char eqn:E1.
    { pose proof (skip_ws_length rest) as Hws'.
      intros H. apply IHe in H. destruct H as [Hl' Hre'].
      split; [cbn [String.length snd] in *; lia|].
      refuel. rewrite Hre by (cbn [String.length snd] in *; lia).
      rewrite Es, E1. apply Hre'. cbn [String.length snd] in *. lia. }
    destruct (c =? "]")%char eqn:E2; [|discriminate].
    intros H; inversion H; subst; clear H.
    split; [cbn [String.length snd] in *; lia|].
    refuel. rewrite Hre by (cbn [String.length snd] in *; lia).
    now rewrite Es, E1, E2.
  - intros s acc [v r]. cbn [parse_members].
    destruct s as [|q s]; [discriminate|].
    destruct (q =? quote)%char eqn:E1; [|discriminate].
    destruct (scan_string s) as [[key r0]|] eqn:Ek; [|discriminate].
    pose proof (scan_string_length _ _ _ Ek) as Hk.
    pose proof (skip_ws_length r0) as Hws.
    destruct (skip_ws r0) as [|colon r1] eqn:Es; [discriminate|].
    destruct (colon =? ":")%char eqn:E2; [|discriminate].
    pose proof (skip_ws_length r1) as Hws1.
    destruct (parse_value fuel (skip_ws r1)) as [[x r2]|] eqn:Ev; [|discriminate].
    apply IHv in Ev. destruct Ev as [Hl Hre]. cbn [snd] in *.
    pose proof (skip_ws_length r2) as Hws2.
    destruct (skip_ws r2) as [|c r3] eqn:Es2; [discriminate|].
    destruct (c =? ",")%char eqn:E3.
    { pose proof (skip_ws_length r3) as Hws3.
      intros H. apply IHm in H. destruct H as [Hl' Hre'].
      split; [cbn [String.length snd] in *; lia|].
      refuel. rewrite E1, Ek, Es, E2.
      rewrite Hre by (cbn [String.length snd] in *; lia).
      rewrite Es2, E3. apply Hre'. cbn [String.length snd] in *. lia. }
    destruct (c =? "}")%char eqn:E4; [|discriminate].
    intros H; inversion H; subst; clear H.
    split; [cbn [String.length snd] in *; lia|].
    refuel. rewrite E1, Ek, Es, E2.
    rewrite Hre by (cbn [String.length snd] in *; lia).
    now rewrite Es2, E3, E4.
Qed.

(** [parse] never rejects a text for lack of fuel: a value that some amount
    of fuel reads is read with the fuel [parse] gives. *)
Lemma parse_fuel_suffices (text : string) (fuel : nat) (result : Value * string) :
  parse_value fuel (skip_ws text) = Some result ->
  parse_value (2 * String.length text + 2) (skip_ws text) = Some result.
Proof.
  intros H. apply (parsers_fuel fuel) in H. destruct H as [Hl Hre].
  apply Hre. pose proof (skip_ws_length text). lia.
Qed.

End JsonFuel.

(** ** The generation client *)

Section ClientFacts.

Variable svc : Service.

(** What [performResearch] gives is decided by the reply alone. *)
Lemma performResearch_run (topic : string) (w : World) :
  performResearch svc topic w =
  let reply := svc (clock w) (ResearchCall topic) in
  {| outcome :=
       match reply with
       | Resolves response =>
           Ok {| report := or_else (text response) "";
                 sources := match grounding_chunks response with
                            | Some chunks => map source_of_chunk chunks
                            | None => []
                            end |}
       | Rejects reason => Throw (Rejected reason)
       end;
     final := {| app := app w; clock := S (clock w) |};
     events := [Called (ResearchCall topic) reply] |}.
Proof.
  unfold performResearch, bind, generateContent; cbn.
  destruct (svc (clock w) (ResearchCall topic)); reflexivity.
Qed.

(** What [generateScript] gives: the parsed text, whatever it holds. *)
Lemma generateScript_run (research : string) (length : ScriptLength) (w : World) :
  generateScript svc research length w =
  let request := ScriptCall research (targetChars_of length) in
  let reply := svc (clock w) request in
  {| outcome :=
       match reply with
       | Resolves response => JSON_parse (or_else (text response) "{}")
       | Rejects reason => Throw (Rejected reason)
       end;
     final := {| app := app w; clock := S (clock w) |};
     events := [Called request reply] |}.
Proof.
  unfold generateScript, bind, generateContent; cbn.
  destruct (svc (clock w) _); cbn; [reflexivity|].
  destruct (JSON_parse _); reflexivity.
Qed.

Lemma generateImage_run (prompt : Value) (w : World) :
  generateImage svc prompt w =
  match ToString prompt with
  | Throw e => {| outcome := Throw e; final := w; events := [] |}
  | Ok shown =>
      {| outcome := image_attempt svc (clock w) prompt;
         final := {| app := app w; clock := S (clock w) |};
         events := [Called (ImageCall shown) (svc (clock w) (ImageCall shown))] |}
  end.
Proof.
  unfold generateImage, image_attempt, generateContent. unfold_monad.
  destruct (ToString prompt) as [shown|e]; cbn; [|reflexivity].
  destruct (svc (clock w) (ImageCall shown)); reflexivity.
Qed.

End ClientFacts.

Lemma or_else_missing (a : option string) (b : string) :
  a = None \/ a = Some "" -> or_else a b = b.
Proof. intros [-> | ->]; reflexivity. Qed.




(** C7 (the claim as stated fails): a script response without text does not
    make [generateScript] fail; the operation returns the empty object, which
    is not of the shape the request asks for. *)
Lemma script_without_text_fabricates_empty_object :
  Sample.mute 0 (ScriptCall "report" (targetChars_of MEDIUM)) = Resolves Sample.emptyResponse
  /\ text Sample.emptyResponse = None
  /\ outcome (generateScript Sample.mute "report" MEDIUM (Sample.world "cats")) = Ok (VObj [])
  /\ conforms scriptSchema (VObj []) = false.
Proof. repeat split. Qed.

(** C7 (amended): [generateScript] fails with a [SyntaxError] exactly when
    the call resolves with a non-empty text that is not valid JSON.  Whatever
    value the text denotes is returned as it is, without any check of its
    shape, and a missing or empty text yields the empty object.  A rejected
    call propagates its rejection. *)
Theorem generateScript_returns_whatever_parses :
  forall (svc : Service) (research : string) (length : ScriptLength) (w : World),
    let reply := svc (clock w) (ScriptCall research (targetChars_of length)) in
    let result := outcome (generateScript svc research length w) in
    (result = Throw SyntaxError <->
     exists response t,
       reply = Resolves response /\ text response = Some t /\ t <> ""
       /\ Json.parse t = None)
    /\ (forall response v,
          reply = Resolves response ->
          Json.parse (or_else (text response) "{}") = Some v ->
          result = Ok v)
    /\ (forall response,
          reply = Resolves response ->
          text response = None \/ text response = Some "" ->
          result = Ok (VObj []))
    /\ (forall reason, reply = Rejects reason -> result = Throw (Rejected reason)).
Proof.
  intros svc research length w reply result. subst result.
  rewrite generateScript_run. cbn. fold reply.
  split; [split | split; [| split]].
  - destruct reply as [reason | response]; [discriminate|].
    unfold JSON_parse. intros H.
    destruct (text response) as [t|] eqn:Ht; cbn in H.
    + destruct (String.eqb t "") eqn:E; [discriminate H|].
      exists response, t. repeat split; auto.
      * intros ->. discriminate E.
      * destruct (Json.parse t); [discriminate H | reflexivity].
    + discriminate H.
  - intros (response & t & -> & Ht & Hne & Hp).
    unfold JSON_parse. rewrite Ht. cbn.
    destruct (String.eqb t "") eqn:E.
    + apply String.eqb_eq in E. contradiction.
    + now rewrite Hp.
  - intros response v -> Hp. unfold JSON_parse. now rewrite Hp.
  - intros response -> Ht. rewrite (or_else_missing _ _ Ht). reflexivity.
  - intros reason ->. reflexivity.
Qed.

Lemma generateScript_returns_whatever_parses_witness :
  outcome (generateScript (Sample.helpful 2) "report" MEDIUM (Sample.world "cats"))
  = Ok (Sample.scriptOf 2)
  /\ outcome (generateScript Sample.mute "report" MEDIUM (Sample.world "cats"))
     = Ok (VObj [])
  /\ outcome (generateScript (Sample.failing_at 0 2) "report" MEDIUM (Sample.world "cats"))
     = Throw (Rejected "503").
Proof.
  pose proof (generateScript_returns_whatever_parses
                (Sample.helpful 2) "report" MEDIUM (Sample.world "cats")) as (_ & H1 & _).
  pose proof (generateScript_returns_whatever_parses
                Sample.mute "report" MEDIUM (Sample.world "cats")) as (_ & _ & H2 & _).
  pose proof (generateScript_returns_whatever_parses
                (Sample.failing_at 0 2) "report" MEDIUM (Sample.world "cats")) as (_ & _ & _ & H3).
  split; [| split].
  - apply (H1 (Sample.textResponse (Sample.stringify (Sample.scriptOf 2)))); reflexivity.
  - apply (H2 Sample.emptyResponse); [reflexivity | left; reflexivity].
  - apply (H3 "503"); reflexivity.
Defined.

(** ** Arrays of paragraphs *)

Lemma element_store (a : list Value) (i : nat) (x : Value) :
  i < List.length a -> element (store a i x) i = x.
Proof.
  unfold element. revert i.
  induction a as [|y a IH]; intros [|i] H; cbn in *; try lia; auto.
  apply IH. lia.
Qed.

Lemma element_store_other (a : list Value) (i j : nat) (x : Value) :
  i <> j -> element (store a i x) j = element a j.
Proof.
  unfold element. revert i j.
  induction a as [|y a IH]; intros [|i] [|j] H; cbn in *; try congruence; auto.
Qed.

Lemma store_store (a : list Value) (i : nat) (x y : Value) :
  store (store a i x) i y = store a i y.
Proof.
  revert i. induction a as [|z a IH]; intros [|i]; cbn; auto.
  now rewrite IH.
Qed.

Lemma length_store (a : list Value) (i : nat) (x : Value) :
  List.length (store a i x) = List.length a.
Proof.
  revert i. induction a as [|z a IH]; intros [|i]; cbn; auto.
Qed.

Lemma element_middle (done rest : list Value) (p : Value) :
  element (done ++ p :: rest) (List.length done) = p.
Proof. unfold element. induction done; cbn; auto. Qed.

Lemma store_middle (done rest : list Value) (p x : Value) :
  store (done ++ p :: rest) (List.length done) x = (done ++ x :: rest)%list.
Proof. induction done as [|d done IH]; cbn; [reflexivity|]. now rewrite IH. Qed.

Lemma lookup_settled_flag (attempt : Result string) (fs : Fields) :
  lookup "isGenerating" (settled attempt fs) = Some (VBool false).
Proof. apply lookup_assign_same. Qed.

Lemma lookup_settled_url (attempt : Result string) (fs : Fields) :
  lookup "imageUrl" (settled attempt fs)
  = match attempt with
    | Ok url => Some (VStr url)
    | Throw _ => lookup "imageUrl" fs
    end.
Proof.
  unfold settled, generating.
  rewrite lookup_assign_other by discriminate.
  destruct attempt.
  - apply lookup_assign_same.
  - now rewrite lookup_assign_other by discriminate.
Qed.

Lemma lookup_settled_other (attempt : Result string) (fs : Fields) (k : string) :
  k <> "imageUrl" -> k <> "isGenerating" ->
  lookup k (settled attempt fs) = lookup k fs.
Proof.
  intros H1 H2. unfold settled, generating.
  rewrite lookup_assign_other by assumption.
  destruct attempt; now rewrite ?lookup_assign_other by assumption.
Qed.

Arguments element : simpl never.
Arguments store : simpl never.
Arguments stages : simpl never.
Arguments images : simpl never.
Arguments attempt : simpl never.
Arguments image_turn : simpl never.

(** ** Events *)

Lemma marks_app (es es' : list Event) :
  marks (es ++ es')%list = (marks es ++ marks es')%list.
Proof.
  induction es as [|e es IH]; cbn; [reflexivity|].
  destruct e; cbn; rewrite ?IH; try reflexivity.
  destruct (new_currentStep updates); cbn; now rewrite ?IH.
Qed.

Lemma steps_marks (es : list Event) : steps es = entered (marks es).
Proof.
  induction es as [|e es IH]; cbn; [reflexivity|].
  destruct e; cbn; rewrite ?IH; try reflexivity.
  destruct (new_currentStep updates); cbn; now rewrite ?IH.
Qed.

Lemma entered_app (ms ms' : list Mark) :
  entered (ms ++ ms')%list = (entered ms ++ entered ms')%list.
Proof.
  induction ms as [|m ms IH]; cbn; [reflexivity|].
  destruct m; cbn; now rewrite IH.
Qed.

Lemma entered_asks (k : nat) : entered (repeat (Asks Image) k) = [].
Proof. induction k; cbn; auto. Qed.

Lemma aborted_app (es es' : list Event) :
  aborted (es ++ es')%list <-> aborted es \/ aborted es'.
Proof.
  unfold aborted. split.
  - intros [m H]. apply in_app_or in H. destruct H; eauto.
  - intros [[m H] | [m H]]; exists m; apply in_or_app; auto.
Qed.

Lemma initial_segment_map {A B : Type} (f : list A -> list B) (l full : list A) :
  (forall x y, f (x ++ y)%list = (f x ++ f y)%list) ->
  initial_segment l full -> initial_segment (f l) (f full).
Proof. intros Hf [rest ->]. exists (f rest). apply Hf. Qed.

(** ** The image loop *)

Lemma frame_refl (a : AppState) : frame a a.
Proof. repeat split. Qed.

Lemma frame_trans (a b c : AppState) : frame a b -> frame b c -> frame a c.
Proof.
  unfold frame. intros (?&?&?&?&?&?&?) (?&?&?&?&?&?&?).
  repeat split; congruence.
Qed.

Lemma quiet_ret {A : Type} (a : A) (w : World) : quiet w (ret a w).
Proof.
  split; [apply frame_refl|]. exists 0. rewrite Nat.add_0_r.
  repeat split. intros [m []].
Qed.

Lemma quiet_bind {A B : Type} (m : M A) (k : A -> M B) (w : World) :
  quiet w (m w) ->
  (forall a, quiet (final (m w)) (k a (final (m w)))) ->
  quiet w (bind m k w).
Proof.
  intros (Hf & n & Hc & Hm & Ha) Hk. unfold bind, quiet.
  destruct (m w) as [[a|e] w1 es]; cbn in *.
  - destruct (Hk a) as (Hf' & n' & Hc' & Hm' & Ha').
    rewrite final_after, events_after.
    split; [eapply frame_trans; eauto|].
    exists (n + n'). repeat split.
    + lia.
    + now rewrite marks_app, Hm, Hm', repeat_app.
    + rewrite aborted_app. tauto.
  - split; [assumption|]. exists n. auto.
Qed.

Ltac no_alert :=
  let m := fresh "m" in
  let Hm := fresh "Hm" in
  intros [m Hm]; cbn in Hm; intuition discriminate.

Section ImageLoop.

Variable svc : Service.

Ltac settle_turn :=
  cbn; split;
  [ repeat split
  | first [ solve [exists 0; rewrite Nat.add_0_r; repeat split; no_alert]
          | solve [exists 1; rewrite Nat.add_1_r; repeat split; no_alert] ] ].

Lemma image_turn_quiet (scriptData : Value) (i : nat) (ps : list Value) (w : World) :
  quiet w (image_turn svc scriptData i ps w).
Proof.
  unfold quiet, image_turn, set_at, generateImage, generateContent. unfold_monad.
  run; settle_turn.
Qed.

Lemma image_loop_quiet (scriptData : Value) (todo : nat) :
  forall (i : nat) (ps : list Value) (w : World),
    quiet w (image_loop svc scriptData todo i ps w).
Proof.
  induction todo as [|todo IH]; intros i ps w; cbn [image_loop].
  - apply quiet_ret.
  - apply quiet_bind; [apply image_turn_quiet|]. intros a. apply IH.
Qed.

(** The image stage enters [IMAGES] and then asks for images only; apart
    from [currentStep] and [script] it leaves the state as it found it. *)
Lemma images_run (scriptData : Value) (w : World) :
  let r := images svc scriptData w in
  (exists k, marks (events r) = Enters IMAGES :: repeat (Asks Image) k)
  /\ ~ aborted (events r)
  /\ research (app (final r)) = research (app w)
  /\ metadata (app (final r)) = metadata (app w)
  /\ thumbnail (app (final r)) = thumbnail (app w)
  /\ isProcessing (app (final r)) = isProcessing (app w).
Proof.
  unfold images. unfold_monad. cbn.
  destruct (get_prop scriptData "paragraphs") as [paragraphs|e]; cbn.
  2:{ split; [exists 0; reflexivity|]. repeat split. no_alert. }
  destruct (spread_array paragraphs) as [ps|e]; cbn.
  2:{ split; [exists 0; reflexivity|]. repeat split. no_alert. }
  match goal with
  | |- context [image_loop svc scriptData ?n ?i ?l ?w0] =>
      destruct (image_loop_quiet scriptData n i l w0) as (Hf & k & Hc & Hm & Ha);
      destruct Hf as (_ & _ & _ & Hr & Hmd & Ht & Hp);
      cbn in Hr, Hmd, Ht, Hp;
      destruct (image_loop svc scriptData n i l w0) as [[a|e] w1 es]; cbn in *
  end.
  - split; [exists k; now rewrite app_nil_r, Hm|].
    repeat split; auto.
    intros [m [Hm'|Hm']]; [discriminate|].
    apply Ha. exists m. now rewrite app_nil_r in Hm'.
  - split; [exists k; now rewrite Hm|].
    repeat split; auto.
    intros [m [Hm'|Hm']]; [discriminate|].
    apply Ha. now exists m.
Qed.

End ImageLoop.

Arguments performResearch : simpl never.
Arguments generateScript : simpl never.
Arguments generateMetadata : simpl never.
Arguments generateThumbnailContent : simpl never.
Arguments generateImage : simpl never.

(** ** The awaited stages *)

Lemma asks_app (ms ms' : list Mark) : asks (ms ++ ms')%list = asks ms + asks ms'.
Proof.
  induction ms as [|m ms IH]; cbn; [reflexivity|].
  destruct m; cbn; now rewrite IH.
Qed.

Lemma plain_thumbnail_trans (a b c : AppState) :
  plain_thumbnail a b -> plain_thumbnail b c -> plain_thumbnail a c.
Proof.
  unfold plain_thumbnail. intros Hab [Hbc | Hbc]; [|right; exact Hbc].
  rewrite Hbc. exact Hab.
Qed.

Lemma progress_bind {A B : Type} (f1 f2 : list Mark) (m : M A) (k : A -> M B) (w : World) :
  progress f1 w (m w) ->
  (forall a, outcome (m w) = Ok a -> progress f2 (final (m w)) (k a (final (m w)))) ->
  progress (f1 ++ f2) w (bind m k w).
Proof.
  unfold progress, bind. intros (Ha & Ht & Hm) Hk.
  destruct (m w) as [[a|e] w1 es]; cbn in *.
  - destruct (Hk a eq_refl) as (Ha' & Ht' & Hm').
    rewrite outcome_after, final_after, events_after, marks_app, aborted_app.
    destruct Hm as [Hm Hc].
    split; [tauto|]. split; [eapply plain_thumbnail_trans; eauto|].
    destruct (outcome (k a w1)).
    + destruct Hm' as [Hm' Hc']. rewrite Hm, Hm', asks_app. split; [reflexivity | lia].
    + destruct Hm' as [rest Hrest]. exists rest. rewrite Hm, Hrest. now rewrite app_assoc.
  - split; [assumption|]. split; [assumption|].
    destruct Hm as [rest Hrest]. exists (rest ++ f2)%list. rewrite Hrest. now rewrite app_assoc.
Qed.




Section Stages.

Variable svc : Service.

Ltac summarize :=
  run; repeat split; try no_alert;
  try solve [ cbn; lia | eexists; cbn; reflexivity | left; reflexivity
            | right; eexists; split; reflexivity
            | cbn; intuition discriminate ].

Lemma updateState_progress (w : World) (updates : Partial) :
  (forall data, new_thumbnail updates = Some data -> mockupImageUrl data = None) ->
  progress (match new_currentStep updates with Some s => [Enters s] | None => [] end)
           w (updateState updates w).
Proof.
  intros Hplain. unfold progress, updateState, plain_thumbnail. cbn.
  split; [no_alert|]. split.
  - destruct (new_thumbnail updates) as [data|] eqn:E; cbn; [right | left; reflexivity].
    exists data. auto.
  - destruct (new_currentStep updates); cbn; split; auto; lia.
Qed.


Lemma lift_progress {A : Type} (x : Result A) (w : World) : progress [] w (lift x w).
Proof. unfold progress, lift, plain_thumbnail. unfold_monad. summarize. Qed.


Lemma ret_progress {A : Type} (a : A) (w : World) : progress [] w (ret a w).
Proof. apply (lift_progress (Ok a)). Qed.

Lemma performResearch_progress (topic : string) (w : World) :
  progress [Asks Research] w (performResearch svc topic w).
Proof.
  unfold progress, plain_thumbnail, initial_segment, performResearch, generateContent.
  unfold_monad. summarize.
Qed.

Lemma generateScript_progress (research : string) (length : ScriptLength) (w : World) :
  progress [Asks Script] w (generateScript svc research length w).
Proof.
  unfold progress, plain_thumbnail, initial_segment, generateScript, generateContent.
  unfold_monad. summarize.
Qed.

Lemma generateMetadata_progress (script : Value) (w : World) :
  progress [Asks Metadata] w (generateMetadata svc script w).
Proof.
  unfold progress, plain_thumbnail, initial_segment, generateMetadata, generateContent.
  unfold_monad. summarize.
Qed.

Lemma generateThumbnailContent_progress (script : Value) (w : World) :
  progress [Asks ThumbnailCopy; Asks Image] w (generateThumbnailContent svc script w).
Proof.
  unfold progress, plain_thumbnail, initial_segment, generateThumbnailContent,
    generateImage, generateContent.
  unfold_monad. summarize.
Qed.

Lemma generateThumbnailContent_mockup (script : Value) (w : World) (data : ThumbnailData) :
  outcome (generateThumbnailContent svc script w) = Ok data ->
  mockupImageUrl data = None.
Proof.
  unfold generateThumbnailContent, generateImage, generateContent.
  unfold_monad.
  run; intros H; try discriminate H; now inversion H.
Qed.

(** The four stages ask in the order research, script, metadata, thumbnail
    copy, thumbnail image, and stop at the first failure; they raise no
    alert and store no mock-up; when they complete they have made five
    calls. *)
Lemma stages_progress (state : AppState) (w : World) :
  progress prelude w (stages svc state w).
Proof.
  unfold stages.
  change prelude
    with ([Asks Research] ++ [] ++ [Enters SCRIPT] ++ [Asks Script] ++ []
          ++ [Enters METADATA] ++ [] ++ [Asks Metadata] ++ [] ++ [Enters THUMBNAIL]
          ++ [] ++ [Asks ThumbnailCopy; Asks Image] ++ [] ++ [])%list.
  apply progress_bind; [apply performResearch_progress | intros research _].
  apply progress_bind; [apply updateState_progress; discriminate | intros _ _].
  apply progress_bind; [apply updateState_progress; discriminate | intros _ _].
  apply progress_bind; [apply generateScript_progress | intros scriptData _].
  apply progress_bind; [apply updateState_progress; discriminate | intros _ _].
  apply progress_bind; [apply updateState_progress; discriminate | intros _ _].
  apply progress_bind; [apply lift_progress | intros ttsScript _].
  apply progress_bind; [apply generateMetadata_progress | intros metadata _].
  apply progress_bind; [apply updateState_progress; discriminate | intros _ _].
  apply progress_bind; [apply updateState_progress; discriminate | intros _ _].
  apply progress_bind; [apply lift_progress | intros ttsScript' _].
  apply progress_bind; [apply generateThumbnailContent_progress | intros thumbnail Hthumbnail].
  apply progress_bind; [|intros _ _; apply ret_progress].
  apply updateState_progress. intros data Hdata. inversion Hdata; subst.
  eapply generateThumbnailContent_mockup; eassumption.
Qed.



Lemma client_app (w : World) :
  (forall topic, app (final (performResearch svc topic w)) = app w)
  /\ (forall research length, app (final (generateScript svc research length w)) = app w)
  /\ (forall script, app (final (generateMetadata svc script w)) = app w).
Proof.
  unfold performResearch, generateScript, generateMetadata, generateContent.
  unfold_monad. repeat split; intros; run; reflexivity.
Qed.


End Stages.

(** ** The workflow handler *)

Section Workflow.

Variable svc : Service.

(** A run that starts: the [try] block is run from the state marked as
    processing, an exception of the block is reported, and [isProcessing] is
    cleared in either case.  The handler itself never throws. *)
Lemma startWorkflow_run (w : World) :
  topic (app w) <> "" ->
  let w1 := {| app := merge (app w) start_update; clock := clock w |} in
  let block := attempt svc (app w) w1 in
  startWorkflow svc w =
  {| outcome := Ok tt;
     final := {| app := merge (app (final block)) (processing_update false);
                 clock := clock (final block) |};
     events :=
       Published start_update
       :: (events block
           ++ match outcome block with
              | Ok _ => []
              | Throw e => [ConsoleError "Workflow failed" e; Alert failureNotice]
              end
           ++ [Published (processing_update false)])%list |}.
Proof.
  intros Htopic. unfold startWorkflow. unfold_monad. cbn.
  destruct (String.eqb (topic (app w)) "") eqn:E.
  - apply String.eqb_eq in E. contradiction.
  - cbn. destruct (attempt svc (app w) _) as [[u|e] w2 es]; cbn.
    + now destruct u.
    + now rewrite <- app_assoc.
Qed.

Lemma startWorkflow_idle (w : World) :
  topic (app w) = "" ->
  startWorkflow svc w = {| outcome := Ok tt; final := w; events := [] |}.
Proof.
  intros Htopic. unfold startWorkflow. unfold_monad. cbn.
  now rewrite Htopic.
Qed.

(** The [try] block raises no alert itself, stores no mock-up, and makes the
    marks of the four stages followed by those of the image stage. *)
Lemma attempt_run (state : AppState) (w : World) :
  let r := attempt svc state w in
  ~ aborted (events r)
  /\ plain_thumbnail (app w) (app (final r))
  /\ exists k,
       match outcome r with
       | Ok _ =>
           marks (events r) = (prelude ++ Enters IMAGES :: repeat (Asks Image) k)%list
       | Throw _ =>
           initial_segment (marks (events r))
                           (prelude ++ Enters IMAGES :: repeat (Asks Image) k)%list
       end.
Proof.
  unfold attempt, bind.
  destruct (stages_progress svc state w) as (Ha & Ht & Hm).
  destruct (stages svc state w) as [[scriptData|e] w1 es]; cbn [outcome final events] in *.
  - destruct (images_run svc scriptData w1) as ([k Hk] & Ha' & _ & _ & Ht' & _).
    rewrite outcome_after, final_after, events_after, aborted_app, marks_app.
    destruct Hm as [Hm _]. rewrite Hm, Hk.
    split; [tauto|]. split.
    + unfold plain_thumbnail in *. now rewrite Ht'.
    + exists k. destruct (outcome (images svc scriptData w1)); [reflexivity|].
      exists []. now rewrite app_nil_r.
  - split; [assumption|]. split; [assumption|].
    exists 0. destruct Hm as [rest ->].
    exists (rest ++ [Enters IMAGES])%list. now rewrite <- app_assoc.
Qed.

Lemma retryImage_frame (index : nat) (w : World) :
  frame (app w) (app (final (retryImage svc index w))).
Proof.
  unfold retryImage, set_at, generateImage, generateContent. unfold_monad.
  run; repeat split.
Qed.

End Workflow.

(** ** Properties of the workflow *)

(** C9: started with an empty topic, the workflow returns at once: the
    state is left exactly as it was (so [isProcessing], [currentStep] and the
    result fields keep their values), no request is made, nothing is
    published, logged or alerted, and no exception is raised. *)
Theorem empty_topic_does_not_start :
  forall (svc : Service) (w : World),
    topic (app w) = "" ->
    startWorkflow svc w = {| outcome := Ok tt; final := w; events := [] |}.
Proof.
  intros svc w Htopic.
  unfold startWorkflow. unfold_monad. cbn.
  rewrite Htopic. reflexivity.
Qed.

Lemma empty_topic_does_not_start_witness :
  topic (app (Sample.world "")) = ""
  /\ startWorkflow (Sample.helpful 2) (Sample.world "")
     = {| outcome := Ok tt; final := Sample.world ""; events := [] |}.
Proof.
  split; [reflexivity|].
  apply (empty_topic_does_not_start (Sample.helpful 2) (Sample.world "")).
  reflexivity.
Defined.

Lemma marks_of_run (svc : Service) (w : World) :
  topic (app w) <> "" ->
  marks (events (startWorkflow svc w))
  = Enters RESEARCH
    :: marks (events (attempt svc (app w)
                        {| app := merge (app w) start_update; clock := clock w |})).
Proof.
  intros Htopic. rewrite (startWorkflow_run svc w Htopic). cbn.
  rewrite !marks_app. cbn.
  destruct (outcome (attempt svc (app w) _)); cbn; now rewrite app_nil_r.
Qed.

Lemma nonempty_topic (w : World) :
  String.eqb (topic (app w)) "" = false -> topic (app w) <> "".
Proof. intros E H. rewrite H in E. discriminate E. Qed.

(** The marks of any run are an initial segment of an itinerary. *)
Lemma marks_within_itinerary (svc : Service) (w : World) :
  exists k, initial_segment (marks (events (startWorkflow svc w))) (itinerary k).
Proof.
  destruct (String.eqb (topic (app w)) "") eqn:E.
  - apply String.eqb_eq in E. rewrite (startWorkflow_idle svc w E).
    exists 0. now exists (itinerary 0).
  - apply nonempty_topic in E.
    rewrite (marks_of_run svc w E).
    destruct (attempt_run svc (app w)
                {| app := merge (app w) start_update; clock := clock w |})
      as (_ & _ & k & H).
    exists k. destruct (outcome (attempt svc (app w) _)).
    + rewrite H. exists []. now rewrite app_nil_r.
    + destruct H as [rest Hrest]. exists rest.
      unfold itinerary. cbn. unfold prelude in Hrest. cbn in Hrest.
      now rewrite <- Hrest.
Qed.



(** C4 (the claim as stated fails): in a run that goes through, [IMAGES] is
    published after [THUMBNAIL], which is a step back in the order INPUT,
    RESEARCH, SCRIPT, IMAGES, METADATA, THUMBNAIL. *)
Lemma images_step_follows_thumbnail :
  steps (events (startWorkflow (Sample.helpful 2) (Sample.world "cats")))
  = [RESEARCH; SCRIPT; METADATA; THUMBNAIL; IMAGES]
  /\ ascending (currentStep (app (Sample.world "cats"))
                :: steps (events (startWorkflow (Sample.helpful 2) (Sample.world "cats"))))
     = false
  /\ rank IMAGES < rank THUMBNAIL.
Proof. split; [|split]; [reflexivity | reflexivity | cbn; lia]. Qed.

(** C4 (amended): the steps a run publishes are, in this order, RESEARCH,
    SCRIPT, METADATA, THUMBNAIL, IMAGES, up to the point where the run ends:
    the step only moves along the order of execution, never back in it. *)
Theorem steps_follow_execution_order :
  forall (svc : Service) (w : World),
    initial_segment (steps (events (startWorkflow svc w)))
                    [RESEARCH; SCRIPT; METADATA; THUMBNAIL; IMAGES].
Proof.
  intros svc w.
  destruct (marks_within_itinerary svc w) as [k Hk].
  rewrite steps_marks.
  apply (initial_segment_map entered) in Hk; [|apply entered_app].
  unfold itinerary in Hk. rewrite entered_app, entered_asks in Hk. exact Hk.
Qed.



(** C10: a thumbnail returned by [generateThumbnailContent] has its
    [pureImageUrl] set from the image call, its [copySuggestions] read from
    the parsed text of the copy call, and no [mockupImageUrl]; neither the
    workflow nor the retry of an image ever stores a thumbnail that has
    one. *)
Theorem mockup_is_never_written :
  forall (svc : Service),
    (forall script w data,
        outcome (generateThumbnailContent svc script w) = Ok data ->
        mockupImageUrl data = None
        /\ exists prefix textResponse textData imagePrompt shown imageResponse,
             substring_method script 2000 = Ok prefix
             /\ svc (clock w) (ThumbnailCopyCall prefix) = Resolves textResponse
             /\ JSON_parse (or_else (text textResponse) "{}") = Ok textData
             /\ get_prop textData "imagePrompt" = Ok imagePrompt
             /\ ToString imagePrompt = Ok shown
             /\ svc (S (clock w)) (ImageCall (thumbnailFraming ++ shown))
                = Resolves imageResponse
             /\ pureImageUrl data = Some (first_image (content_parts imageResponse))
             /\ get_prop textData "copySuggestions" = Ok (copySuggestions data))
    /\ (forall w,
          without_mockup (thumbnail (app w)) ->
          without_mockup (thumbnail (app (final (startWorkflow svc w)))))
    /\ (forall index w,
          thumbnail (app (final (retryImage svc index w))) = thumbnail (app w)).
Proof.
  intros svc. split; [|split].
  - intros script w data.
    unfold generateThumbnailContent, generateImage, generateContent. unfold_monad.
    run; intros H; try discriminate H.
    inversion H; subst; clear H. cbn.
    split; [reflexivity|].
    match goal with
    | E : ToString (VStr _) = Ok _ |- _ => inversion E; subst; clear E
    end.
    do 6 eexists. repeat split; eassumption.
  - intros w Hw.
    destruct (String.eqb (topic (app w)) "") eqn:E.
    + apply String.eqb_eq in E. now rewrite (startWorkflow_idle svc w E).
    + apply nonempty_topic in E.
      rewrite (startWorkflow_run svc w E). cbn.
      destruct (attempt_run svc (app w)
                  {| app := merge (app w) start_update; clock := clock w |})
        as (_ & [-> | (data & -> & Hdata)] & _); cbn; assumption.
  - intros index w.
    destruct (retryImage_frame svc index w) as (_ & _ & _ & _ & _ & H & _).
    now rewrite H.
Qed.

Lemma mockup_is_never_written_witness :
  (exists data,
      outcome (generateThumbnailContent (Sample.helpful 2) (VStr "tts") (Sample.world "cats"))
      = Ok data
      /\ mockupImageUrl data = None)
  /\ without_mockup
       (thumbnail (app (final (startWorkflow (Sample.helpful 2) (Sample.world "cats"))))).
Proof.
  destruct (mockup_is_never_written (Sample.helpful 2)) as (H & H' & _).
  split.
  - eexists. split; [reflexivity|].
    eapply (H (VStr "tts") (Sample.world "cats")). reflexivity.
  - apply (H' (Sample.world "cats")). exact I.
Defined.



(** ** Retrying one image *)

Section Retry.

Variable svc : Service.

(** The retry of the image of a paragraph object in range. *)
Lemma retryImage_run (index : nat) (w : World) (sc : Value)
      (ps : list Value) (props fs : Fields) :
  script (app w) = Some sc ->
  truthy sc = true ->
  get_prop sc "paragraphs" = Ok (VArr ps props) ->
  index < List.length ps ->
  element ps index = VObj fs ->
  let r := retryImage svc index w in
  let attempt := image_attempt svc (clock w) (or_undefined (lookup "imagePrompt" fs)) in
  outcome r = Ok tt
  /\ script (app (final r))
     = Some (spread_with sc "paragraphs"
               (VArr (store ps index (VObj (settled attempt fs))) [])).
Proof.
  intros Hsc Htruthy Hps Hi Hfs.
  unfold retryImage, set_at, generateImage, generateContent, image_attempt.
  unfold_monad. cbn.
  rewrite Hsc, Htruthy, Hps. cbn. rewrite Hfs. cbn.
  rewrite element_store by assumption. cbn.
  rewrite lookup_assign_other by discriminate.
  unfold settled, generating.
  destruct (ToString (or_undefined (lookup "imagePrompt" fs))) as [shown|e]; cbn.
  - destruct (svc (clock w) (ImageCall shown)) as [reason|response]; cbn;
      repeat (progress (rewrite ?store_store, ?element_store by assumption; cbn));
      auto.
  - repeat (progress (rewrite ?store_store, ?element_store by assumption; cbn)).
    auto.
Qed.

End Retry.

(** C2 (the claim as stated fails): the second paragraph has an image; its
    retry is answered by a reply that carries no image data, so that no image
    is generated; the url of the paragraph is nevertheless overwritten, with
    the empty string. *)
Lemma retry_without_image_data_blanks_url :
  own (element (paragraphs_of (app Sample.finished)) 1) "imageUrl"
  = Some (VStr "data:image/png;base64,OLD")
  /\ Sample.mute (clock Sample.finished) (ImageCall "prompt 2")
     = Resolves Sample.emptyResponse
  /\ content_parts Sample.emptyResponse = []
  /\ own (element (paragraphs_of (app (final (retryImage Sample.mute 1 Sample.finished)))) 1)
         "imageUrl"
     = Some (VStr "").
Proof. repeat split. Qed.

(** C2 (amended): the retry of the image of a paragraph stores whatever the
    image operation returns: the data url of the first inline image of the
    reply, or the empty string when the reply carries none.  When the
    operation throws (the call is rejected, or the prompt cannot be printed),
    the [imageUrl] of the paragraph is what it was before: the previous url
    if it had one, unset if it had none.  In either case [isGenerating] ends
    false, the other properties of the paragraph and the other paragraphs are
    untouched, and the handler returns normally. *)
Theorem retry_stores_what_the_call_returns :
  forall (svc : Service) (index : nat) (w : World) (sc : Value)
         (ps : list Value) (props fs : Fields),
    script (app w) = Some sc ->
    truthy sc = true ->
    get_prop sc "paragraphs" = Ok (VArr ps props) ->
    index < List.length ps ->
    element ps index = VObj fs ->
    let r := retryImage svc index w in
    let prompt := or_undefined (lookup "imagePrompt" fs) in
    exists ps',
      outcome r = Ok tt
      /\ script (app (final r)) = Some (spread_with sc "paragraphs" (VArr ps' []))
      /\ List.length ps' = List.length ps
      /\ (forall j, j <> index -> element ps' j = element ps j)
      /\ own (element ps' index) "isGenerating" = Some (VBool false)
      /\ (forall k, k <> "imageUrl" -> k <> "isGenerating" ->
          own (element ps' index) k = lookup k fs)
      /\ (forall e, ToString prompt = Throw e ->
          own (element ps' index) "imageUrl" = lookup "imageUrl" fs)
      /\ (forall shown reason,
            ToString prompt = Ok shown ->
            svc (clock w) (ImageCall shown) = Rejects reason ->
            own (element ps' index) "imageUrl" = lookup "imageUrl" fs)
      /\ (forall shown response,
            ToString prompt = Ok shown ->
            svc (clock w) (ImageCall shown) = Resolves response ->
            own (element ps' index) "imageUrl"
            = Some (VStr (first_image (content_parts response))))
      /\ (own (element ps' index) "imageUrl" <> lookup "imageUrl" fs ->
          exists shown response,
            ToString prompt = Ok shown
            /\ svc (clock w) (ImageCall shown) = Resolves response).
Proof.
  intros svc index w sc ps props fs Hsc Htruthy Hps Hi Hfs r prompt.
  destruct (retryImage_run svc index w sc ps props fs Hsc Htruthy Hps Hi Hfs)
    as [Hout Hscript].
  fold prompt in Hscript.
  exists (store ps index (VObj (settled (image_attempt svc (clock w) prompt) fs))).
  split; [exact Hout|]. split; [exact Hscript|].
  split; [apply length_store|].
  split; [intros j Hj; apply element_store_other; congruence|].
  rewrite element_store by assumption. cbn.
  split; [apply lookup_settled_flag|].
  split; [intros k H1 H2; now apply lookup_settled_other|].
  rewrite lookup_settled_url. unfold image_attempt.
  split; [|split; [|split]].
  - intros e ->. reflexivity.
  - intros shown reason -> ->. reflexivity.
  - intros shown response -> ->. reflexivity.
  - destruct (ToString prompt) as [shown|e]; [|congruence].
    destruct (svc (clock w) (ImageCall shown)) as [reason|response] eqn:Ereply;
      [congruence|].
    intros _. exists shown, response. split; [reflexivity | exact Ereply].
Qed.

Lemma retry_stores_what_the_call_returns_witness :
  own (element (paragraphs_of
                  (app (final (retryImage (Sample.failing_at 7 2) 1 Sample.finished)))) 1)
      "imageUrl"
  = Some (VStr "data:image/png;base64,OLD").
Proof.
  destruct (retry_stores_what_the_call_returns
              (Sample.failing_at 7 2) 1 Sample.finished
              (VObj [("rawScript", VStr "raw"); ("ttsScript", VStr "tts");
                     ("paragraphs", VArr [Sample.illustrated 1; Sample.illustrated 2] [])])
              [Sample.illustrated 1; Sample.illustrated 2] []
              [("id", VNum (decimal 2));
               ("content", VStr ("content " ++ decimal 2));
               ("imagePrompt", VStr ("prompt " ++ decimal 2));
               ("isGenerating", VBool false);
               ("imageUrl", VStr "data:image/png;base64,OLD")]
              eq_refl eq_refl eq_refl (le_n 2) eq_refl)
    as (ps' & _ & Hscript & _ & _ & _ & _ & _ & Hrejected & _).
  unfold paragraphs_of. rewrite Hscript. cbn.
  apply (Hrejected "prompt 2" "503"); reflexivity.
Defined.

Lemma calls_app (es es' : list Event) :
  calls (es ++ es')%list = (calls es ++ calls es')%list.
Proof.
  induction es as [|e es IH]; cbn; [reflexivity|].
  destruct e; cbn; now rewrite ?IH.
Qed.

(** ** The image loop over paragraph objects *)

Section Scenes.

Variable svc : Service.

Lemma scene_prompt (p : Value) :
  scene p ->
  exists fs shown,
    p = VObj fs /\ prompt_of p = VStr shown /\ request_of p = ImageCall shown
    /\ ToString (prompt_of p) = Ok shown.
Proof.
  intros (fs & shown & -> & Hp). exists fs, shown.
  unfold prompt_of, request_of. cbn. rewrite Hp. auto.
Qed.

(** One turn on a paragraph object whose prompt is a string: the image is
    asked for, the paragraph is settled, and the array is published. *)
Lemma image_turn_scene (scriptData : Value) (done rest : list Value) (p : Value) (w : World) :
  scene p ->
  let r := image_turn svc scriptData (List.length done) (done ++ p :: rest) w in
  let p' := settle_scene (image_attempt svc (clock w) (prompt_of p)) p in
  outcome r = Ok (done ++ p' :: rest)%list
  /\ clock (final r) = S (clock w)
  /\ script (app (final r))
     = Some (spread_with scriptData "paragraphs" (VArr (done ++ p' :: rest) []))
  /\ calls (events r) = [request_of p]
  /\ In (Called (request_of p) (svc (clock w) (request_of p))) (events r).
Proof.
  intros Hscene.
  destruct (scene_prompt p Hscene) as (fs & shown & -> & Hprompt & Hreq & Hshown).
  unfold image_turn, set_at. unfold_monad.
  rewrite element_middle. cbn. rewrite store_middle, element_middle. cbn.
  rewrite lookup_assign_other by discriminate.
  unfold prompt_of in *. cbn in Hprompt, Hshown |- *.
  rewrite generateImage_run. rewrite Hshown. cbn.
  rewrite Hreq. unfold settled, generating.
  destruct (image_attempt svc (clock w) _) as [url|e] eqn:Ea; cbn;
    rewrite ?store_middle, ?element_middle; cbn;
    rewrite ?store_middle, ?element_middle; cbn;
    repeat split; auto.
Qed.

Lemma image_loop_scenes (scriptData : Value) (todo : list Value) :
  forall (done : list Value) (w : World),
    Forall scene todo ->
    let r := image_loop svc scriptData (List.length todo) (List.length done)
                        (done ++ todo) w in
    outcome r = Ok (done ++ settle_from svc (clock w) todo)%list
    /\ clock (final r) = clock w + List.length todo
    /\ (todo <> [] ->
        script (app (final r))
        = Some (spread_with scriptData "paragraphs"
                  (VArr (done ++ settle_from svc (clock w) todo) [])))
    /\ calls (events r) = map request_of todo.
Proof.
  induction todo as [|p rest IH]; intros done w Hall.
  - cbn. rewrite app_nil_r, Nat.add_0_r. repeat split. congruence.
  - inversion Hall as [|? ? Hp Hrest]; subst.
    pose proof (image_turn_scene scriptData done rest p w Hp)
      as (Hout & Hclock & Hscript & Hcalls & _).
    cbn [List.length image_loop settle_from]. unfold bind.
    set (p' := settle_scene (image_attempt svc (clock w) (prompt_of p)) p) in *.
    destruct (image_turn svc scriptData (List.length done) (done ++ p :: rest) w)
      as [o w' es]; cbn [outcome final events] in *.
    subst o.
    specialize (IH (done ++ [p'])%list w' Hrest).
    replace (List.length (done ++ [p'])) with (S (List.length done)) in IH
      by (rewrite length_app; cbn; lia).
    cbn zeta in IH. rewrite <- !app_assoc in IH.
    change ([p'] ++ rest)%list with (p' :: rest) in IH.
    change ([p'] ++ settle_from svc (clock w') rest)%list
      with (p' :: settle_from svc (clock w') rest) in IH.
    destruct IH as (Hout' & Hclock' & Hscript' & Hcalls').
    rewrite outcome_after, final_after, events_after.
    rewrite Hclock in *.
    split; [exact Hout'|]. split; [lia|]. split.
    + intros _. destruct rest as [|q rest'].
      * cbn in *. exact Hscript.
      * apply Hscript'. discriminate.
    + rewrite calls_app, Hcalls, Hcalls'. reflexivity.
Qed.

End Scenes.

(** ** Scripts of the requested shape *)

Lemma lookup_declared (properties : list (string * Schema)) (fs : Fields)
      (k : string) (v : Value) :
  forallb (fun f => declared (fst f) properties) fs = true ->
  lookup k fs = Some v ->
  declared k properties = true.
Proof.
  induction fs as [|[k' v'] fs IH]; cbn; [discriminate|].
  intros H Hl. apply andb_prop in H. destruct H as [Hd Hrest].
  destruct (String.eqb k k') eqn:E.
  - apply String.eqb_eq in E. now subst k'.
  - now apply IH.
Qed.

Lemma undeclared_absent (properties : list (string * Schema)) (fs : Fields) (k : string) :
  forallb (fun f => declared (fst f) properties) fs = true ->
  declared k properties = false ->
  lookup k fs = None.
Proof.
  intros H Hk. destruct (lookup k fs) as [v|] eqn:E; [|reflexivity].
  rewrite (lookup_declared properties fs k v H E) in Hk. discriminate Hk.
Qed.

(** A paragraph of the requested shape is a fresh scene. *)
Lemma conforms_paragraph (p : Value) :
  conforms paragraphSchema p = true -> fresh_scene p.
Proof.
  destruct p as [| | | | |es ps|fs]; try discriminate.
  unfold paragraphSchema. cbn [conforms].
  intros H.
  apply andb_prop in H. destruct H as [H Htypes].
  apply andb_prop in H. destruct H as [Hrequired Hdeclared].
  cbn [forallb] in Hrequired. unfold present in Hrequired.
  destruct (lookup "imagePrompt" fs) as [prompt|] eqn:Ep.
  2:{ destruct (lookup "id" fs), (lookup "content" fs); discriminate Hrequired. }
  destruct prompt as [| | | |shown| |];
    try (destruct (lookup "id" fs) as [[]|], (lookup "content" fs) as [[]|];
         cbn in Htypes; rewrite ?andb_false_r in Htypes; discriminate Htypes).
  exists fs, shown. repeat split; auto;
    apply (undeclared_absent _ _ _ Hdeclared); reflexivity.
Qed.


Lemma conforms_paragraphs (ps : list Value) :
  forallb (conforms paragraphSchema) ps = true -> Forall fresh_scene ps.
Proof.
  induction ps as [|p ps IH]; cbn [forallb]; intros H; constructor.
  - apply conforms_paragraph. apply andb_prop in H. tauto.
  - apply IH. apply andb_prop in H. tauto.
Qed.

(** A script of the requested shape is an object whose [paragraphs] are
    fresh scenes. *)
Lemma conforms_script (scriptData : Value) (ps : list Value) (props : Fields) :
  conforms scriptSchema scriptData = true ->
  own scriptData "paragraphs" = Some (VArr ps props) ->
  (exists sf, scriptData = VObj sf) /\ props = [] /\ Forall fresh_scene ps.
Proof.
  destruct scriptData as [| | | | |es qs|sf]; try discriminate.
  unfold scriptSchema. cbn [conforms own].
  intros H Hps.
  apply andb_prop in H. destruct H as [_ Htypes].
  rewrite Hps in Htypes.
  destruct (lookup "rawScript" sf) as [[]|], (lookup "ttsScript" sf) as [[]|];
    cbn in Htypes; try discriminate Htypes;
    destruct props; try discriminate Htypes;
    rewrite andb_true_r in Htypes;
    (split; [now exists sf|]); (split; [reflexivity|]);
    now apply conforms_paragraphs.
Qed.

Lemma fresh_scene_scene (p : Value) : fresh_scene p -> scene p.
Proof. intros (fs & shown & -> & Hp & _). now exists fs, shown. Qed.



Section ImageStage.

Variable svc : Service.

(** The image stage over paragraph objects with string prompts: it returns,
    every paragraph is asked for in turn, and the settled array is left in
    the state. *)
Lemma images_scenes (scriptData : Value) (ps : list Value) (props : Fields) (w : World) :
  get_prop scriptData "paragraphs" = Ok (VArr ps props) ->
  Forall scene ps ->
  let r := images svc scriptData w in
  outcome r = Ok tt
  /\ ~ aborted (events r)
  /\ clock (final r) = clock w + List.length ps
  /\ calls (events r) = map request_of ps
  /\ research (app (final r)) = research (app w)
  /\ metadata (app (final r)) = metadata (app w)
  /\ thumbnail (app (final r)) = thumbnail (app w)
  /\ (ps <> [] ->
      script (app (final r))
      = Some (spread_with scriptData "paragraphs"
                (VArr (settle_from svc (clock w) ps) []))).
Proof.
  intros Hps Hall.
  destruct (images_run svc scriptData w) as (_ & Ha & Hr & Hm & Ht & _).
  unfold images in *. unfold_monad. cbn in *.
  rewrite Hps in *. cbn in *.
  set (w' := {| app := merge (app w) (step_update IMAGES); clock := clock w |}) in *.
  destruct (image_loop_scenes svc scriptData ps [] w' Hall)
    as (Hout & Hclock & Hscript & Hcalls).
  cbn [List.length List.app] in Hout, Hclock, Hscript, Hcalls.
  destruct (image_loop svc scriptData (List.length ps) 0 ps w') as [o w1 es];
    cbn [outcome final events] in *.
  subst o. cbn in *. rewrite app_nil_r in *.
  repeat split; auto.
Qed.

End ImageStage.


Lemma image_attempt_string (svc : Service) (c : nat) (shown : string) :
  image_attempt svc c (VStr shown)
  = match svc c (ImageCall shown) with
    | Resolves response => Ok (first_image (content_parts response))
    | Rejects reason => Throw (Rejected reason)
    end.
Proof. reflexivity. Qed.




(** ** The generation client: images, metadata, thumbnails *)

Lemma first_image_none (ps : list Part) :
  first_image ps = "" <-> Forall (fun part => inlineData part = None) ps.
Proof.
  induction ps as [|part ps IH]; cbn.
  - split; auto.
  - destruct (inlineData part) as [blob|] eqn:E.
    + split; [discriminate|]. intros H. inversion H; subst. congruence.
    + rewrite IH. split; intros H.
      * now constructor.
      * now inversion H.
Qed.

Lemma first_image_first (before after : list Part) (blob : Blob) :
  Forall (fun part => inlineData part = None) before ->
  first_image (before ++ {| inlineData := Some blob |} :: after)
  = "data:image/png;base64," ++ match data blob with Some d => d | None => "undefined" end.
Proof.
  induction before as [|part before IH]; intros H; cbn; [reflexivity|].
  inversion H as [|? ? Hpart Hrest]; subst. rewrite Hpart. now apply IH.
Qed.

(** X1: [generateImage], given a prompt that is a string, makes exactly one
    request, for that prompt, and changes nothing of the state.  A rejection
    is passed on.  When the call resolves the operation returns whatever the
    response looks like: the empty string exactly when no part of the first
    candidate carries inline data, and otherwise the data of the first part
    that does, always presented as a PNG data url. *)
Theorem generateImage_returns_first_inline_image :
  forall (svc : Service) (shown : string) (w : World),
    let request := ImageCall shown in
    let r := generateImage svc (VStr shown) w in
    events r = [Called request (svc (clock w) request)]
    /\ final r = {| app := app w; clock := S (clock w) |}
    /\ (forall reason,
          svc (clock w) request = Rejects reason -> outcome r = Throw (Rejected reason))
    /\ (forall response,
          svc (clock w) request = Resolves response ->
          (exists url, outcome r = Ok url)
          /\ (outcome r = Ok ""
              <-> Forall (fun part => inlineData part = None) (content_parts response))
          /\ (forall before blob after,
                content_parts response = (before ++ {| inlineData := Some blob |} :: after)%list ->
                Forall (fun part => inlineData part = None) before ->
                outcome r
                = Ok ("data:image/png;base64,"
                      ++ match data blob with Some d => d | None => "undefined" end))).
Proof.
  intros svc shown w request r. subst r.
  rewrite generateImage_run.
  change (ToString (VStr shown)) with (@Ok string shown). cbn [outcome final events].
  rewrite image_attempt_string. fold request.
  split; [reflexivity|]. split; [reflexivity|]. split.
  - intros reason ->. reflexivity.
  - intros response ->. split; [eexists; reflexivity|]. split.
    + rewrite <- first_image_none. split; [intros H; now inversion H | intros ->; reflexivity].
    + intros before blob after Hparts Hbefore. rewrite Hparts.
      now rewrite first_image_first.
Qed.

Section MetadataFacts.

Variable svc : Service.

Lemma generateMetadata_run (script : string) (w : World) :
  generateMetadata svc (VStr script) w =
  let request := MetadataCall (substring 0 5000 script) in
  let reply := svc (clock w) request in
  {| outcome :=
       match reply with
       | Resolves response => JSON_parse (or_else (text response) "{}")
       | Rejects reason => Throw (Rejected reason)
       end;
     final := {| app := app w; clock := S (clock w) |};
     events := [Called request reply] |}.
Proof.
  unfold generateMetadata, bind, generateContent.
  change (substring_method (VStr script) 5000) with (@Ok string (substring 0 5000 script)).
  cbn [lift ret outcome final events after app clock].
  destruct (svc (clock w) _); cbn; [reflexivity|].
  destruct (JSON_parse _); reflexivity.
Qed.

End MetadataFacts.

(** X2: [generateMetadata], given a script that is a string, makes one
    request and leaves the state alone.  A rejection is passed on; a
    response without text, or with an empty one, yields the empty object; any
    other text yields the value it denotes, unchecked, or a [SyntaxError]
    when it is not JSON. *)
Theorem generateMetadata_returns_whatever_parses :
  forall (svc : Service) (script : string) (w : World),
    let request := MetadataCall (substring 0 5000 script) in
    let reply := svc (clock w) request in
    let r := generateMetadata svc (VStr script) w in
    events r = [Called request reply]
    /\ final r = {| app := app w; clock := S (clock w) |}
    /\ (forall reason, reply = Rejects reason -> outcome r = Throw (Rejected reason))
    /\ (forall response,
          reply = Resolves response ->
          text response = None \/ text response = Some "" ->
          outcome r = Ok (VObj []))
    /\ (forall response t,
          reply = Resolves response -> text response = Some t -> t <> "" ->
          outcome r = match Json.parse t with
                      | Some v => Ok v
                      | None => Throw SyntaxError
                      end).
Proof.
  intros svc script w request reply r. subst r.
  rewrite generateMetadata_run. cbn zeta. fold request. fold reply.
  cbn [outcome final events].
  split; [reflexivity|]. split; [reflexivity|]. split; [|split].
  - intros reason ->. reflexivity.
  - intros response -> Ht. now rewrite (or_else_missing _ _ Ht).
  - intros response t -> Ht Hne. rewrite Ht. cbn [or_else].
    destruct (String.eqb t "") eqn:E; [|reflexivity].
    apply String.eqb_eq in E. contradiction.
Qed.




Lemma substring_method_string (s : string) (n : nat) :
  substring_method (VStr s) n = Ok (substring 0 n s).
Proof. reflexivity. Qed.

Lemma substring_method_other (v : Value) (n : nat) :
  (forall s, v <> VStr s) -> substring_method v n = Throw TypeError.
Proof. intros H. destruct v; try reflexivity. now destruct (H s). Qed.


Lemma generateMetadata_refuses (svc : Service) (script : Value) (w : World) :
  (forall s, script <> VStr s) ->
  generateMetadata svc script w
  = {| outcome := Throw TypeError; final := w; events := [] |}.
Proof.
  intros Hscript. unfold generateMetadata, bind.
  now rewrite substring_method_other by assumption.
Qed.

Lemma generateThumbnailContent_refuses (svc : Service) (script : Value) (w : World) :
  (forall s, script <> VStr s) ->
  generateThumbnailContent svc script w
  = {| outcome := Throw TypeError; final := w; events := [] |}.
Proof.
  intros Hscript. unfold generateThumbnailContent, bind.
  now rewrite substring_method_other by assumption.
Qed.

(** X4: a script that is not a string (the [ttsScript] of a script object
    that has none is [undefined]) makes [generateMetadata] and
    [generateThumbnailContent] throw a [TypeError] before any request is
    made. *)
Theorem script_must_be_a_string :
  forall (svc : Service) (script : Value) (w : World),
    (forall s, script <> VStr s) ->
    generateMetadata svc script w
    = {| outcome := Throw TypeError; final := w; events := [] |}
    /\ generateThumbnailContent svc script w
       = {| outcome := Throw TypeError; final := w; events := [] |}.
Proof.
  intros svc script w Hscript. split.
  - now apply generateMetadata_refuses.
  - now apply generateThumbnailContent_refuses.
Qed.

Lemma script_must_be_a_string_witness :
  generateMetadata Sample.mute VUndef (Sample.world "cats")
  = {| outcome := Throw TypeError; final := Sample.world "cats"; events := [] |}
  /\ generateThumbnailContent (Sample.helpful 2) (VNum "12") (Sample.world "cats")
     = {| outcome := Throw TypeError; final := Sample.world "cats"; events := [] |}.
Proof.
  split.
  - apply (script_must_be_a_string Sample.mute VUndef (Sample.world "cats")). discriminate.
  - apply (script_must_be_a_string (Sample.helpful 2) (VNum "12") (Sample.world "cats")).
    discriminate.
Defined.

Section ThumbnailFacts.

Variable svc : Service.

Lemma generateThumbnailContent_run (script : string) (w : World)
      (textResponse : Response) (textData imagePrompt : Value) (shown : string) :
  svc (clock w) (ThumbnailCopyCall (substring 0 2000 script)) = Resolves textResponse ->
  JSON_parse (or_else (text textResponse) "{}") = Ok textData ->
  get_prop textData "imagePrompt" = Ok imagePrompt ->
  ToString imagePrompt = Ok shown ->
  let imageRequest := ImageCall (thumbnailFraming ++ shown) in
  generateThumbnailContent svc (VStr script) w =
  {| outcome :=
       match svc (S (clock w)) imageRequest with
       | Resolves imageResponse =>
           match get_prop textData "copySuggestions" with
           | Ok suggestions =>
               Ok {| pureImageUrl := Some (first_image (content_parts imageResponse));
                     mockupImageUrl := None;
                     copySuggestions := suggestions |}
           | Throw e => Throw e
           end
       | Rejects reason => Throw (Rejected reason)
       end;
     final := {| app := app w; clock := S (S (clock w)) |};
     events := [Called (ThumbnailCopyCall (substring 0 2000 script)) (Resolves textResponse);
                Called imageRequest (svc (S (clock w)) imageRequest)] |}.
Proof.
  intros Hcopy Hparse Hprompt Hshown imageRequest.
  unfold generateThumbnailContent.
  rewrite substring_method_string. unfold bind at 1. cbn [lift ret].
  unfold bind at 1. unfold generateContent at 1. cbn [outcome final events app clock].
  rewrite Hcopy, Hparse. unfold bind at 1. cbn [lift ret].
  rewrite Hprompt. unfold bind at 1. cbn [lift ret after].
  rewrite Hshown. unfold bind at 1. cbn [lift ret after].
  unfold bind at 1. rewrite generateImage_run.
  change (ToString (VStr (thumbnailFraming ++ shown))) with (@Ok string (thumbnailFraming ++ shown)).
  rewrite image_attempt_string. cbn [clock app]. fold imageRequest.
  destruct (svc (S (clock w)) imageRequest) as [reason|imageResponse]; [reflexivity|].
  unfold bind. cbn [lift ret after outcome final events].
  destruct (get_prop textData "copySuggestions"); reflexivity.
Qed.

End ThumbnailFacts.

(** X5: when the text of the copy call denotes an object that has no
    [imagePrompt] (the schema of the request requires none, and a response
    without text counts as the empty object), the thumbnail image is asked
    for all the same, with a prompt that ends in [undefined]; the thumbnail
    returned holds whatever the object has as [copySuggestions], which is
    [undefined] when it has none. *)
Theorem thumbnail_is_requested_without_a_prompt :
  forall (svc : Service) (script : string) (w : World)
         (textResponse : Response) (fs : Fields),
    svc (clock w) (ThumbnailCopyCall (substring 0 2000 script)) = Resolves textResponse ->
    JSON_parse (or_else (text textResponse) "{}") = Ok (VObj fs) ->
    lookup "imagePrompt" fs = None ->
    let imageRequest := ImageCall (thumbnailFraming ++ "undefined") in
    let r := generateThumbnailContent svc (VStr script) w in
    calls (events r) = [ThumbnailCopyCall (substring 0 2000 script); imageRequest]
    /\ (forall imageResponse,
          svc (S (clock w)) imageRequest = Resolves imageResponse ->
          outcome r
          = Ok {| pureImageUrl := Some (first_image (content_parts imageResponse));
                  mockupImageUrl := None;
                  copySuggestions := or_undefined (lookup "copySuggestions" fs) |})
    /\ (forall reason,
          svc (S (clock w)) imageRequest = Rejects reason ->
          outcome r = Throw (Rejected reason)).
Proof.
  intros svc script w textResponse fs Hcopy Hparse Hmissing imageRequest r. subst r.
  rewrite (generateThumbnailContent_run svc script w textResponse (VObj fs) VUndef "undefined"
             Hcopy Hparse).
  - cbn zeta. fold imageRequest. cbn [outcome events calls get_prop].
    split; [reflexivity|]. split.
    + intros imageResponse ->. reflexivity.
    + intros reason ->. reflexivity.
  - cbn [get_prop]. now rewrite Hmissing.
  - reflexivity.
Qed.

Lemma thumbnail_is_requested_without_a_prompt_witness :
  let r := generateThumbnailContent Sample.mute (VStr "tts") (Sample.world "cats") in
  calls (events r)
  = [ThumbnailCopyCall "tts"; ImageCall (thumbnailFraming ++ "undefined")]
  /\ outcome r
     = Ok {| pureImageUrl := Some ""; mockupImageUrl := None; copySuggestions := VUndef |}.
Proof.
  destruct (thumbnail_is_requested_without_a_prompt
              Sample.mute "tts" (Sample.world "cats") Sample.emptyResponse []
              eq_refl eq_refl eq_refl) as (Hcalls & Hout & _).
  cbn zeta. split; [exact Hcalls|].
  apply (Hout Sample.emptyResponse). reflexivity.
Defined.

(** ** Runs that are cut short *)

(** X6: when the script call resolves with a text whose value has no
    [ttsScript] that is a string (such as the empty object that stands for a
    response without text), the value is stored as the script all the same,
    the metadata stage is entered, and the run is aborted there by a
    [TypeError] before any metadata request is made: two requests were made
    in all, [metadata] and [thumbnail] are what they were, and
    [isProcessing] is cleared. *)
Theorem script_without_narration_aborts_at_metadata :
  forall (svc : Service) (w : World) (researchResponse scriptResponse : Response)
         (scriptData : Value),
    topic (app w) <> "" ->
    svc (clock w) (ResearchCall (topic (app w))) = Resolves researchResponse ->
    svc (S (clock w))
        (ScriptCall (or_else (text researchResponse) "") (targetChars_of (length (app w))))
    = Resolves scriptResponse ->
    JSON_parse (or_else (text scriptResponse) "{}") = Ok scriptData ->
    (forall s, get_prop scriptData "ttsScript" <> Ok (VStr s)) ->
    let r := startWorkflow svc w in
    outcome r = Ok tt
    /\ In (ConsoleError "Workflow failed" TypeError) (events r)
    /\ In (Alert failureNotice) (events r)
    /\ calls (events r)
       = [ResearchCall (topic (app w));
          ScriptCall (or_else (text researchResponse) "") (targetChars_of (length (app w)))]
    /\ script (app (final r)) = Some scriptData
    /\ currentStep (app (final r)) = METADATA
    /\ metadata (app (final r)) = metadata (app w)
    /\ thumbnail (app (final r)) = thumbnail (app w)
    /\ isProcessing (app (final r)) = false.
Proof.
  intros svc w researchResponse scriptResponse scriptData
         Htopic Hresearch Hscript Hparse Hnarration.
  cbn zeta. rewrite (startWorkflow_run svc w Htopic). cbn.
  unfold attempt, stages. unfold_monad.
  rewrite performResearch_run. cbn. rewrite Hresearch. cbn.
  rewrite generateScript_run. cbn. rewrite Hscript, Hparse. cbn.
  destruct (get_prop scriptData "ttsScript") as [ttsScript|e] eqn:Etts; cbn.
  - assert (Hrefused : forall s, ttsScript <> VStr s).
    { intros s ->. now apply (Hnarration s). }
    rewrite generateMetadata_refuses by assumption.
    cbn. repeat split; auto 10.
  - assert (e = TypeError) as ->.
    { destruct scriptData; cbn in Etts; congruence. }
    repeat split; auto 10.
Qed.

Lemma script_without_narration_aborts_at_metadata_witness :
  let r := startWorkflow Sample.mute (Sample.world "cats") in
  script (app (final r)) = Some (VObj [])
  /\ currentStep (app (final r)) = METADATA
  /\ metadata (app (final r)) = None
  /\ isProcessing (app (final r)) = false.
Proof.
  destruct (script_without_narration_aborts_at_metadata
              Sample.mute (Sample.world "cats") Sample.emptyResponse Sample.emptyResponse
              (VObj []))
    as (_ & _ & _ & _ & Hscript & Hstep & Hmetadata & _ & Hprocessing).
  - discriminate.
  - reflexivity.
  - reflexivity.
  - reflexivity.
  - discriminate.
  - cbn zeta. split; [exact Hscript|]. split; [exact Hstep|].
    split; [exact Hmetadata | exact Hprocessing].
Defined.

(** X9: when the research call is rejected the run ends there: one request
    was made, the failure is logged and announced, and the state is the one
    before the run except that the step is [RESEARCH] and [isProcessing] is
    false; whatever an earlier run left in [research], [script], [metadata]
    and [thumbnail] is still there. *)
Theorem research_failure_keeps_earlier_results :
  forall (svc : Service) (w : World) (reason : string),
    topic (app w) <> "" ->
    svc (clock w) (ResearchCall (topic (app w))) = Rejects reason ->
    let r := startWorkflow svc w in
    outcome r = Ok tt
    /\ events r
       = [Published start_update;
          Called (ResearchCall (topic (app w))) (Rejects reason);
          ConsoleError "Workflow failed" (Rejected reason);
          Alert failureNotice;
          Published (processing_update false)]
    /\ final r
       = {| app := {| currentStep := RESEARCH;
                      topic := topic (app w);
                      length := length (app w);
                      research := research (app w);
                      script := script (app w);
                      metadata := metadata (app w);
                      thumbnail := thumbnail (app w);
                      isProcessing := false |};
            clock := S (clock w) |}.
Proof.
  intros svc w reason Htopic Hresearch.
  cbn zeta. rewrite (startWorkflow_run svc w Htopic). cbn.
  unfold attempt, stages. unfold_monad.
  rewrite performResearch_run. cbn. rewrite Hresearch. cbn.
  repeat split.
Qed.

Lemma research_failure_keeps_earlier_results_witness :
  let r := startWorkflow (Sample.failing_at 7 2) Sample.finished in
  research (app (final r)) = research (app Sample.finished)
  /\ script (app (final r)) = script (app Sample.finished)
  /\ currentStep (app (final r)) = RESEARCH.
Proof.
  pose proof (research_failure_keeps_earlier_results
                (Sample.failing_at 7 2) Sample.finished "503") as H.
  cbn zeta in *.
  destruct H as (_ & _ & ->); [discriminate | reflexivity |].
  repeat split.
Defined.

(** ** What every run leaves behind *)

Lemma steps_app (es es' : list Event) :
  steps (es ++ es')%list = (steps es ++ steps es')%list.
Proof. now rewrite !steps_marks, marks_app, entered_app. Qed.

Lemma last_default {A : Type} (l : list A) (x d d' : A) :
  last (x :: l) d = last (x :: l) d'.
Proof.
  revert x. induction l as [|y l IH]; intros x; [reflexivity|].
  change (last (y :: l) d = last (y :: l) d'). apply IH.
Qed.

Lemma last_cons {A : Type} (x : A) (l : list A) (d : A) :
  last (x :: l) d = last l x.
Proof.
  destruct l as [|y l]; [reflexivity|].
  change (last (y :: l) d = last (y :: l) x). apply last_default.
Qed.

Lemma last_app {A : Type} (l l' : list A) (d : A) :
  last (l ++ l')%list d = last l' (last l d).
Proof.
  revert d. induction l as [|x l IH]; intros d; [reflexivity|].
  change ((x :: l) ++ l')%list with (x :: (l ++ l'))%list.
  now rewrite !last_cons, IH.
Qed.

Lemma steady_bind {A B : Type} (m : M A) (k : A -> M B) (w : World) :
  steady w (m w) ->
  (forall a, outcome (m w) = Ok a -> steady (final (m w)) (k a (final (m w)))) ->
  steady w (bind m k w).
Proof.
  unfold steady, bind. intros (Ht & Hl & Hs) Hk.
  destruct (m w) as [[a|e] w1 es]; cbn [outcome final events] in *; [|tauto].
  destruct (Hk a eq_refl) as (Ht' & Hl' & Hs').
  rewrite final_after, events_after, steps_app, last_app.
  repeat split; congruence.
Qed.

Lemma silent_steady {A : Type} (w : World) (r : Run A) :
  app (final r) = app w -> steps (events r) = [] -> steady w r.
Proof. unfold steady. intros -> ->. repeat split. Qed.

Lemma updateState_steady (w : World) (updates : Partial) :
  new_topic updates = None -> new_length updates = None ->
  steady w (updateState updates w).
Proof.
  intros Ht Hl. unfold steady, updateState. cbn. rewrite Ht, Hl. cbn.
  repeat split. now destruct (new_currentStep updates).
Qed.

Lemma lift_steady {A : Type} (x : Result A) (w : World) : steady w (lift x w).
Proof. apply silent_steady; destruct x; reflexivity. Qed.

Lemma quiet_steady {A : Type} (w : World) (r : Run A) : quiet w r -> steady w r.
Proof.
  intros ((Hs & Ht & Hl & _) & k & _ & Hm & _). unfold steady.
  rewrite steps_marks, Hm, entered_asks. cbn. repeat split; congruence.
Qed.

Section Steady.

Variable svc : Service.

Lemma client_steady (w : World) :
  (forall topic, steady w (performResearch svc topic w))
  /\ (forall research length, steady w (generateScript svc research length w))
  /\ (forall script, steady w (generateMetadata svc script w))
  /\ (forall script, steady w (generateThumbnailContent svc script w)).
Proof.
  unfold performResearch, generateScript, generateMetadata, generateThumbnailContent,
    generateImage, generateContent.
  unfold_monad.
  repeat split; intros; apply silent_steady; run; reflexivity.
Qed.

Lemma stages_steady (state : AppState) (w : World) : steady w (stages svc state w).
Proof.
  unfold stages.
  repeat (apply steady_bind;
          [ first [ apply updateState_steady; reflexivity
                  | apply lift_steady
                  | apply client_steady ]
          | intros ? _ ]).
  apply (lift_steady (Ok _)).
Qed.

Lemma images_steady (scriptData : Value) (w : World) : steady w (images svc scriptData w).
Proof.
  unfold images.
  apply steady_bind; [apply updateState_steady; reflexivity | intros _ _].
  apply steady_bind; [apply lift_steady | intros paragraphs _].
  apply steady_bind; [apply lift_steady | intros updatedParagraphs _].
  apply steady_bind; [apply quiet_steady, image_loop_quiet | intros _ _].
  apply (lift_steady (Ok tt)).
Qed.

Lemma attempt_steady (state : AppState) (w : World) : steady w (attempt svc state w).
Proof.
  unfold attempt. apply steady_bind; [apply stages_steady | intros scriptData _].
  apply images_steady.
Qed.

(** A run that starts makes the whole of an itinerary unless it is aborted. *)
Lemma complete_run_marks (w : World) :
  topic (app w) <> "" ->
  ~ aborted (events (startWorkflow svc w)) ->
  exists k, marks (events (startWorkflow svc w)) = itinerary k.
Proof.
  intros Htopic Hrun.
  rewrite (marks_of_run svc w Htopic).
  rewrite (startWorkflow_run svc w Htopic) in Hrun. cbn in Hrun.
  destruct (attempt_run svc (app w)
              {| app := merge (app w) start_update; clock := clock w |})
    as (_ & _ & k & H).
  destruct (outcome (attempt svc (app w) _)).
  - rewrite H. now exists k.
  - exfalso. apply Hrun. exists failureNotice. right.
    apply in_or_app. right. cbn. auto.
Qed.

Lemma startWorkflow_steady (w : World) : steady w (startWorkflow svc w).
Proof.
  destruct (String.eqb (topic (app w)) "") eqn:E.
  - apply String.eqb_eq in E. rewrite (startWorkflow_idle svc w E).
    apply silent_steady; reflexivity.
  - apply nonempty_topic in E. rewrite (startWorkflow_run svc w E).
    destruct (attempt_steady (app w)
                {| app := merge (app w) start_update; clock := clock w |})
      as (Ht & Hl & Hs).
    unfold steady. cbn [final events app outcome] in *.
    cbn [merge processing_update start_update new_topic new_length new_currentStep
         override topic length currentStep] in *.
    split; [exact Ht|]. split; [exact Hl|].
    rewrite Hs. cbn [steps new_currentStep start_update].
    rewrite last_cons, !steps_app.
    replace (steps (match outcome (attempt svc (app w) _) with
                    | Ok _ => []
                    | Throw e => [ConsoleError "Workflow failed" e; Alert failureNotice]
                    end)) with (@nil AppStep) by (destruct (outcome _); reflexivity).
    cbn [steps new_currentStep processing_update]. now rewrite !app_nil_r.
Qed.

End Steady.

Lemma alerts_app (es es' : list Event) :
  alerts (es ++ es')%list = (alerts es ++ alerts es')%list.
Proof.
  induction es as [|e es IH]; cbn; [reflexivity|].
  destruct e; cbn; now rewrite ?IH.
Qed.

Lemma alerts_none (es : list Event) : ~ aborted es -> alerts es = [].
Proof.
  unfold aborted. induction es as [|e es IH]; intros H; [reflexivity|].
  destruct e; cbn;
    try (apply IH; intros [m Hm]; apply H; exists m; now right).
  exfalso. apply H. exists message. now left.
Qed.

(** X7: [startWorkflow] never throws, whatever the service does; it never
    changes [topic] or [length]; once it has started (the topic is not
    empty) it ends with [isProcessing] false; it raises at most one alert,
    the failure notice, and only after it logged that the workflow failed. *)
Theorem startWorkflow_always_settles :
  forall (svc : Service) (w : World),
    let r := startWorkflow svc w in
    outcome r = Ok tt
    /\ topic (app (final r)) = topic (app w)
    /\ length (app (final r)) = length (app w)
    /\ (topic (app w) <> "" -> isProcessing (app (final r)) = false)
    /\ (alerts (events r) = [] \/ alerts (events r) = [failureNotice])
    /\ (aborted (events r) ->
        exists e before later,
          events r = (before ++ ConsoleError "Workflow failed" e
                             :: Alert failureNotice :: later)%list).
Proof.
  intros svc w. cbn zeta.
  destruct (startWorkflow_steady svc w) as (Ht & Hl & _).
  split; [|split; [exact Ht | split; [exact Hl|]]].
  - destruct (String.eqb (topic (app w)) "") eqn:E.
    + apply String.eqb_eq in E. now rewrite (startWorkflow_idle svc w E).
    + apply nonempty_topic in E. now rewrite (startWorkflow_run svc w E).
  - destruct (String.eqb (topic (app w)) "") eqn:E.
    + apply String.eqb_eq in E. rewrite (startWorkflow_idle svc w E). cbn.
      split; [contradiction|]. split; [now left|].
      intros [m []].
    + apply nonempty_topic in E. rewrite (startWorkflow_run svc w E).
      cbn [final events app]. split; [reflexivity|].
      destruct (attempt_run svc (app w)
                  {| app := merge (app w) start_update; clock := clock w |})
        as (Hquiet & _).
      cbn zeta in Hquiet. pose proof (alerts_none _ Hquiet) as Hnone.
      cbn [alerts]. rewrite !alerts_app, Hnone.
      destruct (outcome (attempt svc (app w) _)) as [u|e]; cbn.
      * split; [now left|].
        intros [m [Hm|Hm]]; [discriminate Hm|].
        apply in_app_or in Hm. destruct Hm as [Hm|[Hm|[]]]; [|discriminate Hm].
        exfalso. apply Hquiet. now exists m.
      * split; [now right|]. intros _.
        exists e. eexists (Published start_update :: _), [Published (processing_update false)].
        cbn. reflexivity.
Qed.

Lemma last_in {A : Type} (l : list A) (x d : A) : In (last (x :: l) d) (x :: l).
Proof.
  revert x. induction l as [|y l IH]; intros x; [now left|].
  right. change (In (last (y :: l) d) (y :: l)). apply IH.
Qed.

(** X8: the step a run leaves as current is the last one it entered (the
    one before the run when it entered none): a failure does not bring the
    user back to the input step.  A run that started rests on one of
    RESEARCH, SCRIPT, METADATA, THUMBNAIL, IMAGES, and on IMAGES when it was
    not aborted. *)
Theorem run_rests_on_the_last_step_entered :
  forall (svc : Service) (w : World),
    let r := startWorkflow svc w in
    currentStep (app (final r)) = last (steps (events r)) (currentStep (app w))
    /\ (topic (app w) <> "" ->
        In (currentStep (app (final r))) [RESEARCH; SCRIPT; METADATA; THUMBNAIL; IMAGES])
    /\ (topic (app w) <> "" -> ~ aborted (events r) ->
        currentStep (app (final r)) = IMAGES).
Proof.
  intros svc w. cbn zeta.
  destruct (startWorkflow_steady svc w) as (_ & _ & Hs).
  split; [exact Hs|]. rewrite Hs. split.
  - intros Htopic.
    destruct (marks_within_itinerary svc w) as [k Hk].
    pose proof (marks_of_run svc w Htopic) as Hfirst.
    rewrite steps_marks.
    apply (initial_segment_map entered) in Hk; [|apply entered_app].
    unfold itinerary in Hk. rewrite entered_app, entered_asks in Hk.
    rewrite Hfirst in *. cbn [entered] in *.
    destruct Hk as [rest Hrest]. rewrite app_nil_r in Hrest. rewrite Hrest.
    apply in_or_app. left. apply last_in.
  - intros Htopic Hrun.
    destruct (complete_run_marks svc w Htopic Hrun) as [k Hk].
    rewrite steps_marks, Hk. unfold itinerary.
    rewrite entered_app, entered_asks. reflexivity.
Qed.

(** ** The retry of one image, at its edges *)

(** X10: [retryImage] does nothing at all when the state has no script (or
    a falsy one).  With an index past the end of the paragraphs it throws a
    [TypeError] at once: no request is made and nothing is published. *)
Theorem retry_out_of_range_is_refused :
  forall (svc : Service) (index : nat) (w : World),
    ((script (app w) = None
      \/ exists sc, script (app w) = Some sc /\ truthy sc = false) ->
     retryImage svc index w = {| outcome := Ok tt; final := w; events := [] |})
    /\ (forall sc ps props,
          script (app w) = Some sc ->
          truthy sc = true ->
          get_prop sc "paragraphs" = Ok (VArr ps props) ->
          List.length ps <= index ->
          retryImage svc index w
          = {| outcome := Throw TypeError; final := w; events := [] |}).
Proof.
  intros svc index w. split.
  - intros [Hnone | (sc & Hsc & Hfalsy)]; unfold retryImage; unfold_monad; cbn.
    + now rewrite Hnone.
    + now rewrite Hsc, Hfalsy.
  - intros sc ps props Hsc Htruthy Hps Hindex.
    unfold retryImage, set_at. unfold_monad. cbn.
    rewrite Hsc, Htruthy, Hps. cbn.
    unfold element. rewrite nth_overflow by assumption. reflexivity.
Qed.

Lemma retry_out_of_range_is_refused_witness :
  retryImage (Sample.helpful 2) 0 (Sample.world "cats")
  = {| outcome := Ok tt; final := Sample.world "cats"; events := [] |}
  /\ retryImage (Sample.helpful 2) 2 Sample.finished
     = {| outcome := Throw TypeError; final := Sample.finished; events := [] |}.
Proof.
  split.
  - apply (retry_out_of_range_is_refused (Sample.helpful 2) 0 (Sample.world "cats")).
    left. reflexivity.
  - eapply (retry_out_of_range_is_refused (Sample.helpful 2) 2 Sample.finished);
      [reflexivity | reflexivity | reflexivity | cbn; lia].
Defined.

(** X11: whatever the index and the state, [retryImage] changes nothing of
    the state but [script] (in particular neither [isProcessing] nor
    [currentStep]), raises no alert, and makes at most one request, which is
    an image request. *)
Theorem retry_touches_only_the_script :
  forall (svc : Service) (index : nat) (w : World),
    let r := retryImage svc index w in
    frame (app w) (app (final r))
    /\ ~ aborted (events r)
    /\ (calls (events r) = [] \/ exists prompt, calls (events r) = [ImageCall prompt])
    /\ clock (final r) = clock w + List.length (calls (events r)).
Proof.
  intros svc index w. cbn zeta. split; [apply retryImage_frame|].
  unfold retryImage, set_at, generateImage, generateContent. unfold_monad.
  run; (split; [no_alert|]); cbn;
    (split; [first [now left | right; eexists; reflexivity] | lia]).
Qed.

(** ** A script without paragraphs *)

(** X13: when the four stages went through and the script has no
    [paragraphs], the image stage is entered and fails at once with a
    [TypeError] (nothing can be spread): no image is asked for, the run is
    aborted with the failure notice, and the state keeps what the stages
    stored, resting on the step IMAGES with [isProcessing] false. *)
Theorem script_without_paragraphs_aborts_at_images :
  forall (svc : Service) (w : World) (scriptData : Value),
    topic (app w) <> "" ->
    let started := {| app := merge (app w) start_update; clock := clock w |} in
    let reached := stages svc (app w) started in
    outcome reached = Ok scriptData ->
    get_prop scriptData "paragraphs" = Ok VUndef ->
    let r := startWorkflow svc w in
    outcome r = Ok tt
    /\ events r
       = (Published start_update
          :: events reached
          ++ [Published (step_update IMAGES);
              ConsoleError "Workflow failed" TypeError;
              Alert failureNotice;
              Published (processing_update false)])%list
    /\ app (final r)
       = merge (merge (app (final reached)) (step_update IMAGES)) (processing_update false)
    /\ clock (final r) = clock w + 5.
Proof.
  intros svc w scriptData Htopic started reached Hreached Hmissing.
  assert (Hclock : clock (final reached) = clock w + 5).
  { destruct (stages_progress svc (app w) started) as (_ & _ & H).
    fold reached in H. rewrite Hreached in H. apply H. }
  cbn zeta. rewrite (startWorkflow_run svc w Htopic). cbn zeta. fold started.
  unfold attempt, bind. fold reached.
  destruct reached as [o w1 es]. cbn [outcome final events] in *. subst o.
  unfold images. unfold_monad. cbn. rewrite Hmissing. cbn.
  rewrite <- !app_assoc. cbn.
  split; [reflexivity|]. split; [reflexivity|]. split; [reflexivity | exact Hclock].
Qed.

Lemma script_without_paragraphs_aborts_at_images_witness :
  let r := startWorkflow Sample.without_paragraphs (Sample.world "cats") in
  currentStep (app (final r)) = IMAGES
  /\ isProcessing (app (final r)) = false
  /\ script (app (final r)) = Some (VObj [("ttsScript", VStr "tts")])
  /\ clock (final r) = 5.
Proof.
  destruct (script_without_paragraphs_aborts_at_images
              Sample.without_paragraphs (Sample.world "cats")
              (VObj [("ttsScript", VStr "tts")]))
    as (_ & _ & Happ & Hclock).
  - discriminate.
  - vm_compute. reflexivity.
  - reflexivity.
  - cbn zeta. rewrite Happ.
    split; [reflexivity|]. split; [reflexivity|]. split; [reflexivity | exact Hclock].
Defined.

(** ** Runs that go through *)

Section Completed.

Variable svc : Service.

(** A stretch that leaves [script] alone. *)
Lemma client_app_thumbnail (script : Value) (w : World) :
  app (final (generateThumbnailContent svc script w)) = app w.
Proof.
  unfold generateThumbnailContent, generateImage, generateContent.
  unfold_monad. run; reflexivity.
Qed.

(** When the four stages go through, the state holds the script they
    return. *)
Lemma stages_script (state : AppState) (w : World) (scriptData : Value) :
  outcome (stages svc state w) = Ok scriptData ->
  script (app (final (stages svc state w))) = Some scriptData.
Proof.
  unfold stages, bind.
  destruct (performResearch svc (topic state) w) as [[research|e] w1 es1];
    [|discriminate].
  cbn [updateState outcome final events after app clock].
  pose proof (client_app svc
                {| app := merge (merge (app w1) (research_update research)) (step_update SCRIPT);
                   clock := clock w1 |}) as (_ & Hscript & _).
  specialize (Hscript (report research) (length state)).
  destruct (generateScript svc (report research) (length state) _) as [[sd|e] w2 es2];
    cbn [outcome final events after app clock] in *; [|discriminate].
  destruct (get_prop sd "ttsScript") as [tts|e];
    cbn [lift ret throw outcome final events after app clock] in *; [|discriminate].
  match goal with
  | |- context [generateMetadata svc tts ?x] =>
      pose proof (client_app svc x) as (_ & _ & Hmetadata);
      specialize (Hmetadata tts);
      destruct (generateMetadata svc tts x) as [[metadata|e] w4 es4];
      cbn [outcome final events after app clock] in *; [|discriminate]
  end.
  match goal with
  | |- context [generateThumbnailContent svc tts ?x] =>
      pose proof (client_app_thumbnail tts x) as Hthumbnail;
      destruct (generateThumbnailContent svc tts x) as [[thumbnail|e] w6 es6];
      cbn [outcome final events after app clock] in *; [|discriminate]
  end.
  intros H. inversion H; subst. cbn. rewrite Hthumbnail. cbn.
  rewrite Hmetadata. reflexivity.
Qed.

Lemma stages_rest_on_thumbnail (state : AppState) (w : World) (scriptData : Value) :
  outcome (stages svc state w) = Ok scriptData ->
  currentStep (app (final (stages svc state w))) = THUMBNAIL
  /\ clock (final (stages svc state w)) = clock w + 5.
Proof.
  intros H.
  destruct (stages_steady svc state w) as (_ & _ & Hs).
  destruct (stages_progress svc state w) as (_ & _ & Hm).
  rewrite H in Hm. destruct Hm as [Hm Hc].
  rewrite Hs, steps_marks, Hm. split; [reflexivity | exact Hc].
Qed.

Lemma images_rest_on_images (scriptData : Value) (w : World) :
  currentStep (app (final (images svc scriptData w))) = IMAGES.
Proof.
  destruct (images_steady svc scriptData w) as (_ & _ & Hs).
  destruct (images_run svc scriptData w) as ([k Hk] & _).
  rewrite Hs, steps_marks, Hk. cbn [entered].
  now rewrite last_cons, entered_asks.
Qed.

(** A run whose stages went through, over paragraph objects with string
    prompts: it is not aborted, and the state holds the settled
    paragraphs. *)
Lemma completed_run (w : World) (scriptData : Value) (ps : list Value) (props : Fields) :
  topic (app w) <> "" ->
  let started := {| app := merge (app w) start_update; clock := clock w |} in
  let reached := stages svc (app w) started in
  outcome reached = Ok scriptData ->
  get_prop scriptData "paragraphs" = Ok (VArr ps props) ->
  Forall scene ps ->
  let r := startWorkflow svc w in
  outcome r = Ok tt
  /\ ~ aborted (events r)
  /\ currentStep (app (final r)) = IMAGES
  /\ isProcessing (app (final r)) = false
  /\ paragraphs_of (app (final r)) = settle_from svc (clock w + 5) ps
  /\ (exists sc, script (app (final r)) = Some sc
                 /\ get_prop sc "paragraphs"
                    = Ok (VArr (settle_from svc (clock w + 5) ps)
                               (if Nat.eqb (List.length ps) 0 then props else []))).
Proof.
  intros Htopic started reached Hreached Hps Hscenes r.
  destruct (stages_rest_on_thumbnail (app w) started scriptData Hreached) as [_ Hclock].
  pose proof (stages_script (app w) started scriptData Hreached) as Hstored.
  fold reached in Hclock, Hstored.
  destruct (images_scenes svc scriptData ps props (final reached) Hps Hscenes)
    as (Hout & Ha & _ & _ & _ & _ & _ & Hscript).
  pose proof (images_rest_on_images scriptData (final reached)) as Hstep.
  assert (Hblock : attempt svc (app w) started
                   = after (events reached) (images svc scriptData (final reached))).
  { unfold attempt, bind. fold reached.
    destruct reached as [o w1 es]. cbn in Hreached. now subst o. }
  subst r. rewrite (startWorkflow_run svc w Htopic). cbn zeta. fold started.
  rewrite Hblock, outcome_after, final_after, events_after, Hout.
  cbn [outcome final events app].
  split; [reflexivity|]. split.
  { intros [m [Hm'|Hm']]; [discriminate Hm'|].
    rewrite app_nil_l in Hm'.
    apply in_app_or in Hm'. destruct Hm' as [Hm'|[Hm'|[]]]; [|discriminate Hm'].
    apply in_app_or in Hm'. destruct Hm' as [Hm'|Hm'].
    - apply (stages_progress svc (app w) started). now exists m.
    - apply Ha. now exists m. }
  split; [exact Hstep|]. split; [reflexivity|].
  unfold paragraphs_of.
  cbn [script merge processing_update new_script override_opt].
  destruct ps as [|p ps].
  - assert (Hsame : script (app (final (images svc scriptData (final reached))))
                    = script (app (final reached))).
    { unfold images. unfold_monad. cbn. rewrite Hps. reflexivity. }
    rewrite Hsame, Hstored. cbn [List.length Nat.eqb settle_from].
    assert (Hown : own scriptData "paragraphs" = Some (VArr [] props)).
    { destruct scriptData; cbn in Hps |- *; try discriminate;
        match goal with
        | |- lookup ?k ?l = _ => destruct (lookup k l); cbn in Hps; now inversion Hps
        end. }
    rewrite Hown. split; [reflexivity|]. now exists scriptData.
  - rewrite Hscript by discriminate. rewrite Hclock.
    unfold spread_with. cbn [own own_properties get_prop List.length Nat.eqb].
    rewrite lookup_assign_same. split; [reflexivity|].
    eexists. split; [reflexivity|]. cbn [get_prop].
    now rewrite lookup_assign_same.
Qed.

End Completed.

(** ** Downloads *)

Lemma decimal_inj (a b : nat) : decimal a = decimal b -> a = b.
Proof.
  unfold decimal. intros H.
  assert (Hn : forall n, Nat.to_uint n <> Decimal.Nil).
  { intros n. rewrite <- (DecimalNat.Unsigned.of_to n).
    rewrite DecimalNat.Unsigned.to_of. apply DecimalFacts.unorm_nonnil. }
  apply DecimalNat.Unsigned.to_uint_inj.
  pose proof (NilZero.usu _ (Hn a)) as Ha.
  pose proof (NilZero.usu _ (Hn b)) as Hb.
  rewrite H in Ha. congruence.
Qed.

Lemma append_length (s t : string) :
  String.length (s ++ t) = String.length s + String.length t.
Proof. induction s as [|c s IH]; cbn; auto. Qed.

Lemma append_cancel_r (s s' t : string) : s ++ t = s' ++ t -> s = s'.
Proof.
  revert s'. induction s as [|c s IH]; intros [|c' s'] H; cbn in H.
  - reflexivity.
  - apply (f_equal String.length) in H. cbn in H. rewrite append_length in H. lia.
  - apply (f_equal String.length) in H. cbn in H. rewrite append_length in H. lia.
  - inversion H; subst. f_equal. now apply IH.
Qed.

Lemma sceneFile_inj (i j : nat) : sceneFile i = sceneFile j -> i = j.
Proof.
  unfold sceneFile. intros H. cbn in H.
  inversion H as [H']. apply append_cancel_r in H'. apply decimal_inj in H'. lia.
Qed.

Lemma download_each_picks (ps : list Value) :
  forall idx,
    exists picks,
      dom (download_each idx ps) = downloads_of picks
      /\ Forall (fun pick =>
                   idx <= fst pick < idx + List.length ps
                   /\ truthy (snd pick) = true
                   /\ get_prop (element ps (fst pick - idx)) "imageUrl" = Ok (snd pick))
                picks
      /\ StronglySorted lt (map fst picks)
      /\ (thrown (download_each idx ps) = None ->
          forall j url,
            j < List.length ps ->
            get_prop (element ps j) "imageUrl" = Ok url ->
            truthy url = true ->
            In (idx + j, url) picks).
Proof.
  induction ps as [|p ps IH]; intros idx.
  - exists []. cbn. repeat split; try constructor. intros _ j url Hj. lia.
  - cbn [download_each].
    destruct (get_prop p "imageUrl") as [imageUrl|e] eqn:Eurl.
    2:{ exists []. cbn. repeat split; try constructor. discriminate. }
    destruct (IH (S idx)) as (picks & Hdom & Hall & Hsorted & Hcomplete).
    assert (Hlater : Forall (fun pick =>
                               idx <= fst pick < idx + List.length (p :: ps)
                               /\ truthy (snd pick) = true
                               /\ get_prop (element (p :: ps) (fst pick - idx)) "imageUrl"
                                  = Ok (snd pick)) picks).
    { eapply Forall_impl; [|exact Hall]. cbn [List.length].
      intros [k url] (Hk & Ht & Hu). cbn [fst snd] in *.
      split; [lia|]. split; [exact Ht|].
      replace (k - idx) with (S (k - S idx)) by lia. exact Hu. }
    assert (Hbound : Forall (lt idx) (map fst picks)).
    { rewrite Forall_map. eapply Forall_impl; [|exact Hall].
      intros [k url] (Hk & _). cbn in *. lia. }
    cbn [dom thrown]. rewrite Hdom.
    destruct (truthy imageUrl) eqn:Et.
    + exists ((idx, imageUrl) :: picks). split; [reflexivity|]. split; [|split].
      * constructor; [|exact Hlater]. cbn [fst snd List.length].
        split; [lia|]. split; [exact Et|]. now rewrite Nat.sub_diag.
      * cbn [map fst]. now constructor.
      * intros Hthrown [|j] url Hj Hurl Htruthy.
        -- left. rewrite Nat.add_0_r. unfold element in Hurl. cbn in Hurl. congruence.
        -- right. rewrite Nat.add_succ_r. apply (Hcomplete Hthrown j url).
           ++ cbn in Hj. lia.
           ++ exact Hurl.
           ++ exact Htruthy.
    + exists picks. split; [reflexivity|]. split; [exact Hlater|]. split; [exact Hsorted|].
      intros Hthrown [|j] url Hj Hurl Htruthy.
      * unfold element in Hurl. cbn in Hurl. congruence.
      * rewrite Nat.add_succ_r. apply (Hcomplete Hthrown j url).
        -- cbn in Hj. lia.
        -- exact Hurl.
        -- exact Htruthy.
Qed.

Lemma sorted_names (picks : list (nat * Value)) :
  StronglySorted lt (map fst picks) ->
  NoDup (map (fun pick => sceneFile (fst pick)) picks).
Proof.
  induction picks as [|[k url] picks IH]; cbn; intros H; constructor.
  - inversion H as [|? ? _ Hlt]; subst.
    rewrite in_map_iff. intros ([k' url'] & Hname & Hin). cbn in Hname.
    apply sceneFile_inj in Hname. subst k'.
    rewrite Forall_forall in Hlt.
    assert (k < k); [|lia]. apply Hlt. rewrite in_map_iff. now exists (k, url').
  - apply IH. now inversion H.
Qed.

(** X14: whatever the state, what [downloadAllImages] does to the document
    is a sequence of whole downloads (every link put in the body is clicked
    and taken out again), one for some of the paragraphs, in their order:
    each for a paragraph whose [imageUrl] is truthy, pointing to that url and
    saved under the number of the paragraph.  No two downloads have the same
    file name, and a paragraph without image leaves a gap in the numbers.
    When no exception stops the loop, every paragraph with a truthy url is
    downloaded.  Without a script nothing happens. *)
Theorem downloads_keep_scene_numbers :
  forall (state : AppState),
    let done := downloadAllImages state in
    (exists picks,
        dom done = downloads_of picks
        /\ Forall (fun pick =>
                     fst pick < List.length (paragraphs_of state)
                     /\ truthy (snd pick) = true
                     /\ get_prop (element (paragraphs_of state) (fst pick)) "imageUrl"
                        = Ok (snd pick))
                  picks
        /\ StronglySorted lt (map fst picks)
        /\ NoDup (map (fun pick => sceneFile (fst pick)) picks)
        /\ (thrown done = None ->
            forall j url,
              j < List.length (paragraphs_of state) ->
              get_prop (element (paragraphs_of state) j) "imageUrl" = Ok url ->
              truthy url = true ->
              In (j, url) picks))
    /\ (script state = None -> done = {| dom := []; thrown := None |}).
Proof.
  intros state done. subst done. split.
  2:{ unfold downloadAllImages. now intros ->. }
  unfold downloadAllImages, paragraphs_of.
  destruct (script state) as [sc|]; cbn [dom thrown].
  2:{ exists []. repeat split; try constructor. cbn. intros _ j url Hj. lia. }
  destruct sc as [| | | | |es props|fs]; cbn [get_prop own array_receiver dom thrown];
    try (exists []; repeat split; try constructor; cbn; first [discriminate | intros _ j url Hj; lia]).
  - destruct (lookup "paragraphs" props) as [[| | | | |ps props'|]|];
      cbn [or_undefined array_receiver dom thrown];
      try (exists []; repeat split; try constructor; cbn; discriminate).
    destruct (lookup "forEach" props');
      cbn [dom thrown];
      [exists []; repeat split; try constructor; cbn; discriminate|].
    destruct (download_each_picks ps 0) as (picks & Hdom & Hall & Hsorted & Hcomplete).
    exists picks. split; [exact Hdom|]. split; [|split; [exact Hsorted|split]].
    + eapply Forall_impl; [|exact Hall]. intros [k url] ((_ & Hk) & Ht & Hu).
      cbn [fst snd] in *. rewrite Nat.sub_0_r in Hu. auto.
    + now apply sorted_names.
    + exact Hcomplete.
  - destruct (lookup "paragraphs" fs) as [[| | | | |ps props'|]|];
      cbn [or_undefined array_receiver dom thrown];
      try (exists []; repeat split; try constructor; cbn; discriminate).
    destruct (lookup "forEach" props');
      cbn [dom thrown];
      [exists []; repeat split; try constructor; cbn; discriminate|].
    destruct (download_each_picks ps 0) as (picks & Hdom & Hall & Hsorted & Hcomplete).
    exists picks. split; [exact Hdom|]. split; [|split; [exact Hsorted|split]].
    + eapply Forall_impl; [|exact Hall]. intros [k url] ((_ & Hk) & Ht & Hu).
      cbn [fst snd] in *. rewrite Nat.sub_0_r in Hu. auto.
    + now apply sorted_names.
    + exact Hcomplete.
Qed.

Lemma downloads_keep_scene_numbers_witness :
  exists picks,
    dom (downloadAllImages (app Sample.finished)) = downloads_of picks
    /\ In (1, VStr "data:image/png;base64,OLD") picks
    /\ NoDup (map (fun pick => sceneFile (fst pick)) picks).
Proof.
  destruct (downloads_keep_scene_numbers (app Sample.finished))
    as [(picks & Hdom & _ & _ & Hnames & Hcomplete) _].
  exists picks. split; [exact Hdom|]. split; [|exact Hnames].
  apply Hcomplete; [reflexivity | cbn; lia | reflexivity | reflexivity].
Defined.

Lemma downloads_of_app (picks picks' : list (nat * Value)) :
  downloads_of (picks ++ picks')%list = (downloads_of picks ++ downloads_of picks')%list.
Proof. apply flat_map_app. Qed.

Lemma download_each_settled (svc : Service) (ps : list Value) :
  Forall fresh_scene ps ->
  forall c idx,
    download_each idx (settle_from svc c ps)
    = {| dom := downloads_of (generated svc c idx ps); thrown := None |}.
Proof.
  induction ps as [|p ps IH]; intros Hall c idx; [reflexivity|].
  inversion Hall as [|? ? Hp Hrest]; subst.
  destruct Hp as (fs & shown & -> & Hprompt & Hurl & _).
  cbn [settle_from generated download_each settle_scene get_prop].
  rewrite lookup_settled_url, (IH Hrest), downloads_of_app. cbn [dom thrown].
  destruct (image_attempt svc c (prompt_of (VObj fs))) as [url|e]; cbn [or_undefined truthy].
  - destruct (String.eqb url ""); reflexivity.
  - rewrite Hurl. reflexivity.
Qed.

Lemma render_settled (svc : Service) (ps : list Value) :
  Forall fresh_scene ps ->
  forall c idx,
    map_from renderScene idx (settle_from svc c ps) = Ok (settled_cards svc c idx ps).
Proof.
  induction ps as [|p ps IH]; intros Hall c idx; [reflexivity|].
  inversion Hall as [|? ? Hp Hrest]; subst.
  destruct Hp as (fs & shown & -> & Hprompt & Hurl & _).
  cbn [settle_from settled_cards map_from settle_scene].
  rewrite (IH Hrest).
  unfold renderScene, settled_card. cbn [get_prop and_then own].
  rewrite lookup_settled_url, lookup_settled_flag.
  rewrite lookup_settled_other by discriminate.
  destruct (image_attempt svc c (prompt_of (VObj fs))) as [url|e]; cbn [or_undefined truthy].
  - destruct (String.eqb url ""); reflexivity.
  - rewrite Hurl. reflexivity.
Qed.

(** X15: after a run that went through with a script of the requested
    shape, [downloadAllImages] saves exactly the images the run generated:
    one download for each paragraph whose attempt returned a url that is not
    empty, pointing to that url and saved under the number of the paragraph,
    in the order of the paragraphs; it throws nothing. *)
Theorem download_all_saves_what_was_generated :
  forall (svc : Service) (w : World) (scriptData : Value) (ps : list Value),
    topic (app w) <> "" ->
    let started := {| app := merge (app w) start_update; clock := clock w |} in
    let reached := stages svc (app w) started in
    outcome reached = Ok scriptData ->
    conforms scriptSchema scriptData = true ->
    own scriptData "paragraphs" = Some (VArr ps []) ->
    let r := startWorkflow svc w in
    downloadAllImages (app (final r))
    = {| dom := downloads_of (generated svc (clock w + 5) 0 ps); thrown := None |}.
Proof.
  intros svc w scriptData ps Htopic started reached Hreached Hshape Hps r.
  destruct (conforms_script scriptData ps [] Hshape Hps) as ([sf ->] & _ & Hfresh).
  assert (Hscenes : Forall scene ps).
  { eapply Forall_impl; [|exact Hfresh]. apply fresh_scene_scene. }
  assert (Hget : get_prop (VObj sf) "paragraphs" = Ok (VArr ps [])).
  { cbn in *. now rewrite Hps. }
  destruct (completed_run svc w (VObj sf) ps [] Htopic Hreached Hget Hscenes)
    as (_ & _ & _ & _ & _ & sc & Hsc & Hparagraphs).
  fold r in Hsc. unfold downloadAllImages. rewrite Hsc.
  assert (Harray : (if Nat.eqb (List.length ps) 0 then @nil (string * Value) else []) = [])
    by (destruct (Nat.eqb _ _); reflexivity).
  rewrite Harray in Hparagraphs.
  destruct sc; try discriminate Hparagraphs;
    rewrite Hparagraphs; cbn [array_receiver lookup];
    now apply download_each_settled.
Qed.

Lemma download_all_saves_what_was_generated_witness :
  let r := startWorkflow (Sample.failing_at 6 3) (Sample.world "cats") in
  downloadAllImages (app (final r))
  = {| dom := (downloadImage (VStr "data:image/png;base64,AAAA") "scene_1.png"
               ++ downloadImage (VStr "data:image/png;base64,AAAA") "scene_3.png")%list;
       thrown := None |}.
Proof.
  cbn zeta.
  rewrite (download_all_saves_what_was_generated
             (Sample.failing_at 6 3) (Sample.world "cats")
             (Sample.scriptOf 3) (map Sample.paragraph (seq 1 3))).
  - reflexivity.
  - discriminate.
  - vm_compute. reflexivity.
  - vm_compute. reflexivity.
  - reflexivity.
Defined.

(** X19: after a run that went through with a script of the requested
    shape, the run rests on the images step and that step renders: one card
    per paragraph, in order, numbered from 1; a card shows the image of its
    paragraph exactly when the attempt returned a url that is not empty, and
    the idle placeholder otherwise; no card is left spinning. *)
Theorem images_step_after_a_run :
  forall (svc : Service) (w : World) (scriptData : Value) (ps : list Value),
    topic (app w) <> "" ->
    let started := {| app := merge (app w) start_update; clock := clock w |} in
    let reached := stages svc (app w) started in
    outcome reached = Ok scriptData ->
    conforms scriptSchema scriptData = true ->
    own scriptData "paragraphs" = Some (VArr ps []) ->
    let r := startWorkflow svc w in
    renderCurrentStep (app (final r))
    = Ok (ImagesStep (Some (settled_cards svc (clock w + 5) 0 ps))).
Proof.
  intros svc w scriptData ps Htopic started reached Hreached Hshape Hps r.
  destruct (conforms_script scriptData ps [] Hshape Hps) as ([sf ->] & _ & Hfresh).
  assert (Hscenes : Forall scene ps).
  { eapply Forall_impl; [|exact Hfresh]. apply fresh_scene_scene. }
  assert (Hget : get_prop (VObj sf) "paragraphs" = Ok (VArr ps [])).
  { cbn in *. now rewrite Hps. }
  destruct (completed_run svc w (VObj sf) ps [] Htopic Hreached Hget Hscenes)
    as (_ & _ & Hstep & _ & _ & sc & Hsc & Hparagraphs).
  fold r in Hsc, Hstep. unfold renderCurrentStep, renderImages. rewrite Hstep, Hsc.
  assert (Harray : (if Nat.eqb (List.length ps) 0 then @nil (string * Value) else []) = [])
    by (destruct (Nat.eqb _ _); reflexivity).
  rewrite Harray in Hparagraphs.
  destruct sc; try discriminate Hparagraphs;
    rewrite Hparagraphs; cbn [array_receiver lookup and_then];
    now rewrite render_settled.
Qed.

Lemma images_step_after_a_run_witness :
  let r := startWorkflow (Sample.failing_at 6 3) (Sample.world "cats") in
  exists cards,
    renderCurrentStep (app (final r)) = Ok (ImagesStep (Some cards))
    /\ map face cards
       = [Picture (VStr "data:image/png;base64,AAAA") "Scene 1" false;
          Waiting false "이미지 준비 중";
          Picture (VStr "data:image/png;base64,AAAA") "Scene 3" false].
Proof.
  cbn zeta. eexists. split.
  - apply (images_step_after_a_run
             (Sample.failing_at 6 3) (Sample.world "cats")
             (Sample.scriptOf 3) (map Sample.paragraph (seq 1 3))).
    + discriminate.
    + vm_compute. reflexivity.
    + vm_compute. reflexivity.
    + reflexivity.
  - reflexivity.
Defined.

(** ** The views *)

Lemma string_of_type (v : Value) : conforms TString v = true -> exists s, v = VStr s.
Proof. destruct v; try discriminate. intros _. now exists s. Qed.

Lemma join_items_strings (sep : string) (es : list Value) :
  forallb (conforms TString) es = true ->
  forall first, exists line, join_items sep es first = Ok line.
Proof.
  induction es as [|e es IH]; intros H first; [now exists ""|].
  cbn [forallb] in H. apply andb_prop in H. destruct H as [He Hes].
  destruct (string_of_type e He) as [s ->].
  destruct (IH Hes false) as [line Hline].
  cbn [join_items]. rewrite Hline.
  change (ToString (VStr s)) with (@Ok string s). eexists. reflexivity.
Qed.

(** A list of strings, as the schemas declare them, can be mapped over and
    joined. *)
Lemma string_list (v : Value) :
  conforms (TArray TString) v = true ->
  exists es,
    v = VArr es []
    /\ (forall method, array_receiver v method = Ok es)
    /\ (forall sep, exists line, join_items sep es true = Ok line).
Proof.
  destruct v as [| | | | |es props|]; try discriminate.
  destruct props; [|discriminate]. cbn [conforms].
  intros H. exists es. split; [reflexivity|]. split; [reflexivity|].
  intros sep. now apply join_items_strings.
Qed.

Lemma optional_joined_list (fs : Fields) (k sep : string) (x : Value) :
  lookup k fs = Some x ->
  conforms (TArray TString) x = true ->
  exists line, optional_joined (Some (VObj fs)) k sep = Ok (VStr line).
Proof.
  intros Hk Hx. destruct (string_list x Hx) as (es & -> & _ & Hjoin).
  destruct (Hjoin sep) as [line Hline]. exists line.
  unfold optional_joined. cbn [get_prop and_then]. rewrite Hk.
  cbn [or_undefined array_receiver lookup and_then]. now rewrite Hline.
Qed.

Lemma optional_joined_missing (fs : Fields) (k sep : string) :
  lookup k fs = None -> optional_joined (Some (VObj fs)) k sep = Throw TypeError.
Proof.
  intros Hk. unfold optional_joined. cbn [get_prop and_then]. now rewrite Hk.
Qed.

(** X17: on the metadata step, with metadata of the shape the request asks
    for (which requires no property at all), the view can be built exactly
    when the metadata has both [hashtags] and [seoKeywords]; when one of them
    is missing, as in the empty object that stands for a response without
    text, building the view throws a [TypeError]. *)
Theorem metadata_step_needs_both_lists :
  forall (state : AppState) (m : Value),
    currentStep state = METADATA ->
    metadata state = Some m ->
    conforms metadataSchema m = true ->
    ((exists view, renderCurrentStep state = Ok view)
     <-> own m "hashtags" <> None /\ own m "seoKeywords" <> None)
    /\ (own m "hashtags" = None \/ own m "seoKeywords" = None ->
        renderCurrentStep state = Throw TypeError).
Proof.
  intros state m Hstep Hm Hshape.
  destruct m as [| | | | |es ps|fs]; try discriminate.
  unfold metadataSchema in Hshape. cbn [conforms forallb andb] in Hshape.
  apply andb_prop in Hshape. destruct Hshape as [_ Htypes].
  apply andb_prop in Htypes. destruct Htypes as [_ Htypes].
  apply andb_prop in Htypes. destruct Htypes as [_ Htypes].
  apply andb_prop in Htypes. destruct Htypes as [Hhashtags Htypes].
  apply andb_prop in Htypes. destruct Htypes as [Hkeywords _].
  unfold renderCurrentStep, renderMetadata. rewrite Hstep, Hm.
  cbn [own optional_prop get_prop and_then].
  destruct (lookup "hashtags" fs) as [hashtags|] eqn:Eh.
  2:{ rewrite (optional_joined_missing fs "hashtags" " " Eh). cbn [and_then].
      split; [|reflexivity].
      split; [intros [view Hview]; discriminate Hview | intros [H _]; now destruct H]. }
  destruct (optional_joined_list fs "hashtags" " " hashtags Eh Hhashtags) as [line ->].
  cbn [and_then].
  destruct (lookup "seoKeywords" fs) as [seoKeywords|] eqn:Ek.
  2:{ rewrite (optional_joined_missing fs "seoKeywords" ", " Ek). cbn [and_then].
      split; [|reflexivity].
      split; [intros [view Hview]; discriminate Hview | intros [_ H]; now destruct H]. }
  destruct (optional_joined_list fs "seoKeywords" ", " seoKeywords Ek Hkeywords) as [line' ->].
  cbn [and_then]. split.
  - split; [intros _; split; discriminate | intros _; eexists; reflexivity].
  - intros [H|H]; discriminate H.
Qed.

Lemma metadata_step_needs_both_lists_witness :
  renderCurrentStep Sample.emptyMetadata = Throw TypeError.
Proof.
  apply (metadata_step_needs_both_lists Sample.emptyMetadata (VObj []));
    [reflexivity | reflexivity | reflexivity | left; reflexivity].
Defined.

(** X18: on the thumbnail step, with a thumbnail whose suggestions were
    read from a copy object of the shape the request asks for (which requires
    no property at all), the view can be built exactly when the object has
    [copySuggestions] and these have both [type1] and [type2]; when the
    object has no [copySuggestions], as the empty object that stands for a
    response without text, building the view throws a [TypeError]. *)
Theorem thumbnail_step_needs_both_lists :
  forall (state : AppState) (t : ThumbnailData) (textData : Value),
    currentStep state = THUMBNAIL ->
    thumbnail state = Some t ->
    conforms thumbnailSchema textData = true ->
    get_prop textData "copySuggestions" = Ok (copySuggestions t) ->
    ((exists view, renderCurrentStep state = Ok view)
     <-> exists suggestions,
           own textData "copySuggestions" = Some suggestions
           /\ own suggestions "type1" <> None
           /\ own suggestions "type2" <> None)
    /\ (own textData "copySuggestions" = None ->
        renderCurrentStep state = Throw TypeError).
Proof.
  intros state t textData Hstep Ht Hshape Hread.
  destruct textData as [| | | | |es ps|fs]; try discriminate.
  unfold thumbnailSchema in Hshape. cbn [conforms forallb andb] in Hshape.
  apply andb_prop in Hshape. destruct Hshape as [_ Htypes].
  apply andb_prop in Htypes. destruct Htypes as [Hcopy _].
  unfold renderCurrentStep, renderThumbnail, renderSuggestions. rewrite Hstep, Ht.
  cbn [get_prop own] in *. inversion Hread as [Hcs]. clear Hread.
  destruct (lookup "copySuggestions" fs) as [suggestions|] eqn:Ec; cbn [or_undefined].
  2:{ cbn [get_prop and_then]. split; [|reflexivity].
      split; [intros [view Hview]; discriminate Hview | intros (s & Hs & _); discriminate Hs]. }
  destruct suggestions as [| | | | |es ps|cfs]; try discriminate Hcopy.
  cbn [conforms forallb andb] in Hcopy.
  apply andb_prop in Hcopy. destruct Hcopy as [_ Htypes].
  apply andb_prop in Htypes. destruct Htypes as [Htype1 Htypes].
  apply andb_prop in Htypes. destruct Htypes as [Htype2 _].
  cbn [get_prop own and_then].
  split; [|discriminate].
  destruct (lookup "type1" cfs) as [type1|] eqn:E1; cbn [or_undefined].
  2:{ cbn [array_receiver and_then].
      split; [intros [view Hview]; discriminate Hview|].
      intros (s & Hs & H1 & _). inversion Hs; subst. cbn in H1. now rewrite E1 in H1. }
  destruct (string_list type1 Htype1) as (es1 & _ & -> & _). cbn [and_then].
  destruct (lookup "type2" cfs) as [type2|] eqn:E2; cbn [or_undefined].
  2:{ cbn [array_receiver and_then].
      split; [intros [view Hview]; discriminate Hview|].
      intros (s & Hs & _ & H2). inversion Hs; subst. cbn in H2. now rewrite E2 in H2. }
  destruct (string_list type2 Htype2) as (es2 & _ & -> & _). cbn [and_then].
  split; [|intros _; eexists; reflexivity].
  intros _. eexists. split; [reflexivity|]. cbn [own]. rewrite E1, E2.
  split; discriminate.
Qed.

Lemma thumbnail_step_needs_both_lists_witness :
  renderCurrentStep Sample.emptyThumbnail = Throw TypeError.
Proof.
  apply (thumbnail_step_needs_both_lists
           Sample.emptyThumbnail
           {| pureImageUrl := Some ""; mockupImageUrl := None; copySuggestions := VUndef |}
           (VObj []));
    reflexivity.
Defined.

Lemma optional_prop_total (o : option Value) (k : string) :
  exists v, optional_prop o k = Ok v.
Proof.
  destruct o as [[]|]; cbn; eauto.
Qed.

(** X20: the input, research and script steps can be built in every state,
    and every step can be built as long as [script], [metadata] and
    [thumbnail] are unset.  The research step shows its placeholder exactly
    when there is no research or its report is empty, and lists the sources
    exactly when there are some; the script step shows a placeholder for each
    text that is missing or falsy. *)
Theorem steps_without_lists_always_render :
  forall (state : AppState),
    (currentStep state = INPUT \/ currentStep state = RESEARCH \/ currentStep state = SCRIPT ->
     exists view, renderCurrentStep state = Ok view)
    /\ (script state = None -> metadata state = None -> thumbnail state = None ->
        exists view, renderCurrentStep state = Ok view)
    /\ (reportBody (renderResearch state) = "조사 중입니다..."
        <-> (research state = None
             \/ exists r, research state = Some r
                          /\ (report r = "" \/ report r = "조사 중입니다...")))
    /\ (forall links,
          sourceLinks (renderResearch state) = Some links
          <-> exists r, research state = Some r /\ sources r = links /\ links <> [])
    /\ (exists view,
          renderScript state = Ok view
          /\ (rawBody view = VStr "대본 생성 중..."
              \/ truthy (rawBody view) = true
                 /\ optional_prop (script state) "rawScript" = Ok (rawBody view))
          /\ (ttsBody view = VStr "변환 중..."
              \/ truthy (ttsBody view) = true
                 /\ optional_prop (script state) "ttsScript" = Ok (ttsBody view))).
Proof.
  intros state.
  assert (Hscript : exists view,
             renderScript state = Ok view
             /\ (rawBody view = VStr "대본 생성 중..."
                 \/ truthy (rawBody view) = true
                    /\ optional_prop (script state) "rawScript" = Ok (rawBody view))
             /\ (ttsBody view = VStr "변환 중..."
                 \/ truthy (ttsBody view) = true
                    /\ optional_prop (script state) "ttsScript" = Ok (ttsBody view))).
  { unfold renderScript.
    destruct (optional_prop_total (script state) "rawScript") as [raw ->].
    destruct (optional_prop_total (script state) "ttsScript") as [tts ->].
    cbn [and_then]. eexists. split; [reflexivity|]. cbn [rawBody ttsBody]. unfold js_or.
    split.
    - destruct (truthy raw) eqn:E; [right; now split | now left].
    - destruct (truthy tts) eqn:E; [right; now split | now left]. }
  split; [|split; [|split; [|split; [|exact Hscript]]]].
  - unfold renderCurrentStep. intros [-> | [-> | ->]]; try (eexists; reflexivity).
    destruct Hscript as (view & -> & _). eexists. reflexivity.
  - intros Hs Hm Ht. unfold renderCurrentStep.
    destruct (currentStep state); try (eexists; reflexivity).
    + destruct Hscript as (view & -> & _). eexists. reflexivity.
    + unfold renderImages. rewrite Hs. eexists. reflexivity.
    + unfold renderMetadata, optional_joined. rewrite Hm. eexists. reflexivity.
    + unfold renderThumbnail, renderSuggestions. rewrite Ht. eexists. reflexivity.
  - unfold renderResearch. cbn [reportBody].
    destruct (research state) as [r|]; cbn [option_map or_else].
    + destruct (String.eqb (report r) "") eqn:E.
      * apply String.eqb_eq in E. split; [|reflexivity].
        intros _. right. exists r. split; [reflexivity | now left].
      * split.
        -- intros H. right. exists r. split; [reflexivity | now right].
        -- intros [H | (r' & Hr & [H | H])]; [discriminate H | |];
             inversion Hr; subst; [|exact H].
           rewrite H in E. discriminate E.
    + split; [now left | reflexivity].
  - intros links. unfold renderResearch. cbn [sourceLinks].
    destruct (research state) as [r|].
    + destruct (sources r) as [|source rest] eqn:Es; cbn [List.length Nat.ltb Nat.leb].
      * split; [discriminate|]. intros (r' & Hr & Hl & Hne). inversion Hr; subst.
        rewrite Es in Hne. now destruct Hne.
      * split.
        -- intros H. inversion H; subst. exists r. rewrite Es.
           split; [reflexivity|]. split; [reflexivity | discriminate].
        -- intros (r' & Hr & Hl & _). inversion Hr; subst. now rewrite Es.
    + split; [discriminate|]. intros (r' & Hr & _). discriminate Hr.
Qed.

(** ** The step navigation *)

Lemma AppStep_eqb_eq (a b : AppStep) : AppStep_eqb a b = true <-> a = b.
Proof. destruct a, b; cbn; split; intros H; try reflexivity; discriminate H. Qed.

Lemma merge_current_step (state : AppState) :
  merge state (step_update (currentStep state)) = state.
Proof. now destruct state. Qed.

(** X16: the navigation offers every step once, in the order of the
    declaration of [AppStep], and marks the current one.  When nothing is
    processing every button is enabled; while a run is processing the only
    button that is enabled is the one of the current step, so that a click
    the navigation accepts leaves the state as it is. *)
Theorem navigation_is_locked_while_processing :
  forall (state : AppState),
    let nav := renderStepNav state in
    map leads_to nav = [INPUT; RESEARCH; SCRIPT; IMAGES; METADATA; THUMBNAIL]
    /\ (forall button, In button nav ->
          (current button = true <-> leads_to button = currentStep state)
          /\ (isProcessing state = false -> disabled button = false)
          /\ (isProcessing state = true ->
              (disabled button = false <-> leads_to button = currentStep state)))
    /\ (forall button w,
          In button nav -> disabled button = false ->
          app w = state -> isProcessing state = true ->
          app (final (selectStep (leads_to button) w)) = state).
Proof.
  intros state nav. subst nav. split; [reflexivity|].
  assert (Hbuttons : forall button,
             In button (renderStepNav state) ->
             current button = AppStep_eqb (currentStep state) (leads_to button)
             /\ disabled button
                = isProcessing state
                  && negb (AppStep_eqb (currentStep state) (leads_to button))).
  { unfold renderStepNav. intros button Hin. apply in_map_iff in Hin.
    destruct Hin as (step & <- & _). split; reflexivity. }
  split.
  - intros button Hin. destruct (Hbuttons button Hin) as [-> ->].
    rewrite AppStep_eqb_eq. split; [split; congruence|]. split.
    + intros ->. reflexivity.
    + intros ->. cbn [andb]. rewrite negb_false_iff, AppStep_eqb_eq. split; congruence.
  - intros button w Hin Henabled Happ Hprocessing.
    destruct (Hbuttons button Hin) as [_ Hdisabled].
    rewrite Hdisabled, Hprocessing in Henabled. cbn [andb] in Henabled.
    rewrite negb_false_iff, AppStep_eqb_eq in Henabled.
    unfold selectStep, updateState. cbn [final app].
    rewrite Happ, <- Henabled. apply merge_current_step.
Qed.

Lemma navigation_is_locked_while_processing_witness :
  Forall (fun button => leads_to button = IMAGES -> disabled button <> false)
         (renderStepNav Sample.processing).
Proof.
  apply Forall_forall. intros button Hin Hleads Henabled.
  destruct (navigation_is_locked_while_processing Sample.processing) as (_ & Hbuttons & _).
  destruct (Hbuttons button Hin) as (_ & _ & Hlocked).
  apply (Hlocked eq_refl) in Henabled. rewrite Hleads in Henabled. discriminate Henabled.
Defined.

(** ** One image at a time *)

Lemma spinners_app (es es' : list Event) :
  spinners (es ++ es')%list = (spinners es ++ spinners es')%list.
Proof.
  induction es as [|e es IH]; cbn; [reflexivity|].
  destruct e; cbn; rewrite ?IH; try reflexivity.
  destruct (new_script updates); cbn; now rewrite ?IH.
Qed.

Lemma spinners_published (scriptData : Value) (ps : list Value) :
  spinners [Published (paragraphs_update scriptData ps)] = [map spinning ps].
Proof.
  cbn. unfold spread_with. cbn [own]. now rewrite lookup_assign_same.
Qed.

Lemma idle_flags (ps : list Value) :
  Forall (fun p => spinning p = false) ps ->
  map spinning ps = repeat false (List.length ps).
Proof.
  induction 1 as [|p ps Hp _ IH]; cbn; [reflexivity|]. now rewrite Hp, IH.
Qed.

Lemma fresh_scene_idle (p : Value) : fresh_scene p -> spinning p = false.
Proof.
  intros (fs & shown & -> & _ & _ & Hflag). unfold spinning. cbn. now rewrite Hflag.
Qed.

Section Spinners.

Variable svc : Service.

(** One turn on a fresh scene publishes twice: the paragraph alone
    generating, then no paragraph generating. *)
Lemma image_turn_spinners (scriptData : Value) (done rest : list Value) (p : Value)
      (w : World) :
  fresh_scene p ->
  Forall (fun q => spinning q = false) done ->
  Forall fresh_scene rest ->
  let n := List.length done + S (List.length rest) in
  spinners (events (image_turn svc scriptData (List.length done) (done ++ p :: rest) w))
  = [alone (List.length done) n; repeat false n]
  /\ spinning (settle_scene (image_attempt svc (clock w) (prompt_of p)) p) = false.
Proof.
  intros Hfresh Hdone Hrest n.
  assert (Hidle : map spinning rest = repeat false (List.length rest)).
  { apply idle_flags. eapply Forall_impl; [|exact Hrest]. apply fresh_scene_idle. }
  destruct (scene_prompt p (fresh_scene_scene p Hfresh))
    as (fs & shown & -> & Hprompt & Hreq & Hshown).
  assert (Hsettled : forall attempt, spinning (VObj (settled attempt fs)) = false).
  { intros attempt. unfold spinning. cbn [own]. now rewrite lookup_settled_flag. }
  split; [|apply Hsettled].
  unfold image_turn, set_at. unfold_monad.
  rewrite element_middle. cbn. rewrite store_middle, element_middle. cbn.
  rewrite lookup_assign_other by discriminate.
  unfold prompt_of in *. cbn in Hprompt, Hshown |- *.
  rewrite generateImage_run. rewrite Hshown. cbn.
  assert (Hflags : forall x,
             spinning x = false ->
             map spinning (done ++ x :: rest) = repeat false n).
  { intros x Hx. rewrite map_app, (idle_flags done Hdone). cbn [map].
    rewrite Hx, Hidle. subst n.
    change (false :: repeat false (List.length rest))
      with (repeat false (S (List.length rest))).
    now rewrite <- repeat_app. }
  assert (Halone : map spinning (done ++ VObj (assign "isGenerating" (VBool true) fs) :: rest)
                   = alone (List.length done) n).
  { rewrite map_app, (idle_flags done Hdone). cbn [map].
    unfold spinning at 1. cbn [own]. rewrite lookup_assign_same. cbn [or_undefined truthy].
    rewrite Hidle. unfold alone. subst n.
    now replace (List.length done + S (List.length rest) - S (List.length done))
      with (List.length rest) by lia. }
  destruct (image_attempt svc (clock w) _) as [url|e] eqn:Ea; cbn;
    rewrite ?store_middle, ?element_middle; cbn;
    rewrite ?store_middle, ?element_middle; cbn;
    unfold spread_with; cbn [own]; rewrite !lookup_assign_same;
    rewrite Halone; f_equal; f_equal.
  - apply (Hflags _ (Hsettled (Ok url))).
  - apply (Hflags _ (Hsettled (Throw e))).
Qed.

Lemma image_loop_spinners (scriptData : Value) (todo : list Value) :
  forall (done : list Value) (w : World),
    Forall fresh_scene todo ->
    Forall (fun q => spinning q = false) done ->
    spinners (events (image_loop svc scriptData (List.length todo) (List.length done)
                                 (done ++ todo) w))
    = turns (List.length done) (List.length todo)
            (List.length done + List.length todo).
Proof.
  induction todo as [|p rest IH]; intros done w Hall Hdone; [reflexivity|].
  inversion Hall as [|? ? Hp Hrest]; subst.
  pose proof (image_turn_scene svc scriptData done rest p w (fresh_scene_scene p Hp))
    as (Hout & _).
  destruct (image_turn_spinners scriptData done rest p w Hp Hdone Hrest)
    as [Hturn Hidle].
  cbn [List.length image_loop turns]. unfold bind.
  set (p' := settle_scene (image_attempt svc (clock w) (prompt_of p)) p) in *.
  destruct (image_turn svc scriptData (List.length done) (done ++ p :: rest) w)
    as [o w' es]; cbn [outcome final events] in *.
  subst o.
  assert (Hdone' : Forall (fun q => spinning q = false) (done ++ [p'])).
  { apply Forall_app. split; [exact Hdone | now constructor]. }
  specialize (IH (done ++ [p'])%list w' Hrest Hdone').
  replace (List.length (done ++ [p'])) with (S (List.length done)) in IH
    by (rewrite length_app; cbn; lia).
  rewrite <- !app_assoc in IH.
  change ([p'] ++ rest)%list with (p' :: rest) in IH.
  rewrite events_after, spinners_app, Hturn, IH.
  replace (S (List.length done) + List.length rest)
    with (List.length done + S (List.length rest)) by lia.
  reflexivity.
Qed.

End Spinners.

Lemma alone_once (j n : nat) : count_occ bool_dec (alone j n) true = 1.
Proof.
  unfold alone. rewrite count_occ_app.
  assert (Hnone : forall k, count_occ bool_dec (repeat false k) true = 0).
  { induction k; cbn; auto. }
  cbn [count_occ]. destruct (bool_dec true true) as [_|H]; [|now destruct H].
  rewrite !Hnone. reflexivity.
Qed.

Lemma turns_at_most_one (todo : nat) :
  forall j n, Forall (fun flags => count_occ bool_dec flags true <= 1) (turns j todo n).
Proof.
  induction todo as [|todo IH]; intros j n; cbn [turns]; constructor.
  - now rewrite alone_once.
  - constructor; [|apply IH].
    assert (Hnone : forall k, count_occ bool_dec (repeat false k) true = 0).
    { induction k; cbn; auto. }
    rewrite Hnone. lia.
Qed.

Lemma last_turns (todo : nat) :
  forall j n d, last (turns j (S todo) n) d = repeat false n.
Proof.
  induction todo as [|todo IH]; intros j n d; [reflexivity|].
  change (turns j (S (S todo)) n)
    with (alone j n :: repeat false n :: turns (S j) (S todo) n).
  rewrite !last_cons. apply IH.
Qed.

(** X12: the image stage, over a script of the requested shape, publishes
    the paragraphs twice per paragraph, in order: first with that paragraph
    alone shown as generating, then with none.  So at most one paragraph is
    ever shown as generating, and none once the stage is over. *)
Theorem one_scene_generates_at_a_time :
  forall (svc : Service) (scriptData : Value) (ps : list Value) (w : World),
    conforms scriptSchema scriptData = true ->
    own scriptData "paragraphs" = Some (VArr ps []) ->
    let shown := spinners (events (images svc scriptData w)) in
    shown = turns 0 (List.length ps) (List.length ps)
    /\ Forall (fun flags => count_occ bool_dec flags true <= 1) shown
    /\ (ps <> [] -> last shown [] = repeat false (List.length ps)).
Proof.
  intros svc scriptData ps w Hshape Hps shown.
  destruct (conforms_script scriptData ps [] Hshape Hps) as ([sf ->] & _ & Hfresh).
  assert (Hshown : shown = turns 0 (List.length ps) (List.length ps)).
  { subst shown. unfold images. unfold_monad. cbn in Hps |- *. rewrite Hps. cbn.
    pose proof (image_loop_spinners svc (VObj sf) ps [] 
                  {| app := merge (app w) (step_update IMAGES); clock := clock w |}
                  Hfresh (Forall_nil _)) as Hloop.
    cbn [List.length List.app Nat.add] in Hloop.
    destruct (image_loop svc (VObj sf) (List.length ps) 0 ps _) as [[a|e] w1 es];
      cbn [outcome final events after] in *; rewrite ?app_nil_r; exact Hloop. }
  split; [exact Hshown|]. rewrite Hshown. split; [apply turns_at_most_one|].
  intros Hne. destruct ps as [|p ps]; [now destruct Hne|].
  cbn [List.length]. apply last_turns.
Qed.

Lemma one_scene_generates_at_a_time_witness :
  spinners (events (images (Sample.failing_at 1 2) (Sample.scriptOf 2) (Sample.world "cats")))
  = [[true; false]; [false; false]; [false; true]; [false; false]].
Proof.
  apply (one_scene_generates_at_a_time
           (Sample.failing_at 1 2) (Sample.scriptOf 2) (map Sample.paragraph (seq 1 2))
           (Sample.world "cats")).
  - vm_compute. reflexivity.
  - reflexivity.
Defined.

(** ** Results are stored stage by stage *)

Section Stored.

Variable svc : Service.

Ltac entered_step :=
  let H := fresh "H" in
  intros H; exfalso; apply H; rewrite ?marks_app; cbn;
  repeat first [ now left | right | apply in_or_app ].

(** When the stages fail, the results of the stages whose next step was
    not entered are what they were. *)
Lemma stages_stored (state : AppState) (w : World) :
  let r := stages svc state w in
  match outcome r with
  | Ok _ => True
  | Throw _ =>
      thumbnail (app (final r)) = thumbnail (app w)
      /\ (~ In (Enters THUMBNAIL) (marks (events r)) ->
          metadata (app (final r)) = metadata (app w))
      /\ (~ In (Enters METADATA) (marks (events r)) ->
          script (app (final r)) = script (app w))
      /\ (~ In (Enters SCRIPT) (marks (events r)) ->
          research (app (final r)) = research (app w))
  end.
Proof.
  unfold stages, bind.
  pose proof (client_app svc w) as (Hresearch & _).
  specialize (Hresearch (topic state)).
  destruct (performResearch svc (topic state) w) as [[research|e] w1 es1];
    cbn [updateState outcome final events after app clock] in *.
  2:{ rewrite Hresearch. repeat split. }
  match goal with
  | |- context [generateScript svc _ _ ?x] =>
      pose proof (client_app svc x) as (_ & Hscript & _);
      specialize (Hscript (report research) (length state));
      destruct (generateScript svc (report research) (length state) x)
        as [[sd|e] w2 es2];
      cbn [outcome final events after app clock] in *
  end.
  2:{ split; [rewrite Hscript, Hresearch; reflexivity|].
      split; [intros _; rewrite Hscript, Hresearch; reflexivity|].
      split; [intros _; rewrite Hscript, Hresearch; reflexivity|].
      entered_step. }
  destruct (get_prop sd "ttsScript") as [tts|e];
    cbn [lift ret throw outcome final events after app clock] in *.
  2:{ split; [rewrite Hscript, Hresearch; reflexivity|].
      split; [intros _; rewrite Hscript, Hresearch; reflexivity|].
      split; entered_step. }
  match goal with
  | |- context [generateMetadata svc tts ?x] =>
      pose proof (client_app svc x) as (_ & _ & Hmetadata);
      specialize (Hmetadata tts);
      destruct (generateMetadata svc tts x) as [[metadata|e] w4 es4];
      cbn [outcome final events after app clock] in *
  end.
  2:{ split; [rewrite Hmetadata; cbn; rewrite Hscript, Hresearch; reflexivity|].
      split; [intros _; rewrite Hmetadata; cbn; rewrite Hscript, Hresearch; reflexivity|].
      split; entered_step. }
  match goal with
  | |- context [generateThumbnailContent svc tts ?x] =>
      pose proof (client_app_thumbnail svc tts x) as Hthumbnail;
      destruct (generateThumbnailContent svc tts x) as [[thumbnail|e] w6 es6];
      cbn [outcome final events after app clock] in *
  end.
  - exact I.
  - split; [rewrite Hthumbnail; cbn; rewrite Hmetadata; cbn;
            rewrite Hscript, Hresearch; reflexivity|].
    split; [|split]; entered_step.
Qed.

End Stored.

(** X21: a result is stored only when its stage is over, just before the
    next step is entered: in every run, [research] is what it was before the
    run unless the script step was entered, [script] unless the metadata step
    was, [metadata] unless the thumbnail step was, and [thumbnail] unless the
    images step was.  So a run that fails keeps, from the failing stage on,
    the results of an earlier run. *)
Theorem results_are_stored_stage_by_stage :
  forall (svc : Service) (w : World),
    let r := startWorkflow svc w in
    (~ In (Enters SCRIPT) (marks (events r)) ->
     research (app (final r)) = research (app w))
    /\ (~ In (Enters METADATA) (marks (events r)) ->
        script (app (final r)) = script (app w))
    /\ (~ In (Enters THUMBNAIL) (marks (events r)) ->
        metadata (app (final r)) = metadata (app w))
    /\ (~ In (Enters IMAGES) (marks (events r)) ->
        thumbnail (app (final r)) = thumbnail (app w)).
Proof.
  intros svc w. cbn zeta.
  destruct (String.eqb (topic (app w)) "") eqn:E.
  { apply String.eqb_eq in E. rewrite (startWorkflow_idle svc w E). cbn. tauto. }
  apply nonempty_topic in E.
  rewrite (marks_of_run svc w E), (startWorkflow_run svc w E).
  cbn [final app merge processing_update new_research new_script new_metadata
       new_thumbnail override_opt research script metadata thumbnail].
  set (started := {| app := merge (app w) start_update; clock := clock w |}).
  pose proof (stages_stored svc (app w) started) as Hstored.
  pose proof (stages_progress svc (app w) started) as (_ & _ & Hmarks).
  unfold attempt, bind. cbn zeta in Hstored.
  destruct (stages svc (app w) started) as [[scriptData|e] w1 es];
    cbn [outcome final events] in *.
  - destruct Hmarks as [Hmarks _].
    destruct (images_run svc scriptData w1) as ([k Hk] & _).
    rewrite events_after, marks_app, Hmarks, Hk.
    repeat split; intros H; exfalso; apply H; cbn; auto 20.
  - destruct Hstored as (Ht & Hm & Hs & Hr).
    repeat split; intros H.
    + apply Hr. intros Hin. apply H. now right.
    + apply Hs. intros Hin. apply H. now right.
    + apply Hm. intros Hin. apply H. now right.
    + exact Ht.
Qed.

Lemma results_are_stored_stage_by_stage_witness :
  let r := startWorkflow (Sample.failing_at 8 2) Sample.finished in
  script (app (final r)) = script (app Sample.finished)
  /\ metadata (app (final r)) = metadata (app Sample.finished).
Proof.
  destruct (results_are_stored_stage_by_stage (Sample.failing_at 8 2) Sample.finished)
    as (_ & Hscript & Hmetadata & _).
  cbn zeta. split.
  - apply Hscript. intros H. vm_compute in H.
    repeat (destruct H as [H|H]; [discriminate H|]). exact H.
  - apply Hmetadata. intros H. vm_compute in H.
    repeat (destruct H as [H|H]; [discriminate H|]). exact H.
Defined.

(** ** The length chosen in the form *)

Lemma ScriptLength_eqb_eq (a b : ScriptLength) : ScriptLength_eqb a b = true <-> a = b.
Proof. destruct a, b; cbn; split; intros H; try reflexivity; discriminate H. Qed.

Lemma events_bind {A B : Type} (m : M A) (k : A -> M B) (w : World) :
  events (bind m k w)
  = (events (m w)
     ++ match outcome (m w) with
        | Ok a => events (k a (final (m w)))
        | Throw _ => []
        end)%list.
Proof.
  unfold bind. destruct (m w) as [[a|e] w1 es]; cbn.
  - apply events_after.
  - now rewrite app_nil_r.
Qed.

(** X22: the form offers the three lengths, and marks as chosen the one of
    the state and no other; once a length button is clicked, a run that gets
    its research asks, in its script request, for the number of characters of
    that length. *)
Theorem chosen_length_is_requested :
  forall (svc : Service) (w : World) (l : ScriptLength) (response : Response),
    topic (app w) <> "" ->
    svc (clock w) (ResearchCall (topic (app w))) = Resolves response ->
    let clicked := {| app := merge (app w) (length_update l); clock := clock w |} in
    map choice (lengthButtons (renderInput (app clicked))) = [SHORT; MEDIUM; LONG]
    /\ (forall button,
          In button (lengthButtons (renderInput (app clicked))) ->
          (chosen button = true <-> choice button = l))
    /\ nth_error (calls (events (startWorkflow svc clicked))) 1
       = Some (ScriptCall (or_else (text response) "") (targetChars_of l)).
Proof.
  intros svc w l response Htopic Hresearch clicked.
  split; [reflexivity|]. split.
  - intros button Hin. unfold renderInput in Hin. cbn [lengthButtons] in Hin.
    apply in_map_iff in Hin. destruct Hin as (len & <- & _).
    cbn [chosen choice]. rewrite ScriptLength_eqb_eq. subst clicked. cbn.
    split; congruence.
  - assert (Htopic' : topic (app clicked) <> "") by exact Htopic.
    rewrite (startWorkflow_run svc clicked Htopic').
    cbn [events calls]. rewrite calls_app.
    unfold attempt. rewrite events_bind, calls_app.
    unfold stages. rewrite events_bind, performResearch_run. cbn zeta.
    change (topic (app clicked)) with (topic (app w)).
    change (clock {| app := merge (app clicked) start_update; clock := clock clicked |})
      with (clock w).
    rewrite Hresearch. cbn [outcome final events].
    rewrite events_bind. cbn [updateState outcome final events].
    rewrite events_bind. cbn [updateState outcome final events].
    rewrite events_bind, generateScript_run. cbn zeta.
    cbn [outcome final events report clock app List.app calls nth_error].
    reflexivity.
Qed.

Lemma chosen_length_is_requested_witness :
  nth_error (calls (events (startWorkflow
                              (Sample.helpful 2)
                              {| app := merge (app (Sample.world "cats")) (length_update LONG);
                                 clock := 0 |}))) 1
  = Some (ScriptCall "report" (targetChars_of LONG)).
Proof.
  apply (chosen_length_is_requested
           (Sample.helpful 2) (Sample.world "cats") LONG Sample.groundedResponse).
  - discriminate.
  - reflexivity.
Defined.

(** ** A retry that brings no image *)

(** X23: when the retry of a paragraph is answered by a reply that carries
    no image data, the card of that paragraph becomes the idle placeholder,
    whatever image it showed before: it no longer shows an image, and with
    the image go the retry and the download buttons, which only the card of
    an image has. *)
Theorem retry_without_image_removes_the_buttons :
  forall (svc : Service) (index : nat) (w : World) (sc : Value)
         (ps : list Value) (props fs : Fields) (shown : string) (response : Response),
    script (app w) = Some sc ->
    truthy sc = true ->
    get_prop sc "paragraphs" = Ok (VArr ps props) ->
    index < List.length ps ->
    element ps index = VObj fs ->
    ToString (or_undefined (lookup "imagePrompt" fs)) = Ok shown ->
    svc (clock w) (ImageCall shown) = Resolves response ->
    Forall (fun part => inlineData part = None) (content_parts response) ->
    let r := retryImage svc index w in
    renderScene (element (paragraphs_of (app (final r))) index) index
    = Ok {| face := Waiting false "이미지 준비 중";
            badge := "Scene " ++ decimal (index + 1);
            excerpt := or_undefined (lookup "content" fs) |}.
Proof.
  intros svc index w sc ps props fs shown response
         Hsc Htruthy Hps Hindex Hfs Hshown Hreply Hparts r.
  destruct (retryImage_run svc index w sc ps props fs Hsc Htruthy Hps Hindex Hfs)
    as [_ Hscript].
  fold r in Hscript. unfold paragraphs_of. rewrite Hscript.
  unfold spread_with. cbn [own]. rewrite lookup_assign_same.
  rewrite element_store by assumption.
  unfold image_attempt. rewrite Hshown, Hreply.
  apply first_image_none in Hparts. rewrite Hparts.
  unfold renderScene. cbn [get_prop and_then].
  rewrite lookup_settled_url, lookup_settled_flag.
  rewrite lookup_settled_other by discriminate.
  reflexivity.
Qed.

Lemma retry_without_image_removes_the_buttons_witness :
  (exists card,
      renderScene (element (paragraphs_of (app Sample.finished)) 1) 1 = Ok card
      /\ face card = Picture (VStr "data:image/png;base64,OLD") "Scene 2" false)
  /\ exists card,
       renderScene
         (element (paragraphs_of (app (final (retryImage Sample.mute 1 Sample.finished)))) 1) 1
       = Ok card
       /\ face card = Waiting false "이미지 준비 중".
Proof.
  split; [eexists; split; reflexivity|].
  eexists. split.
  - eapply (retry_without_image_removes_the_buttons
              Sample.mute 1 Sample.finished
              (VObj [("rawScript", VStr "raw"); ("ttsScript", VStr "tts");
                     ("paragraphs", VArr [Sample.illustrated 1; Sample.illustrated 2] [])])
              [Sample.illustrated 1; Sample.illustrated 2] []
              [("id", VNum (decimal 2));
               ("content", VStr ("content " ++ decimal 2));
               ("imagePrompt", VStr ("prompt " ++ decimal 2));
               ("isGenerating", VBool false);
               ("imageUrl", VStr "data:image/png;base64,OLD")]
              "prompt 2" Sample.emptyResponse);
      first [reflexivity | cbn; lia | constructor].
  - reflexivity.
Defined.

(** ** Requests are made in their step *)

Lemma published_app (es es' : list Event) :
  published (es ++ es')%list = (published es ++ published es')%list.
Proof.
  induction es as [|e es IH]; cbn; [reflexivity|].
  destruct e; cbn; now rewrite ?IH.
Qed.

Lemma replay_step (es : list Event) :
  forall a, currentStep (replay a (published es)) = last (steps es) (currentStep a).
Proof.
  unfold replay.
  induction es as [|e es IH]; intros a; [reflexivity|].
  destruct e; cbn [published steps fold_left]; try apply IH.
  rewrite IH. cbn [merge currentStep].
  destruct (new_currentStep updates) as [s|]; cbn [override]; [|reflexivity].
  now rewrite last_cons.
Qed.

Lemma replay_processing (us : list Partial) :
  Forall (fun updates => new_isProcessing updates = None) us ->
  forall a, isProcessing (replay a us) = isProcessing a.
Proof.
  unfold replay. induction 1 as [|u us Hu _ IH]; intros a; [reflexivity|].
  cbn [fold_left]. rewrite IH. cbn. now rewrite Hu.
Qed.

Lemma in_step_prefix (l : list Mark) :
  forall cur r, in_step cur (l ++ r) -> in_step cur l.
Proof.
  induction l as [|m l IH]; intros cur r H; [exact I|].
  destruct m; cbn in *.
  - eapply IH; eassumption.
  - split; [tauto|]. eapply IH. apply H.
Qed.

Lemma in_step_at (before : list Mark) :
  forall cur k later,
    in_step cur (before ++ Asks k :: later) ->
    stage_of k (last (entered before) cur).
Proof.
  induction before as [|m before IH]; intros cur k later H.
  - cbn in *. tauto.
  - destruct m; cbn [List.app in_step entered] in *.
    + rewrite last_cons. eapply IH; eassumption.
    + eapply IH. apply H.
Qed.

Lemma in_step_itinerary (k : nat) (cur : AppStep) : in_step cur (itinerary k).
Proof.
  unfold itinerary. cbn. repeat split; auto.
  induction k; cbn; auto.
Qed.

Lemma busy_bind {A B : Type} (m : M A) (k : A -> M B) (w : World) :
  busy (m w) ->
  (forall a, outcome (m w) = Ok a -> busy (k a (final (m w)))) ->
  busy (bind m k w).
Proof.
  unfold busy, bind. intros Hm Hk.
  destruct (m w) as [[a|e] w1 es]; cbn [outcome final events] in *; [|exact Hm].
  rewrite events_after, published_app. apply Forall_app. split; [exact Hm|].
  now apply Hk.
Qed.

Lemma silent_busy {A : Type} (r : Run A) : published (events r) = [] -> busy r.
Proof. unfold busy. intros ->. constructor. Qed.

Lemma updateState_busy (w : World) (updates : Partial) :
  new_isProcessing updates = None -> busy (updateState updates w).
Proof. intros H. unfold busy. cbn. now constructor. Qed.

Lemma lift_busy {A : Type} (x : Result A) (w : World) : busy (lift x w).
Proof. apply silent_busy; destruct x; reflexivity. Qed.

Section Busy.

Variable svc : Service.

Lemma client_busy (w : World) :
  (forall topic, busy (performResearch svc topic w))
  /\ (forall research length, busy (generateScript svc research length w))
  /\ (forall script, busy (generateMetadata svc script w))
  /\ (forall script, busy (generateThumbnailContent svc script w)).
Proof.
  unfold performResearch, generateScript, generateMetadata, generateThumbnailContent,
    generateImage, generateContent.
  unfold_monad.
  repeat split; intros; apply silent_busy; run; reflexivity.
Qed.

Lemma stages_busy (state : AppState) (w : World) : busy (stages svc state w).
Proof.
  unfold stages.
  repeat (apply busy_bind;
          [ first [ apply updateState_busy; reflexivity
                  | apply lift_busy
                  | apply client_busy ]
          | intros ? _ ]).
  apply (lift_busy (Ok _)).
Qed.

Lemma image_turn_busy (scriptData : Value) (i : nat) (ps : list Value) (w : World) :
  busy (image_turn svc scriptData i ps w).
Proof.
  unfold busy, image_turn, set_at, generateImage, generateContent. unfold_monad.
  run; repeat constructor.
Qed.

Lemma image_loop_busy (scriptData : Value) (todo : nat) :
  forall (i : nat) (ps : list Value) (w : World),
    busy (image_loop svc scriptData todo i ps w).
Proof.
  induction todo as [|todo IH]; intros i ps w; cbn [image_loop].
  - apply silent_busy. reflexivity.
  - apply busy_bind; [apply image_turn_busy|]. intros a _. apply IH.
Qed.

Lemma attempt_busy (state : AppState) (w : World) : busy (attempt svc state w).
Proof.
  unfold attempt. apply busy_bind; [apply stages_busy | intros scriptData _].
  unfold images.
  apply busy_bind; [apply updateState_busy; reflexivity | intros _ _].
  apply busy_bind; [apply lift_busy | intros paragraphs _].
  apply busy_bind; [apply lift_busy | intros updatedParagraphs _].
  apply busy_bind; [apply image_loop_busy | intros _ _].
  apply (lift_busy (Ok tt)).
Qed.

End Busy.

Lemma not_called_tail (tail : list Event) (before later : list Event)
      (block : list Event) (request : Request) (reply : Reply) :
  (forall r a, ~ In (Called r a) tail) ->
  (block ++ tail)%list = (before ++ Called request reply :: later)%list ->
  exists later', block = (before ++ Called request reply :: later')%list.
Proof.
  intros Htail H. apply app_eq_app in H.
  destruct H as [l [[Hb Ht] | [Hb Ht]]].
  - destruct l as [|e l].
    + cbn in Ht. exfalso. apply (Htail request reply). rewrite <- Ht. now left.
    + cbn in Ht. inversion Ht; subst. exists l. reflexivity.
  - exfalso. apply (Htail request reply). rewrite Ht.
    apply in_or_app. right. now left.
Qed.

Lemma replay_app (a : AppState) (us us' : list Partial) :
  replay a (us ++ us')%list = replay (replay a us) us'.
Proof. apply fold_left_app. Qed.

Lemma replayed_bind {A B : Type} (m : M A) (k : A -> M B) (w : World) :
  replayed w (m w) ->
  (forall a, outcome (m w) = Ok a -> replayed (final (m w)) (k a (final (m w)))) ->
  replayed w (bind m k w).
Proof.
  unfold replayed, bind. intros Hm Hk.
  destruct (m w) as [[a|e] w1 es]; cbn [outcome final events] in *; [|exact Hm].
  rewrite final_after, events_after, published_app, replay_app, <- Hm.
  now apply Hk.
Qed.

Lemma silent_replayed {A : Type} (w : World) (r : Run A) :
  app (final r) = app w -> published (events r) = [] -> replayed w r.
Proof. unfold replayed. intros -> ->. reflexivity. Qed.

Lemma updateState_replayed (w : World) (updates : Partial) :
  replayed w (updateState updates w).
Proof. reflexivity. Qed.

Lemma lift_replayed {A : Type} (x : Result A) (w : World) : replayed w (lift x w).
Proof. apply silent_replayed; destruct x; reflexivity. Qed.

Section Replayed.

Variable svc : Service.

Lemma client_replayed (w : World) :
  (forall topic, replayed w (performResearch svc topic w))
  /\ (forall research length, replayed w (generateScript svc research length w))
  /\ (forall script, replayed w (generateMetadata svc script w))
  /\ (forall script, replayed w (generateThumbnailContent svc script w)).
Proof.
  unfold performResearch, generateScript, generateMetadata, generateThumbnailContent,
    generateImage, generateContent.
  unfold_monad.
  repeat split; intros; apply silent_replayed; run; reflexivity.
Qed.

Lemma stages_replayed (state : AppState) (w : World) : replayed w (stages svc state w).
Proof.
  unfold stages.
  repeat (apply replayed_bind;
          [ first [ apply updateState_replayed
                  | apply lift_replayed
                  | apply client_replayed ]
          | intros ? _ ]).
  apply (lift_replayed (Ok _)).
Qed.

Lemma image_turn_replayed (scriptData : Value) (i : nat) (ps : list Value) (w : World) :
  replayed w (image_turn svc scriptData i ps w).
Proof.
  unfold replayed, image_turn, set_at, generateImage, generateContent. unfold_monad.
  run; reflexivity.
Qed.

Lemma image_loop_replayed (scriptData : Value) (todo : nat) :
  forall (i : nat) (ps : list Value) (w : World),
    replayed w (image_loop svc scriptData todo i ps w).
Proof.
  induction todo as [|todo IH]; intros i ps w; cbn [image_loop].
  - apply silent_replayed; reflexivity.
  - apply replayed_bind; [apply image_turn_replayed|]. intros a _. apply IH.
Qed.

Lemma attempt_replayed (state : AppState) (w : World) : replayed w (attempt svc state w).
Proof.
  unfold attempt. apply replayed_bind; [apply stages_replayed | intros scriptData _].
  unfold images.
  apply replayed_bind; [apply updateState_replayed | intros _ _].
  apply replayed_bind; [apply lift_replayed | intros paragraphs _].
  apply replayed_bind; [apply lift_replayed | intros updatedParagraphs _].
  apply replayed_bind; [apply image_loop_replayed | intros _ _].
  apply (lift_replayed (Ok tt)).
Qed.

Lemma startWorkflow_replayed (w : World) : replayed w (startWorkflow svc w).
Proof.
  destruct (String.eqb (topic (app w)) "") eqn:E.
  - apply String.eqb_eq in E. rewrite (startWorkflow_idle svc w E). reflexivity.
  - apply nonempty_topic in E. rewrite (startWorkflow_run svc w E).
    pose proof (attempt_replayed (app w)
                  {| app := merge (app w) start_update; clock := clock w |}) as Hblock.
    unfold replayed in *. cbn [final events app published] in *.
    rewrite !published_app.
    replace (published (match outcome (attempt svc (app w) _) with
                        | Ok _ => []
                        | Throw e => [ConsoleError "Workflow failed" e; Alert failureNotice]
                        end)) with (@nil Partial) by (destruct (outcome _); reflexivity).
    cbn [published List.app]. unfold replay in *. cbn [fold_left].
    now rewrite fold_left_app, <- Hblock.
Qed.

End Replayed.

(** X24: the state a run leaves is the state it started from with the
    updates it published applied in turn, and every request of a run is made
    while [isProcessing] is true and while the current step is the step of
    its stage: the research request in RESEARCH, the script request in
    SCRIPT, the metadata request in METADATA, the thumbnail copy request in
    THUMBNAIL, and an image request in THUMBNAIL (the background of the
    thumbnail) or IMAGES (a paragraph).  The state in which a request is made
    is the one the updates published before it leave. *)
Theorem requests_are_made_in_their_step :
  forall (svc : Service) (w : World),
    let r := startWorkflow svc w in
    app (final r) = replay (app w) (published (events r))
    /\ forall (before later : list Event) (request : Request) (reply : Reply),
         events r = (before ++ Called request reply :: later)%list ->
         let pending := replay (app w) (published before) in
         isProcessing pending = true
         /\ stage_of (kind request) (currentStep pending).
Proof.
  intros svc w r. split; [apply startWorkflow_replayed|]. subst r.
  intros before later request reply Hsplit pending.
  destruct (String.eqb (topic (app w)) "") eqn:E.
  { apply String.eqb_eq in E. rewrite (startWorkflow_idle svc w E) in Hsplit.
    cbn in Hsplit. now destruct before. }
  apply nonempty_topic in E.
  pose proof (marks_within_itinerary svc w) as [k Hk].
  rewrite Hsplit in Hk.
  rewrite (startWorkflow_run svc w E) in Hsplit. cbn [events] in Hsplit.
  set (started := {| app := merge (app w) start_update; clock := clock w |}) in *.
  destruct before as [|first before]; [discriminate Hsplit|].
  cbn [List.app] in Hsplit. inversion Hsplit as [[Hfirst Hrest]]. clear Hsplit.
  subst first.
  rewrite app_assoc in Hrest.
  apply not_called_tail in Hrest.
  2:{ intros r a Hin. cbn in Hin. destruct Hin as [Hin|[]]. discriminate Hin. }
  destruct Hrest as [later' Hrest].
  apply not_called_tail in Hrest.
  2:{ intros r a Hin. destruct (outcome (attempt svc (app w) started)); cbn in Hin;
        intuition discriminate. }
  destruct Hrest as [later'' Hblock].
  pose proof (attempt_busy svc (app w) started) as Hbusy.
  unfold busy in Hbusy. rewrite Hblock, published_app in Hbusy.
  apply Forall_app in Hbusy. destruct Hbusy as [Hbusy _].
  subst pending. cbn [published]. unfold replay. cbn [fold_left].
  fold (replay (merge (app w) start_update) (published before)).
  split.
  - now rewrite (replay_processing _ Hbusy).
  - rewrite replay_step. cbn [merge currentStep start_update new_currentStep override].
    destruct Hk as [rest Hrest].
    pose proof (in_step_itinerary k INPUT) as Hin. rewrite Hrest in Hin.
    apply in_step_prefix in Hin.
    change (Published start_update :: before ++ Called request reply :: later)%list
      with ((Published start_update :: before) ++ Called request reply :: later)%list in Hin.
    rewrite marks_app in Hin.
    change (marks (Called request reply :: later))
      with (Asks (kind request) :: marks later) in Hin.
    apply in_step_at in Hin.
    rewrite <- steps_marks in Hin. cbn [steps new_currentStep start_update] in Hin.
    now rewrite last_cons in Hin.
Qed.

Lemma requests_are_made_in_their_step_witness :
  let before :=
    firstn 4 (events (startWorkflow (Sample.helpful 2) (Sample.world "cats"))) in
  isProcessing (replay (app (Sample.world "cats")) (published before)) = true
  /\ currentStep (replay (app (Sample.world "cats")) (published before)) = SCRIPT.
Proof.
  cbn zeta.
  destruct (requests_are_made_in_their_step
              (Sample.helpful 2) (Sample.world "cats")) as [_ H].
  destruct (H (firstn 4 (events (startWorkflow (Sample.helpful 2) (Sample.world "cats"))))
              (skipn 5 (events (startWorkflow (Sample.helpful 2) (Sample.world "cats"))))
              (ScriptCall "report" (targetChars_of MEDIUM))
              (Resolves (Sample.textResponse (Sample.stringify (Sample.scriptOf 2)))))
    as [Hprocessing Hstep].
  - vm_compute. reflexivity.
  - split; [exact Hprocessing | exact Hstep].
Defined.
